(** * aggregation.py: raster aggregation by an integer cell factor

    A shallow embedding of [ras_aggregation] (src/aggregation.py) and of
    the command-line entry point below it, together with the properties
    of the script that are stated about it.

    Layout:
    - [Py]    : the Python 2 integer and sequence operations the script uses
                (floor division, modulo, [range], slices) and its exceptions;
    - [Np]    : float64 scalars (IEEE binary64, from [SpecFloat]), 2-D arrays
                and the numpy reductions the script calls by name;
    - [Gdal]  : the raster source and sink, with a log of the I/O calls;
    - [Aggregation] : the script itself, line by line. *)

From Stdlib Require Import String.
From Stdlib Require Import ZArith List Bool Lia.
From Stdlib Require Import Floats.SpecFloat.
Import ListNotations.

Open Scope string_scope.
Open Scope list_scope.
Open Scope Z_scope.

(* ================================================================== *)
(** * Python 2 integers, ranges, slices and exceptions *)
(* ================================================================== *)

Module Py.

(** The exceptions that can escape from the script's code paths. *)
Inductive exn :=
| KeyError (key : string)
| ZeroDivisionError
| ValueError (msg : string)
| AttributeError (name : string).

(** Pure but fallible computations. *)
Definition E (A : Type) : Type := exn + A.

Definition retE {A} (a : A) : E A := inr a.
Definition raiseE {A} (e : exn) : E A := inl e.
Definition bindE {A B} (m : E A) (k : A -> E B) : E B :=
  match m with
  | inl e => inl e
  | inr a => k a
  end.

(** [a / b] on Python 2 ints: floor division, raising on a zero divisor.
    [Z.div] rounds towards minus infinity like Python does. *)
Definition floordiv (a b : Z) : E Z :=
  if b =? 0 then raiseE ZeroDivisionError else retE (a / b).

(** [a % b]: the result has the sign of the divisor, as [Z.modulo]. *)
Definition mod_ (a b : Z) : E Z :=
  if b =? 0 then raiseE ZeroDivisionError else retE (a mod b).

(** Number of elements of [range(start, stop, step)] for [step <> 0]. *)
Definition range_len (start stop step : Z) : Z :=
  if 0 <? step then
    if start <? stop then (stop - start - 1) / step + 1 else 0
  else
    if stop <? start then (start - stop - 1) / (- step) + 1 else 0.

(** [range(start, stop, step)]. *)
Definition range (start stop step : Z) : E (list Z) :=
  if step =? 0 then raiseE (ValueError "range() step argument must not be zero")
  else retE (map (fun k => start + Z.of_nat k * step)
                 (seq 0 (Z.to_nat (range_len start stop step)))).

(** Slice bounds: a negative bound counts from the end, and both bounds
    are clipped to the sequence. *)
Definition clip (n k : Z) : Z :=
  if k <? 0 then Z.max 0 (n + k) else Z.min k n.

Definition slice_len (n a b : Z) : Z := Z.max 0 (clip n b - clip n a).

(** [l[a:b]] *)
Definition slice {A} (a b : Z) (l : list A) : list A :=
  let n := Z.of_nat (length l) in
  firstn (Z.to_nat (slice_len n a b)) (skipn (Z.to_nat (clip n a)) l).

(** [for x in xs: body], threading an accumulator and stopping at the
    first exception. *)
Fixpoint foldE {A S} (body : S -> A -> E S) (xs : list A) (s : S) : E S :=
  match xs with
  | [] => retE s
  | x :: xs' => bindE (body s x) (foldE body xs')
  end.

End Py.

Notation "x <-? m ;; k" := (Py.bindE m (fun x => k))
  (at level 61, m at next level, right associativity).

(* ================================================================== *)
(** * numpy: float64 scalars, arrays and reductions *)
(* ================================================================== *)

Module Np.
Import Py.

(** ** float64 *)

Definition prec : Z := 53.
Definition emax : Z := 1024.

Definition float64 : Type := spec_float.

Definition nan : float64 := S754_nan.
Definition zero : float64 := S754_zero false.

Definition isnan (x : float64) : bool :=
  match x with
  | S754_nan => true
  | _ => false
  end.

Definition add : float64 -> float64 -> float64 := SFadd prec emax.
Definition subtract : float64 -> float64 -> float64 := SFsub prec emax.
Definition multiply : float64 -> float64 -> float64 := SFmul prec emax.
Definition true_divide : float64 -> float64 -> float64 := SFdiv prec emax.
Definition sqrt : float64 -> float64 := SFsqrt prec emax.
Definition equal : float64 -> float64 -> bool := SFeqb.
Definition less_equal : float64 -> float64 -> bool := SFleb.
Definition greater_equal (x y : float64) : bool := SFleb y x.

(** A Python int used where a float64 is expected. *)
Definition of_int (n : Z) : float64 := binary_normalize prec emax n 0 false.

Definition notnan (x : float64) : bool := negb (isnan x).

(** The least exponent of binary64, -1074. *)
Definition emin64 : Z := emin prec emax.

(** A value of the format: its mantissa and exponent are those of a
    binary64 number. *)
Definition valid_cell (x : float64) : Prop := valid_binary prec emax x = true.

(** A finite value whose exponent is not below the least one. *)
Definition exp_bounded (x : float64) : Prop :=
  match x with
  | S754_finite _ _ e => emin64 <= e
  | _ => True
  end.

(** ** 2-D arrays

    [shape] is kept beside the rows, as an array with no row still has a
    number of columns. *)
Record ndarray := mk_ndarray {
  shape : Z * Z;
  items : list (list float64)
}.

(** The elements in C (row-major) order. *)
Definition ravel (a : ndarray) : list float64 := concat (items a).

(** [numpy.where(array == ND, numpy.nan, array)] *)
Definition where_eq_nan (array : ndarray) (ND : float64) : ndarray :=
  {| shape := shape array;
     items := map (map (fun v => if equal v ND then nan else v)) (items array) |}.

(** [a = numpy.empty((r, c)); a[:] = v] *)
Definition full (r c : Z) (v : float64) : ndarray :=
  {| shape := (r, c);
     items := repeat (repeat v (Z.to_nat c)) (Z.to_nat r) |}.

(** [numpy.append(a, b, 0)], for [b] with as many columns as [a]. *)
Definition append0 (a b : ndarray) : ndarray :=
  {| shape := (fst (shape a) + fst (shape b), snd (shape a));
     items := items a ++ items b |}.

(** Row-wise concatenation of two lists of rows. *)
Fixpoint zip_app (xs ys : list (list float64)) : list (list float64) :=
  match xs, ys with
  | x :: xs', y :: ys' => (x ++ y) :: zip_app xs' ys'
  | _, _ => []
  end.

(** [numpy.append(a, b, 1)], for [b] with as many rows as [a]. *)
Definition append1 (a b : ndarray) : ndarray :=
  {| shape := (fst (shape a), snd (shape a) + snd (shape b));
     items := zip_app (items a) (items b) |}.

(** [a[r0:r1, :]] *)
Definition getrows (r0 r1 : Z) (a : ndarray) : ndarray :=
  {| shape := (slice_len (fst (shape a)) r0 r1, snd (shape a));
     items := slice r0 r1 (items a) |}.

(** [a[:, c0:c1]] *)
Definition getcols (c0 c1 : Z) (a : ndarray) : ndarray :=
  {| shape := (fst (shape a), slice_len (snd (shape a)) c0 c1);
     items := map (slice c0 c1) (items a) |}.

(** [a[r0:r1, c0:c1]] *)
Definition getitem (r0 r1 c0 c1 : Z) (a : ndarray) : ndarray :=
  getcols c0 c1 (getrows r0 r1 a).

(** [flat.reshape(r, c)] of a 1-D array. *)
Definition reshape (flat : list float64) (r c : Z) : E ndarray :=
  if (Z.of_nat (length flat) =? r * c) && (0 <=? r) && (0 <=? c) then
    retE {| shape := (r, c);
            items := map (fun k => firstn (Z.to_nat c) (skipn (k * Z.to_nat c) flat))
                         (seq 0 (Z.to_nat r)) |}
  else raiseE (ValueError "total size of new array must be unchanged").

(** A well-formed array has as many rows and columns as its shape says. *)
Definition wf_array (a : ndarray) : Prop :=
  0 <= fst (shape a) /\ 0 <= snd (shape a) /\
  Z.of_nat (length (items a)) = fst (shape a) /\
  Forall (fun row => Z.of_nat (length row) = snd (shape a)) (items a).

(** ** Reductions

    numpy is a library and is not part of src/.  The reductions below are
    those the script can name, on the flattened float64 sub-block.  They
    say what the description says of them (the ordinary reductions let a
    not-a-number propagate; the variants leave not-a-number values out,
    and an all-not-a-number input yields not-a-number; the standard
    deviation divides by the count) and follow, step by step, numpy 1.8,
    the release current at the script's date (2014-06; [nanmean] and
    [nanstd] exist since 1.8.0): numpy/core/_methods.py for [sum], [mean],
    [std], [amax], [amin] and numpy/lib/nanfunctions.py for the variants. *)

(** Modelled from the spec: the inner loops of numpy's comparison ufuncs,
    which are not under src/; [in1] is the accumulator.  [maximum] and
    [minimum] keep a not-a-number, [fmax] and [fmin] drop it. *)
Definition maximum (in1 in2 : float64) : float64 :=
  if greater_equal in1 in2 || isnan in1 then in1 else in2.
Definition minimum (in1 in2 : float64) : float64 :=
  if less_equal in1 in2 || isnan in1 then in1 else in2.
Definition fmax (in1 in2 : float64) : float64 :=
  if greater_equal in1 in2 || isnan in2 then in1 else in2.
Definition fmin (in1 in2 : float64) : float64 :=
  if less_equal in1 in2 || isnan in2 then in1 else in2.

(** Modelled from the spec: [ufunc.reduce] of numpy, not under src/, for a
    ufunc without identity: it starts from the first element and refuses
    an empty input. *)
Definition reduce (op : float64 -> float64 -> float64) (a : list float64)
  : E float64 :=
  match a with
  | [] => raiseE (ValueError "zero-size array to reduction operation which has no identity")
  | x :: rest => retE (fold_left op rest x)
  end.

(** Modelled from the spec: [numpy.add.reduce], not under src/: the sum
    in C order, starting from the identity 0.0. *)
Definition umr_sum (a : list float64) : float64 := fold_left add a zero.

Definition count (a : list float64) : Z := Z.of_nat (length a).

(** Modelled from the spec: [numpy.sum], [numpy.max], [numpy.min] and
    [numpy.mean], not under src/; a not-a-number value propagates. *)
Definition sum (a : list float64) : E float64 := retE (umr_sum a).
Definition amax (a : list float64) : E float64 := reduce maximum a.
Definition amin (a : list float64) : E float64 := reduce minimum a.
Definition mean (a : list float64) : E float64 :=
  retE (true_divide (umr_sum a) (of_int (count a))).

(** Modelled from the spec: numpy's [_var(a, ddof)], not under src/: the
    sum of the squared deviations from the mean, divided by
    [max(N - ddof, 0)]. *)
Definition var (a : list float64) (ddof : Z) : float64 :=
  let rcount := count a in
  let arrmean := true_divide (umr_sum a) (of_int rcount) in
  let x := map (fun v => subtract v arrmean) a in
  let x := map (fun v => multiply v v) x in
  let ret := umr_sum x in
  let rcount := Z.max (rcount - ddof) 0 in
  true_divide ret (of_int rcount).

(** Modelled from the spec: [numpy.std], not under src/.  The script
    passes no [ddof], whose default is 0. *)
Definition std_ddof (a : list float64) (ddof : Z) : E float64 :=
  retE (sqrt (var a ddof)).
Definition std (a : list float64) : E float64 := std_ddof a 0.

(** Modelled from the spec: numpy's [_replace_nan(a, 0)], not under src/:
    a copy with zeros for the not-a-number values, and the mask of their
    positions. *)
Definition replace_nan (a : list float64) : list float64 * list bool :=
  (map (fun v => if isnan v then zero else v) a, map isnan a).

(** [_copyto(arr, 0, mask)] *)
Fixpoint copyto_zero (arr : list float64) (mask : list bool) : list float64 :=
  match arr, mask with
  | v :: arr', m :: mask' => (if m then zero else v) :: copyto_zero arr' mask'
  | _, _ => arr
  end.

(** [numpy.sum(~mask)] *)
Definition count_valid (mask : list bool) : Z :=
  Z.of_nat (length (filter negb mask)).

(** Modelled from the spec: [numpy.nansum], [numpy.nanmax], [numpy.nanmin]
    and [numpy.nanmean], not under src/: the not-a-number values are left
    out, and the result is not-a-number when every value is one. *)
Definition nansum (a : list float64) : E float64 :=
  let '(arr, mask) := replace_nan a in
  let tot := umr_sum arr in
  retE (if forallb (fun m => m) mask then nan else tot).

Definition nanmax (a : list float64) : E float64 := reduce fmax a.
Definition nanmin (a : list float64) : E float64 := reduce fmin a.

Definition nanmean (a : list float64) : E float64 :=
  let '(arr, mask) := replace_nan a in
  let cnt := count_valid mask in
  let tot := umr_sum arr in
  retE (true_divide tot (of_int cnt)).

(** Modelled from the spec: [numpy.nanvar] and [numpy.nanstd], not under
    src/: the deviations of the values that are numbers, their squares
    summed and divided by [cnt - ddof], with [cnt] the count of those
    values. *)
Definition nanvar (a : list float64) (ddof : Z) : float64 :=
  let '(arr, mask) := replace_nan a in
  let cnt := count_valid mask in
  let avg := true_divide (umr_sum arr) (of_int cnt) in
  let arr := map (fun v => subtract v avg) arr in
  let arr := copyto_zero arr mask in
  let sqr := map (fun v => multiply v v) arr in
  let var := umr_sum sqr in
  let dof := cnt - ddof in
  let var := true_divide var (of_int dof) in
  if dof <=? 0 then nan else var.

Definition nanstd_ddof (a : list float64) (ddof : Z) : E float64 :=
  retE (sqrt (nanvar a ddof)).
Definition nanstd (a : list float64) : E float64 := nanstd_ddof a 0.

(** [getattr(numpy, name)], for the reductions above: what the name in
    the built statement resolves to. *)
Definition getattr (name : string) : E (list float64 -> E float64) :=
  if String.eqb name "max" then retE amax
  else if String.eqb name "min" then retE amin
  else if String.eqb name "mean" then retE mean
  else if String.eqb name "sum" then retE sum
  else if String.eqb name "std" then retE std
  else if String.eqb name "nanmax" then retE nanmax
  else if String.eqb name "nanmin" then retE nanmin
  else if String.eqb name "nanmean" then retE nanmean
  else if String.eqb name "nansum" then retE nansum
  else if String.eqb name "nanstd" then retE nanstd
  else raiseE (AttributeError name).

End Np.

(* ================================================================== *)
(** * GDAL: the raster source and sink *)
(* ================================================================== *)

Module Gdal.
Import Py Np.

(** A single-band raster: what the script reads from the input and what
    it leaves in the output.  The geotransform and the projection are
    copied through by the script and have no influence on any cell; they
    are left out. *)
Record Dataset := mk_Dataset {
  RasterXSize : Z;
  RasterYSize : Z;
  NoDataValue : option float64;
  pixels : list (list float64)
}.

(** The calls that reach the source or the sink. *)
Inductive event :=
| EvOpen
| EvCreate (xsize ysize : Z)
| EvReadAsArray (xoff yoff win_xsize win_ysize : Z)
| EvWriteArray (array : ndarray) (xoff yoff : Z).

(** The state threaded through a run: the I/O calls made so far, oldest
    first, and the output dataset once it is created. *)
Record world := mk_world {
  log : list event;
  outDataset : option Dataset
}.

Definition world0 : world := {| log := []; outDataset := None |}.

(** Stateful, fallible computations. *)
Definition M (A : Type) : Type := world -> world * E A.

Definition ret {A} (a : A) : M A := fun w => (w, inr a).
Definition raise {A} (e : exn) : M A := fun w => (w, inl e).
Definition bind {A B} (m : M A) (k : A -> M B) : M B :=
  fun w =>
    match m w with
    | (w', inl e) => (w', inl e)
    | (w', inr a) => k a w'
    end.
Definition liftE {A} (m : E A) : M A := fun w => (w, m).
Definition emit (ev : event) : M unit :=
  fun w => ({| log := log w ++ [ev]; outDataset := outDataset w |}, inr tt).

(** [for x in xs: body] *)
Fixpoint forM_ {A} (xs : list A) (body : A -> M unit) : M unit :=
  match xs with
  | [] => ret tt
  | x :: xs' => bind (body x) (fun _ => forM_ xs' body)
  end.

(** Modelled from the spec: [gdal.Open(inras, GA_ReadOnly)], not under
    src/: the source's metadata and band. *)
Definition Open (inras : Dataset) : M Dataset :=
  bind (emit EvOpen) (fun _ => ret inras).

(** Modelled from the spec: [driver.Create(outras, xsize, ysize, 1,
    GDT_Float32)] followed by [SetNoDataValue(ND)], not under src/: a
    raster of zeros of the sizes it is given.  The sink keeps the values it
    is handed; their narrowing to 32 bits is the file format's. *)
Definition Create (xsize ysize : Z) (ND : float64) : M unit :=
  fun w =>
    ({| log := log w ++ [EvCreate xsize ysize];
        outDataset := Some {| RasterXSize := xsize;
                              RasterYSize := ysize;
                              NoDataValue := Some ND;
                              pixels := repeat (repeat zero (Z.to_nat xsize))
                                               (Z.to_nat ysize) |} |},
     inr tt).

(** The cells of a window of the raster, as an array. *)
Definition window (ds : Dataset) (xoff yoff win_xsize win_ysize : Z) : ndarray :=
  {| shape := (win_ysize, win_xsize);
     items := map (slice xoff (xoff + win_xsize))
                  (slice yoff (yoff + win_ysize) (pixels ds)) |}.

(** Modelled from the spec: [band.ReadAsArray(xoff, yoff, win_xsize,
    win_ysize)], not under src/: the window as a row-major array. *)
Definition ReadAsArray (ds : Dataset) (xoff yoff win_xsize win_ysize : Z)
  : M ndarray :=
  bind (emit (EvReadAsArray xoff yoff win_xsize win_ysize)) (fun _ =>
  ret (window ds xoff yoff win_xsize win_ysize)).

(** One row of the window: [new] over [old] from column [off] on. *)
Definition overwrite (off : nat) (new old : list float64) : list float64 :=
  firstn off old ++ new ++ skipn (off + length new) old.

Fixpoint write_rows (xoff : nat) (new old : list (list float64))
  : list (list float64) :=
  match new, old with
  | n :: new', o :: old' => overwrite xoff n o :: write_rows xoff new' old'
  | _, _ => old
  end.

Definition write_window (xoff yoff : Z) (new old : list (list float64))
  : list (list float64) :=
  firstn (Z.to_nat yoff) old
    ++ write_rows (Z.to_nat xoff) new (skipn (Z.to_nat yoff) old).

(** Modelled from the spec: [band.WriteArray(array, xoff, yoff)], not under
    src/: refuses a window that leaves the raster, otherwise stores the
    array's cells at that offset. *)
Definition WriteArray (array : ndarray) (xoff yoff : Z) : M unit :=
  bind (emit (EvWriteArray array xoff yoff)) (fun _ w =>
  match outDataset w with
  | None => (w, inl (AttributeError "GetRasterBand"))
  | Some ds =>
      let '(ysize, xsize) := shape array in
      if (RasterXSize ds <? xsize + xoff) || (RasterYSize ds <? ysize + yoff)
      then (w, inl (ValueError "array larger than output file, or offset off edge"))
      else ({| log := log w;
               outDataset :=
                 Some {| RasterXSize := RasterXSize ds;
                         RasterYSize := RasterYSize ds;
                         NoDataValue := NoDataValue ds;
                         pixels := write_window xoff yoff (items array) (pixels ds) |} |},
            inr tt)
  end).

(** A well-formed raster has as many rows and columns as it declares. *)
Definition wf_dataset (ds : Dataset) : Prop :=
  0 <= RasterXSize ds /\ 0 <= RasterYSize ds /\
  Z.of_nat (length (pixels ds)) = RasterYSize ds /\
  Forall (fun row => Z.of_nat (length row) = RasterXSize ds) (pixels ds).

End Gdal.

Notation "x <- m ;; k" := (Gdal.bind m (fun x => k))
  (at level 61, m at next level, right associativity).
Notation "m ;;; k" := (Gdal.bind m (fun _ => k))
  (at level 61, right associativity).

(* ================================================================== *)
(** * aggregation.py *)
(* ================================================================== *)

Module Aggregation.
Import Py Np Gdal.

(** Line 26: the statistic's key and the numpy reduction it names. *)
Definition functions : list (string * string) :=
  [("MAX", "max"); ("MIN", "min"); ("AVG", "mean"); ("SUM", "sum"); ("STD", "std")].

(** [d[key]] *)
Fixpoint dict_get (d : list (string * string)) (key : string) : E string :=
  match d with
  | [] => raiseE (KeyError key)
  | (k, v) :: d' => if String.eqb k key then retE v else dict_get d' key
  end.

(** Lines 27-30. *)
Definition ign_of (prop_nodata : bool) : string :=
  if prop_nodata then "" else "nan".

(** Line 41: the NoData value taken when the band declares none,
    -3.4028234663852886e+38, that is -(2^24 - 1) * 2^104. *)
Definition default_ND : float64 := S754_finite true 9007198717870080 75.

(** Lines 44-49, for one axis. *)
Definition out_extent (expand : bool) (size cellfact : Z) : E Z :=
  r <-? mod_ size cellfact ;;
  if expand then floordiv (size + cellfact - r) cellfact
  else floordiv (size - r) cellfact.

(** Lines 63-66 and 68-71: the extent of the tile that starts at [i]. *)
Definition tile_extent (i blockSize size : Z) : Z :=
  if i + blockSize <? size then blockSize else size - i.

(** [numpy.empty((r, c))] filled with not-a-number (lines 81-82, 91-92). *)
Definition nan_block (r c : Z) : E ndarray :=
  if (r <? 0) || (c <? 0)
  then raiseE (ValueError "negative dimensions are not allowed")
  else retE (full r c nan).

(** Lines 78-85. *)
Definition expand_or_remove_rows (expand : bool) (cellfact numRows numCols : Z)
                                 (data : ndarray) : E ndarray :=
  r <-? mod_ numRows cellfact ;;
  if negb (r =? 0) then
    if expand then
      let diffRows := cellfact - r in
      addRows <-? nan_block diffRows numCols ;;
      retE (append0 data addRows)
    else retE (getrows 0 (- r) data)
  else retE data.

(** Lines 86-95. *)
Definition expand_or_remove_cols (expand : bool) (cellfact numCols : Z)
                                 (data : ndarray) : E ndarray :=
  let '(tmpRows, tmpCols) := shape data in
  r <-? mod_ numCols cellfact ;;
  if negb (r =? 0) then
    if expand then
      let diffCols := cellfact - r in
      addCols <-? nan_block tmpRows diffCols ;;
      retE (append1 data addCols)
    else retE (getcols 0 (- r) data)
  else retE data.

(** Lines 77-95: both axes, rows first. *)
Definition normalize (expand : bool) (cellfact numRows numCols : Z)
                     (data : ndarray) : E ndarray :=
  data <-? expand_or_remove_rows expand cellfact numRows numCols data ;;
  expand_or_remove_cols expand cellfact numCols data.

(** Lines 104-105: the statement built from [ign] and the statistic's
    key, run on one sub-block. *)
Definition exec_cmd (ign aggr_type : string) (block : ndarray) : E float64 :=
  fname <-? dict_get functions aggr_type ;;
  func <-? getattr (ign ++ fname)%string ;;
  func (ravel block).

(** Lines 100-107.  [aggr_array] starts empty and is appended to as a
    flat array, then takes its final shape. *)
Definition aggregation (cellfact : Z) (ign aggr_type : string) (data : ndarray)
  : E ndarray :=
  let '(nrows, ncols) := shape data in
  xs <-? range 0 nrows cellfact ;;
  aggr_array <-? foldE (fun aggr_array x =>
      ys <-? range 0 ncols cellfact ;;
      foldE (fun aggr_array y =>
          func <-? exec_cmd ign aggr_type
                     (getitem x (cellfact + x) y (cellfact + y) data) ;;
          retE (aggr_array ++ [func]))
        ys aggr_array)
    xs [] ;;
  outr <-? floordiv nrows cellfact ;;
  outc <-? floordiv ncols cellfact ;;
  reshape aggr_array outr outc.

(** Lines 73-110: what is done for the tile at row [i], column [j]. *)
Definition tile (dataset : Dataset) (ND : float64) (cellfact : Z)
                (aggr_type : string) (expand : bool) (ign : string)
                (i numRows j numCols : Z) : M unit :=
  array <- ReadAsArray dataset j i numCols numRows ;;
  let data := where_eq_nan array ND in
  data <- liftE (normalize expand cellfact numRows numCols data) ;;
  aggr_array <- liftE (aggregation cellfact ign aggr_type data) ;;
  xoff <- liftE (floordiv j cellfact) ;;
  yoff <- liftE (floordiv i cellfact) ;;
  WriteArray aggr_array xoff yoff.

(** Lines 24-112, with every argument bound. *)
Definition ras_aggregation_body (inras : Dataset) (cellfact : Z)
                                (aggr_type : string) (expand prop_nodata : bool)
  : M unit :=
  let ign := ign_of prop_nodata in
  dataset <- Open inras ;;
  let cols := RasterXSize dataset in
  let rows := RasterYSize dataset in
  let ND := match NoDataValue dataset with
            | None => default_ND
            | Some v => v
            end in
  outRows <- liftE (out_extent expand rows cellfact) ;;
  outCols <- liftE (out_extent expand cols cellfact) ;;
  Create outCols outRows ND ;;;
  let xBlockSize := 200 * cellfact in
  let yBlockSize := 200 * cellfact in
  is_ <- liftE (range 0 rows yBlockSize) ;;
  forM_ is_ (fun i =>
    let numRows := tile_extent i yBlockSize rows in
    js <- liftE (range 0 cols xBlockSize) ;;
    forM_ js (fun j =>
      let numCols := tile_extent j xBlockSize cols in
      tile dataset ND cellfact aggr_type expand ign i numRows j numCols)).

(** Line 23: [aggr_type], [expand] and [prop_nodata] are keyword
    arguments with defaults. *)
Definition ras_aggregation (inras : Dataset) (cellfact : Z)
                           (aggr_type : option string)
                           (expand prop_nodata : option bool) : M unit :=
  ras_aggregation_body inras cellfact
    (match aggr_type with Some a => a | None => "AVG" end)
    (match expand with Some e => e | None => true end)
    (match prop_nodata with Some p => p | None => true end).

(** ** The command line (lines 114-137) *)

(** What [parse_args] returns for the optional arguments. *)
Record Namespace := mk_Namespace {
  aggreg : string;
  exp : bool;
  nodata : bool
}.

(** The [default=] of lines 125, 128 and 131. *)
Definition defaults : Namespace :=
  {| aggreg := "AVG"; exp := false; nodata := false |}.

Definition choices : list string := ["MAX"; "MIN"; "AVG"; "SUM"; "STD"].

(** An optional argument that argparse finds on the command line, however
    it is spelled there (in full, by an unambiguous prefix, joined to its
    value, clustered with another flag): [-at] with its value, [-e],
    [-nd], and the [-h] that argparse adds to every parser. *)
Inductive optional :=
| opt_at (value : string)
| opt_e
| opt_nd
| opt_h.

Definition is_opt_e (o : optional) : bool :=
  match o with opt_e => true | _ => false end.

Definition is_opt_nd (o : optional) : bool :=
  match o with opt_nd => true | _ => false end.

(** Modelled from the spec: [parser.parse_args()] on the optional
    arguments that lines 125-132 declare, argparse not being under src/.
    The options are taken in the order they are found: [-at] stores its
    value when it is one of [choices=], [-e] and [-nd] store [True]
    ([action='store_true']); [None] is the exit of the program, on a value
    that is no choice and on [-h]. *)
Fixpoint parse_args (found : list optional) (ns : Namespace) : option Namespace :=
  match found with
  | [] => Some ns
  | opt_at c :: rest =>
      if existsb (String.eqb c) choices then
        parse_args rest {| aggreg := c; exp := exp ns; nodata := nodata ns |}
      else None
  | opt_e :: rest =>
      parse_args rest {| aggreg := aggreg ns; exp := true; nodata := nodata ns |}
  | opt_nd :: rest =>
      parse_args rest {| aggreg := aggreg ns; exp := exp ns; nodata := true |}
  | opt_h :: _ => None
  end.

(** Lines 134-137: the positional arguments are taken as already
    converted; the three keyword arguments are always passed. *)
Definition main (inraster : Dataset) (cellfactor : Z) (found : list optional)
  : option (M unit) :=
  match parse_args found defaults with
  | None => None
  | Some args =>
      Some (ras_aggregation inraster cellfactor
              (Some (aggreg args)) (Some (exp args)) (Some (nodata args)))
  end.

End Aggregation.


Import Py Np Gdal Aggregation.

(* ================================================================== *)
(** * Reference definitions and sample rasters *)
(* ================================================================== *)

(** [ceil(a / b)] and [floor(a / b)] on integers, for [b > 0]. *)
Definition ceil_div (a b : Z) : Z := - ((- a) / b).
Definition floor_div (a b : Z) : Z := a / b.

(** A raster that declares no NoData value, from integer cell values. *)
Definition raster_of (cells : list (list Z)) : Dataset :=
  {| RasterXSize := Z.of_nat (length (hd [] cells));
     RasterYSize := Z.of_nat (length cells);
     NoDataValue := None;
     pixels := map (map of_int) cells |}.

(** The 4x4 raster of the values 1..16 in row-major order. *)
Definition grid_1_16 : Dataset :=
  raster_of [[1; 2; 3; 4]; [5; 6; 7; 8]; [9; 10; 11; 12]; [13; 14; 15; 16]].

(** A 2x2 raster whose NoData value is 0 and whose cells are all NoData. *)
Definition grid_all_nodata : Dataset :=
  {| RasterXSize := 2; RasterYSize := 2;
     NoDataValue := Some zero;
     pixels := [[zero; zero]; [zero; zero]] |}.

(** The list without its last [k] elements. *)
Definition drop_last {A} (k : Z) (l : list A) : list A :=
  rev (skipn (Z.to_nat k) (rev l)).

(** The edge rule in the words of the description, for rows: when the row
    count is not a multiple of the factor, append
    [factor - numRows mod factor] rows of not-a-number markers (expand), or
    drop the last [numRows mod factor] rows (shrink). *)
Definition edge_rows_rule (expand : bool) (factor numRows numCols : Z)
                          (buffer : list (list float64)) : list (list float64) :=
  if numRows mod factor =? 0 then buffer
  else if expand then
    buffer ++ repeat (repeat nan (Z.to_nat numCols))
                     (Z.to_nat (factor - numRows mod factor))
  else drop_last (numRows mod factor) buffer.

(** The same rule for columns, applied to every row of the buffer. *)
Definition edge_cols_rule (expand : bool) (factor numCols : Z)
                          (buffer : list (list float64)) : list (list float64) :=
  if numCols mod factor =? 0 then buffer
  else if expand then
    map (fun row => row ++ repeat nan (Z.to_nat (factor - numCols mod factor))) buffer
  else map (drop_last (numCols mod factor)) buffer.

(** The extent of an axis after the edge rule. *)
Definition edge_extent (expand : bool) (factor size : Z) : Z :=
  if size mod factor =? 0 then size
  else if expand then size + (factor - size mod factor)
  else size - size mod factor.

(** A 3x3 tile of the values 1..9. *)
Definition tile_3x3 : ndarray :=
  {| shape := (3, 3);
     items := map (map of_int) [[1; 2; 3]; [4; 5; 6]; [7; 8; 9]] |}.

(** A raster of 401 rows and 2 columns: with factor 2 its second tile is a
    single row. *)
Definition grid_401x2 : Dataset := raster_of (repeat [1; 2] 401).

(** A raster of a single row of three cells. *)
Definition grid_1x3 : Dataset := raster_of [[1; 2; 3]].

(** The ordinary statistic of a key over a sequence of cells. *)
Definition statistic_over (aggr_type : string) (cells : list float64) : E float64 :=
  fname <-? dict_get functions aggr_type ;;
  func <-? getattr fname ;;
  func cells.

(** The NoData law in the words of the description: a sub-block of NoData
    cells only gives NoData; a sub-block with some NoData cell gives NoData
    when NoData is propagated; otherwise the result is the statistic over
    the cells that are not NoData. *)
Definition nodata_law (propagateNoData : bool) (aggr_type : string)
                      (cells : list float64) : E float64 :=
  if forallb isnan cells then retE nan
  else if existsb isnan cells && propagateNoData then retE nan
  else statistic_over aggr_type (filter notnan cells).

(** The standard deviation of [values] with divisor [N - ddof]: the
    population standard deviation for [ddof = 0], the sample one for
    [ddof = 1]. *)
Definition std_with_divisor (ddof : Z) (values : list float64) : float64 :=
  let N := Z.of_nat (length values) in
  let mu := true_divide (umr_sum values) (of_int N) in
  let squares := map (fun v => multiply (subtract v mu) (subtract v mu)) values in
  sqrt (true_divide (umr_sum squares) (of_int (N - ddof))).

Definition population_std : list float64 -> float64 := std_with_divisor 0.
Definition sample_std : list float64 -> float64 := std_with_divisor 1.

(** The values that enter the statistic of a sub-block. *)
Definition entering (propagateNoData : bool) (cells : list float64) : list float64 :=
  if propagateNoData then cells else filter notnan cells.

(** A 2x2 sub-block with one not-a-number cell. *)
Definition block_one_nan : ndarray :=
  {| shape := (2, 2); items := [[of_int 1; nan]; [of_int 3; of_int 4]] |}.

(** The 2x2 sub-block [[1, 3], [1, 3]]. *)
Definition block_1_3 : ndarray :=
  {| shape := (2, 2); items := [[of_int 1; of_int 3]; [of_int 1; of_int 3]] |}.

(** The pixels of the output raster at the end of a run. *)
Definition out_pixels (r : world * E unit) : option (list (list float64)) :=
  match outDataset (fst r) with
  | Some ds => Some (pixels ds)
  | None => None
  end.

(** The arrays handed to [WriteArray] during a run. *)
Definition written (w : world) : list ndarray :=
  flat_map (fun ev => match ev with
                      | EvWriteArray a _ _ => [a]
                      | _ => []
                      end) (log w).

(* ================================================================== *)
(** * Reference definitions for the tiling and for whole runs *)
(* ================================================================== *)

(** The tiles of one axis (lines 60-71), in the order of the loop: the
    offset of each tile and its extent. *)
Definition axis_tiles (size cellfact : Z) : list (Z * Z) :=
  match range 0 size (200 * cellfact) with
  | inr starts => map (fun i => (i, tile_extent i (200 * cellfact) size)) starts
  | inl _ => []
  end.

(** The intervals [start, start + extent) follow one another from [from]
    to [to], without gap or overlap. *)
Fixpoint partitions (from : Z) (tiles : list (Z * Z)) (to : Z) : Prop :=
  match tiles with
  | [] => from = to
  | (start, extent) :: rest =>
      start = from /\ 0 <= extent /\ partitions (start + extent) rest to
  end.

(** Where a tile lands in the output (lines 107 and 110): its offset and
    its extent there. *)
Definition out_tile (expand : bool) (cellfact : Z) (tile : Z * Z) : Z * Z :=
  (fst tile / cellfact, edge_extent expand cellfact (snd tile) / cellfact).

(** The scalar of the sub-block of [data] whose first cell is at row [x]
    and column [y] (lines 104-105); not-a-number stands for a statement
    that raised. *)
Definition block_value (cellfact : Z) (ign aggr_type : string) (data : ndarray)
                       (x y : Z) : float64 :=
  match exec_cmd ign aggr_type (getitem x (cellfact + x) y (cellfact + y) data) with
  | inr v => v
  | inl _ => nan
  end.

(** The aggregated tile cell by cell: the cell at row [r] and column [c] is
    the scalar of the sub-block that starts at row [r * cellfact] and
    column [c * cellfact]. *)
Definition aggregated (cellfact : Z) (ign aggr_type : string) (data : ndarray)
  : ndarray :=
  {| shape := (fst (shape data) / cellfact, snd (shape data) / cellfact);
     items :=
       map (fun r =>
              map (fun c =>
                     block_value cellfact ign aggr_type data
                       (Z.of_nat r * cellfact) (Z.of_nat c * cellfact))
                  (seq 0 (Z.to_nat (snd (shape data) / cellfact))))
           (seq 0 (Z.to_nat (fst (shape data) / cellfact))) |}.

(** The NoData value of a run (lines 39-41). *)
Definition nodata_of (dataset : Dataset) : float64 :=
  match NoDataValue dataset with
  | None => default_ND
  | Some v => v
  end.

(** The working buffer of the tile that spans the rows [ti] and the columns
    [tj] (lines 74-95), both given as offset and extent. *)
Definition normalized_tile (dataset : Dataset) (expand : bool) (cellfact : Z)
                           (ti tj : Z * Z) : ndarray :=
  match normalize expand cellfact (snd ti) (snd tj)
          (where_eq_nan (window dataset (fst tj) (fst ti) (snd tj) (snd ti))
                        (nodata_of dataset)) with
  | inr data => data
  | inl _ => {| shape := (0, 0); items := [] |}
  end.

(** The two I/O calls of that tile: its read, and the write of its
    aggregated array at the tile's offset divided by the factor. *)
Definition tile_events (dataset : Dataset) (cellfact : Z) (aggr_type : string)
                       (expand : bool) (ign : string) (ti tj : Z * Z)
  : list event :=
  [EvReadAsArray (fst tj) (fst ti) (snd tj) (snd ti);
   EvWriteArray
     (aggregated cellfact ign aggr_type
        (normalized_tile dataset expand cellfact ti tj))
     (fst tj / cellfact) (fst ti / cellfact)].

(** The I/O calls of all the tiles, rows of tiles first. *)
Definition all_tile_events (dataset : Dataset) (cellfact : Z) (aggr_type : string)
                           (expand : bool) (ign : string) : list event :=
  flat_map (fun ti =>
    flat_map (fun tj => tile_events dataset cellfact aggr_type expand ign ti tj)
             (axis_tiles (RasterXSize dataset) cellfact))
    (axis_tiles (RasterYSize dataset) cellfact).

(** The cells of a raster after the writes among [events], in order. *)
Definition replay (events : list event) (cells : list (list float64))
  : list (list float64) :=
  fold_left (fun px ev =>
               match ev with
               | EvWriteArray array xoff yoff => write_window xoff yoff (items array) px
               | _ => px
               end) events cells.

(** The world after I/O calls that were all accepted. *)
Definition apply_events (events : list event) (w : world) : world :=
  {| log := log w ++ events;
     outDataset :=
       match outDataset w with
       | Some out =>
           Some {| RasterXSize := RasterXSize out;
                   RasterYSize := RasterYSize out;
                   NoDataValue := NoDataValue out;
                   pixels := replay events (pixels out) |}
       | None => None
       end |}.

(** The extent of an output axis as lines 44-49 compute it, for a factor
    that is not 0. *)
Definition out_size (expand : bool) (size cellfact : Z) : Z :=
  if expand then size / cellfact + 1 else size / cellfact.

(** What a pass of the loops knows of its tile: it lies inside the raster,
    its extent is the one lines 63-66 compute, and its aggregated array
    fits in the output. *)
Definition tile_fits (expand : bool) (size cellfact : Z) (t : Z * Z) : Prop :=
  0 <= fst t /\ 0 <= snd t /\ fst t + snd t <= size /\
  tile_extent (fst t) (200 * cellfact) size = snd t /\
  fst t / cellfact + edge_extent expand cellfact (snd t) / cellfact
    <= out_size expand size cellfact.

(** The world once the source is opened and the output created (lines
    33-57). *)
Definition world_created (dataset : Dataset) (expand : bool) (cellfact : Z) : world :=
  let outCols := out_size expand (RasterXSize dataset) cellfact in
  let outRows := out_size expand (RasterYSize dataset) cellfact in
  {| log := [EvOpen; EvCreate outCols outRows];
     outDataset :=
       Some {| RasterXSize := outCols;
               RasterYSize := outRows;
               NoDataValue := Some (nodata_of dataset);
               pixels := repeat (repeat zero (Z.to_nat outCols)) (Z.to_nat outRows) |} |}.

(** The output raster has the extents lines 44-49 computed. *)
Definition output_created (dataset : Dataset) (expand : bool) (cellfact : Z)
                          (w : world) : Prop :=
  exists out,
    outDataset w = Some out /\
    RasterXSize out = out_size expand (RasterXSize dataset) cellfact /\
    RasterYSize out = out_size expand (RasterYSize dataset) cellfact.

(** The whole band with its NoData cells as not-a-number (line 75). *)
Definition marked (dataset : Dataset) : ndarray :=
  where_eq_nan {| shape := (RasterYSize dataset, RasterXSize dataset);
                  items := pixels dataset |}
               (nodata_of dataset).

(** A 3x3 tile that agrees with [tile_3x3] on its first two rows and
    columns only. *)
Definition tile_3x3_other : ndarray :=
  {| shape := (3, 3);
     items := map (map of_int) [[1; 2; 0]; [4; 5; 0]; [0; 0; 0]] |}.

(** A cell that is a number and is not the NoData value [ND]. *)
Definition plain_cell (ND : float64) (v : float64) : Prop :=
  isnan v = false /\ equal v ND = false.

(** What line 75 makes of a cell: not-a-number if it equals the NoData
    value, the cell itself otherwise. *)
Definition mark (ND v : float64) : float64 := if equal v ND then nan else v.

(** The band of a raster, as one array. *)
Definition band_array (dataset : Dataset) : ndarray :=
  {| shape := (RasterYSize dataset, RasterXSize dataset);
     items := pixels dataset |}.

(** The statistic that the description gives to each of the five names,
    on a sequence of cells. *)
Definition named_statistic (aggr_type : string) (cells : list float64) : E float64 :=
  if String.eqb aggr_type "MAX" then amax cells
  else if String.eqb aggr_type "MIN" then amin cells
  else if String.eqb aggr_type "AVG" then mean cells
  else if String.eqb aggr_type "SUM" then sum cells
  else if String.eqb aggr_type "STD" then std cells
  else raiseE (KeyError aggr_type).

(** The NoData law of the description on the cells of a sub-block as they
    are in the band, [ND] being the NoData value of the band: [marker] is
    the output cell where the law says NoData (a sub-block of NoData cells
    only, or with some NoData cell when NoData is propagated); otherwise
    the output cell is the statistic over the cells that are not NoData. *)
Definition nodata_law_on (ND marker : float64) (propagateNoData : bool)
                         (aggr_type : string) (cells : list float64) : E float64 :=
  if forallb (fun v => equal v ND) cells then retE marker
  else if existsb (fun v => equal v ND) cells && propagateNoData then retE marker
  else named_statistic aggr_type (filter (fun v => negb (equal v ND)) cells).

(** A 2x2 raster whose NoData value is 0, with one NoData cell. *)
Definition grid_one_nodata : Dataset :=
  {| RasterXSize := 2; RasterYSize := 2;
     NoDataValue := Some zero;
     pixels := [[zero; of_int 1]; [of_int 2; of_int 3]] |}.

(* ================================================================== *)
(** * Output extent (lines 44-49) *)
(* ================================================================== *)

Lemma ceil_div_exact (a b : Z) :
  0 < b -> a mod b = 0 -> ceil_div a b = a / b.
Proof.
  intros Hb Hm. unfold ceil_div.
  apply Z.div_exact in Hm; [| lia].
  remember (a / b) as q eqn:Hq.
  rewrite Hm.
  replace (- (b * q)) with ((- q) * b) by ring.
  rewrite Z.div_mul by lia. lia.
Qed.

(** In shrink mode the extent is [floor(size / cellfact)]. *)
Lemma out_extent_shrink (size cellfact : Z) :
  0 < cellfact ->
  out_extent false size cellfact = retE (floor_div size cellfact).
Proof.
  intros Hc. unfold out_extent, mod_, floordiv, floor_div, bindE, retE.
  replace (cellfact =? 0) with false by (symmetry; apply Z.eqb_neq; lia).
  f_equal.
  rewrite (Z.div_mod size cellfact) at 1 by lia.
  replace (cellfact * (size / cellfact) + size mod cellfact - size mod cellfact)
    with ((size / cellfact) * cellfact) by ring.
  apply Z.div_mul. lia.
Qed.

(** In expand mode the extent is always [floor(size / cellfact) + 1]. *)
Lemma out_extent_expand (size cellfact : Z) :
  0 < cellfact ->
  out_extent true size cellfact = retE (size / cellfact + 1).
Proof.
  intros Hc. unfold out_extent, mod_, floordiv, bindE, retE.
  replace (cellfact =? 0) with false by (symmetry; apply Z.eqb_neq; lia).
  f_equal.
  rewrite (Z.div_mod size cellfact) at 1 by lia.
  replace (cellfact * (size / cellfact) + size mod cellfact + cellfact - size mod cellfact)
    with ((size / cellfact + 1) * cellfact) by ring.
  apply Z.div_mul. lia.
Qed.

(** That is [ceil(size / cellfact)] when [size] is not a multiple. *)
Lemma out_extent_expand_inexact (size cellfact : Z) :
  0 < cellfact -> size mod cellfact <> 0 ->
  out_extent true size cellfact = retE (ceil_div size cellfact).
Proof.
  intros Hc Hm. rewrite out_extent_expand by lia. f_equal.
  unfold ceil_div.
  pose proof (Z.mod_pos_bound size cellfact Hc) as Hb.
  pose proof (Z.div_mod size cellfact ltac:(lia)) as Hd.
  remember (size / cellfact) as q eqn:Hq.
  remember (size mod cellfact) as m eqn:Hr.
  symmetry.
  assert (H : - size = (- q - 1) * cellfact + (cellfact - m)) by (rewrite Hd; ring).
  rewrite H. rewrite Z.div_add_l by lia.
  rewrite Z.div_small by lia. lia.
Qed.

(** C1. In expand mode, a size that is an exact multiple of the factor gets
    one output row (column) more than [size / cellfact], which is what
    [ceil(size / cellfact)] and the shrink mode give: the two modes do not
    agree on exact multiples. *)
Theorem out_extent_expand_exact_multiple (size cellfact : Z) :
  0 < cellfact -> size mod cellfact = 0 ->
  out_extent true size cellfact = retE (size / cellfact + 1) /\
  ceil_div size cellfact = size / cellfact /\
  out_extent false size cellfact = retE (size / cellfact).
Proof.
  intros Hc Hm. split; [| split].
  - apply out_extent_expand; assumption.
  - apply ceil_div_exact; assumption.
  - apply out_extent_shrink; assumption.
Qed.

Lemma out_extent_expand_exact_multiple_witness :
  out_extent true 4 2 = retE 3 /\ ceil_div 4 2 = 2 /\ out_extent false 4 2 = retE 2.
Proof.
  apply (out_extent_expand_exact_multiple 4 2); [lia | reflexivity].
Defined.

(* ================================================================== *)
(** * Concrete runs *)
(* ================================================================== *)

(** C5. On the 4x4 raster of 1..16, with factor 2, statistic SUM and shrink
    mode, the run succeeds and leaves the 2x2 raster [[14, 22], [46, 54]],
    whichever NoData policy is chosen. *)
Theorem sum_4x4_by_2 (prop_nodata : bool) :
  let r := ras_aggregation grid_1_16 2 (Some "SUM") (Some false) (Some prop_nodata) world0 in
  snd r = inr tt /\
  out_pixels r = Some (map (map of_int) [[14; 22]; [46; 54]]).
Proof.
  destruct prop_nodata; vm_compute; split; reflexivity.
Qed.

(** C2. On a 2x2 raster made of NoData cells only, the tile that is written
    holds a not-a-number, and so does the output raster, whose declared
    NoData value is the input's: nothing converts the not-a-number back. *)
Theorem nan_is_written_as_is :
  let r := ras_aggregation grid_all_nodata 2 (Some "AVG") (Some false) (Some true) world0 in
  snd r = inr tt /\
  written (fst r) = [{| shape := (1, 1); items := [[nan]] |}] /\
  out_pixels r = Some [[nan]] /\
  option_map NoDataValue (outDataset (fst r)) = Some (Some zero).
Proof.
  vm_compute. repeat split; reflexivity.
Qed.

(* ================================================================== *)
(** * Keyword defaults and the command line (lines 23, 114-137) *)
(* ================================================================== *)

(** The two flags of a parsed command line are set exactly when their
    option is found on it. *)
Lemma parse_args_flags (found : list optional) (ns args : Namespace) :
  parse_args found ns = Some args ->
  exp args = exp ns || existsb is_opt_e found /\
  nodata args = nodata ns || existsb is_opt_nd found.
Proof.
  revert ns. induction found as [| o rest IH]; intros ns H.
  - simpl in H. injection H as <-. simpl. now rewrite !orb_false_r.
  - destruct o as [c | | |]; cbn [parse_args] in H.
    + destruct (existsb (String.eqb c) choices); [| discriminate].
      apply IH in H. exact H.
    + apply IH in H. simpl in *. destruct H as [H1 H2]. split.
      * rewrite H1. now rewrite orb_true_r.
      * exact H2.
    + apply IH in H. simpl in *. destruct H as [H1 H2]. split.
      * exact H1.
      * rewrite H2. now rewrite orb_true_r.
    + discriminate.
Qed.

(** C9. Called without [expand] and [prop_nodata], [ras_aggregation] runs
    with both set to true.  The command line never relies on these
    defaults: it passes the statistic and both flags, each flag being true
    exactly when its option is given, so that a command line without
    options runs in shrink mode and ignores NoData; and the two sets of
    defaults give different outputs on the raster of 1..16 with factor 3. *)
Theorem keyword_defaults_and_command_line (inras : Dataset) (cellfact : Z) :
  (forall aggr_type,
     ras_aggregation inras cellfact aggr_type None None
     = ras_aggregation_body inras cellfact
         (match aggr_type with Some a => a | None => "AVG" end) true true) /\
  main inras cellfact []
  = Some (ras_aggregation_body inras cellfact "AVG" false false) /\
  (forall found,
     main inras cellfact found
     = option_map (fun args =>
         ras_aggregation inras cellfact (Some (aggreg args))
           (Some (existsb is_opt_e found))
           (Some (existsb is_opt_nd found)))
         (parse_args found defaults)) /\
  (exists run, main grid_1_16 3 [] = Some run /\
     out_pixels (run world0)
     <> out_pixels (ras_aggregation grid_1_16 3 None None None world0)).
Proof.
  split; [| split; [| split]].
  - intros aggr_type. reflexivity.
  - reflexivity.
  - intros found. unfold main.
    destruct (parse_args found defaults) as [args |] eqn:Hp; [| reflexivity].
    destruct (parse_args_flags found _ _ Hp) as [H1 H2].
    simpl in H1, H2. simpl. now rewrite H1, H2.
  - eexists. split; [reflexivity |]. vm_compute. discriminate.
Qed.

(* ================================================================== *)
(** * Edge normalization (lines 77-95) *)
(* ================================================================== *)

Lemma Forall_firstn {A} (P : A -> Prop) (n : nat) (l : list A) :
  Forall P l -> Forall P (firstn n l).
Proof.
  intros H. revert n. induction H as [| x l Hx Hl IH]; intros [| n]; simpl;
    constructor; auto.
Qed.

Lemma Forall_skipn {A} (P : A -> Prop) (n : nat) (l : list A) :
  Forall P l -> Forall P (skipn n l).
Proof.
  intros H. revert n. induction H as [| x l Hx Hl IH]; intros [| n]; simpl;
    auto.
Qed.

Lemma drop_last_firstn {A} (k : Z) (l : list A) :
  drop_last k l = firstn (length l - Z.to_nat k) l.
Proof.
  unfold drop_last. rewrite skipn_rev. apply rev_involutive.
Qed.

(** [l[0:-k]] drops the last [k] elements, for [0 < k]. *)
Lemma slice_0_neg {A} (k : Z) (l : list A) :
  0 < k -> slice 0 (- k) l = drop_last k l.
Proof.
  intros Hk. rewrite drop_last_firstn.
  unfold slice, slice_len, clip.
  replace (0 <? 0) with false by reflexivity.
  replace (- k <? 0) with true by (symmetry; apply Z.ltb_lt; lia).
  replace (Z.to_nat (Z.min 0 (Z.of_nat (length l)))) with 0%nat by lia.
  simpl skipn. f_equal. lia.
Qed.

Lemma slice_len_0_neg (n k : Z) :
  0 < k -> k <= n -> slice_len n 0 (- k) = n - k.
Proof.
  intros Hk Hn. unfold slice_len, clip.
  replace (0 <? 0) with false by reflexivity.
  replace (- k <? 0) with true by (symmetry; apply Z.ltb_lt; lia).
  lia.
Qed.

Lemma zip_app_repeat (rows : list (list float64)) (pad : list float64) (n : nat) :
  length rows = n ->
  zip_app rows (repeat pad n) = map (fun row => row ++ pad) rows.
Proof.
  revert n. induction rows as [| row rows IH]; intros n Hn.
  - reflexivity.
  - destruct n as [| n]; [discriminate |]. simpl.
    f_equal. apply IH. now injection Hn.
Qed.

Lemma edge_extent_multiple (expand : bool) (factor size : Z) :
  0 < factor -> edge_extent expand factor size mod factor = 0.
Proof.
  intros Hf. unfold edge_extent.
  destruct (size mod factor =? 0) eqn:Hm.
  - now apply Z.eqb_eq.
  - pose proof (Z.div_mod size factor ltac:(lia)) as Hd.
    remember (size / factor) as q. remember (size mod factor) as m.
    destruct expand.
    + replace (size + (factor - m)) with ((q + 1) * factor) by (rewrite Hd; ring).
      apply Z.mod_mul; lia.
    + replace (size - m) with (q * factor) by (rewrite Hd; ring).
      apply Z.mod_mul; lia.
Qed.

Lemma edge_extent_nonneg (expand : bool) (factor size : Z) :
  0 < factor -> 0 <= size -> 0 <= edge_extent expand factor size.
Proof.
  intros Hf Hs. unfold edge_extent.
  pose proof (Z.mod_pos_bound size factor Hf).
  pose proof (Z.mod_le size factor Hs Hf).
  destruct (size mod factor =? 0), expand; lia.
Qed.

(** Lines 78-85 follow the row rule. *)
Lemma expand_or_remove_rows_rule (expand : bool) (cellfact numRows numCols : Z)
                                 (data : ndarray) :
  0 < cellfact -> wf_array data -> shape data = (numRows, numCols) ->
  exists out,
    expand_or_remove_rows expand cellfact numRows numCols data = retE out /\
    items out = edge_rows_rule expand cellfact numRows numCols (items data) /\
    shape out = (edge_extent expand cellfact numRows, numCols) /\
    wf_array out.
Proof.
  intros Hf (Hr & Hc & Hlen & Hrows) Hs.
  rewrite Hs in Hr, Hc, Hlen, Hrows. simpl in Hr, Hc, Hlen, Hrows.
  unfold expand_or_remove_rows, edge_rows_rule, edge_extent, mod_, bindE, retE.
  replace (cellfact =? 0) with false by (symmetry; apply Z.eqb_neq; lia).
  pose proof (Z.mod_pos_bound numRows cellfact Hf) as Hb.
  pose proof (Z.mod_le numRows cellfact Hr Hf) as Hle.
  destruct (numRows mod cellfact =? 0) eqn:Hm; simpl negb; cbv iota.
  - exists data. repeat split; try assumption; rewrite Hs; simpl; assumption.
  - apply Z.eqb_neq in Hm. destruct expand.
    + unfold nan_block.
      replace ((cellfact - numRows mod cellfact <? 0) || (numCols <? 0)) with false
        by (symmetry; apply orb_false_iff; split; apply Z.ltb_ge; lia).
      eexists. split; [reflexivity |].
      unfold append0, full, wf_array; rewrite Hs; simpl.
      repeat split; try lia.
      * rewrite length_app, repeat_length. lia.
      * apply Forall_app. split; [assumption |].
        apply Forall_forall. intros row Hin. apply repeat_spec in Hin. subst row.
        rewrite repeat_length. lia.
    + eexists. split; [reflexivity |].
      unfold getrows, wf_array; rewrite Hs; simpl.
      rewrite slice_0_neg by lia. rewrite slice_len_0_neg by lia.
      repeat split; try lia.
      * rewrite drop_last_firstn, length_firstn. lia.
      * rewrite drop_last_firstn. now apply Forall_firstn.
Qed.

(** Lines 86-95 follow the column rule. *)
Lemma expand_or_remove_cols_rule (expand : bool) (cellfact tmpRows numCols : Z)
                                 (data : ndarray) :
  0 < cellfact -> wf_array data -> shape data = (tmpRows, numCols) ->
  exists out,
    expand_or_remove_cols expand cellfact numCols data = retE out /\
    items out = edge_cols_rule expand cellfact numCols (items data) /\
    shape out = (tmpRows, edge_extent expand cellfact numCols) /\
    wf_array out.
Proof.
  intros Hf (Hr & Hc & Hlen & Hrows) Hs.
  rewrite Hs in Hr, Hc, Hlen, Hrows. simpl in Hr, Hc, Hlen, Hrows.
  unfold expand_or_remove_cols, edge_cols_rule, edge_extent, mod_, bindE, retE.
  rewrite Hs.
  replace (cellfact =? 0) with false by (symmetry; apply Z.eqb_neq; lia).
  pose proof (Z.mod_pos_bound numCols cellfact Hf) as Hb.
  pose proof (Z.mod_le numCols cellfact Hc Hf) as Hle.
  destruct (numCols mod cellfact =? 0) eqn:Hm; simpl negb; cbv iota.
  - exists data. repeat split; try assumption; rewrite Hs; simpl; assumption.
  - apply Z.eqb_neq in Hm. destruct expand.
    + unfold nan_block.
      replace ((tmpRows <? 0) || (cellfact - numCols mod cellfact <? 0)) with false
        by (symmetry; apply orb_false_iff; split; apply Z.ltb_ge; lia).
      eexists. split; [reflexivity |].
      unfold append1, full, wf_array; rewrite Hs; simpl.
      rewrite zip_app_repeat by lia.
      repeat split; try lia.
      * rewrite length_map. lia.
      * apply Forall_map. eapply Forall_impl; [| exact Hrows].
        intros row Hrow. simpl in *. rewrite length_app, repeat_length. lia.
    + eexists. split; [reflexivity |].
      unfold getcols, wf_array; rewrite Hs; simpl.
      rewrite slice_len_0_neg by lia.
      split.
      * apply map_ext. intros row. apply slice_0_neg. lia.
      * repeat split; try lia.
        -- rewrite length_map. lia.
        -- apply Forall_map. eapply Forall_impl; [| exact Hrows].
           intros row Hrow. simpl in *.
           rewrite slice_0_neg by lia.
           rewrite drop_last_firstn, length_firstn. lia.
Qed.

(** C6. On a tile of [numRows] by [numCols] cells, the normalization
    succeeds; its rows are the tile's rows put through the row rule (append
    [cellfact - numRows mod cellfact] rows of not-a-number in expand mode,
    drop the last [numRows mod cellfact] rows in shrink mode, when the
    remainder is not zero), then through the same rule for columns; and both
    extents of the result are multiples of the factor. *)
Theorem normalize_edge_rule (expand : bool) (cellfact numRows numCols : Z)
                            (data : ndarray) :
  0 < cellfact -> wf_array data -> shape data = (numRows, numCols) ->
  exists out,
    normalize expand cellfact numRows numCols data = retE out /\
    items out
    = edge_cols_rule expand cellfact numCols
        (edge_rows_rule expand cellfact numRows numCols (items data)) /\
    shape out = (edge_extent expand cellfact numRows,
                 edge_extent expand cellfact numCols) /\
    wf_array out /\
    fst (shape out) mod cellfact = 0 /\
    snd (shape out) mod cellfact = 0.
Proof.
  intros Hf Hwf Hs.
  destruct (expand_or_remove_rows_rule expand cellfact numRows numCols data Hf Hwf Hs)
    as (d1 & E1 & I1 & S1 & W1).
  destruct (expand_or_remove_cols_rule expand cellfact _ numCols d1 Hf W1 S1)
    as (d2 & E2 & I2 & S2 & W2).
  exists d2. unfold normalize. rewrite E1. simpl. rewrite E2.
  split; [reflexivity |]. split; [now rewrite I2, I1 |].
  split; [assumption |]. split; [assumption |].
  rewrite S2. simpl. split; apply edge_extent_multiple; assumption.
Qed.

Lemma tile_3x3_wf : wf_array tile_3x3.
Proof.
  unfold wf_array, tile_3x3; simpl.
  repeat split; try lia. repeat constructor.
Qed.

Lemma normalize_edge_rule_witness :
  exists out,
    normalize true 2 3 3 tile_3x3 = retE out /\
    items out
    = edge_cols_rule true 2 3 (edge_rows_rule true 2 3 3 (items tile_3x3)) /\
    shape out = (edge_extent true 2 3, edge_extent true 2 3) /\
    wf_array out /\
    fst (shape out) mod 2 = 0 /\
    snd (shape out) mod 2 = 0.
Proof.
  apply (normalize_edge_rule true 2 3 3 tile_3x3);
    [lia | exact tile_3x3_wf | reflexivity].
Defined.

(* ================================================================== *)
(** * Tiles read from the source *)
(* ================================================================== *)

Lemma length_slice {A} (a b : Z) (l : list A) :
  0 <= a -> a <= b -> b <= Z.of_nat (length l) ->
  Z.of_nat (length (slice a b l)) = b - a.
Proof.
  intros Ha Hab Hb. unfold slice, slice_len, clip.
  replace (a <? 0) with false by (symmetry; apply Z.ltb_ge; lia).
  replace (b <? 0) with false by (symmetry; apply Z.ltb_ge; lia).
  rewrite length_firstn, length_skipn. lia.
Qed.

Lemma ReadAsArray_run (ds : Dataset) (xoff yoff win_xsize win_ysize : Z) (w : world) :
  ReadAsArray ds xoff yoff win_xsize win_ysize w
  = ({| log := log w ++ [EvReadAsArray xoff yoff win_xsize win_ysize];
        outDataset := outDataset w |},
     inr (window ds xoff yoff win_xsize win_ysize)).
Proof. reflexivity. Qed.

Lemma window_wf (ds : Dataset) (xoff yoff win_xsize win_ysize : Z) :
  wf_dataset ds ->
  0 <= xoff -> 0 <= yoff -> 0 <= win_xsize -> 0 <= win_ysize ->
  xoff + win_xsize <= RasterXSize ds -> yoff + win_ysize <= RasterYSize ds ->
  wf_array (window ds xoff yoff win_xsize win_ysize).
Proof.
  intros (Hx & Hy & Hlen & Hrows) Hxo Hyo Hxs Hys Hxb Hyb.
  unfold wf_array, window; simpl.
  repeat split; try lia.
  - rewrite length_map, length_slice by lia. lia.
  - apply Forall_map. unfold slice at 2.
    apply Forall_firstn, Forall_skipn.
    eapply Forall_impl; [| exact Hrows].
    intros row Hrow. simpl in *. rewrite length_slice by lia. lia.
Qed.

Lemma where_eq_nan_wf (array : ndarray) (ND : float64) :
  wf_array array -> wf_array (where_eq_nan array ND).
Proof.
  intros (Hr & Hc & Hlen & Hrows). unfold wf_array, where_eq_nan; simpl.
  repeat split; try assumption.
  - now rewrite length_map.
  - apply Forall_map. eapply Forall_impl; [| exact Hrows].
    intros row Hrow. simpl in *. now rewrite length_map.
Qed.

(** The shape and well-formedness of a tile after lines 74-95. *)
Lemma normalize_window (ds : Dataset) (ND : float64) (expand : bool)
                       (cellfact i numRows j numCols : Z) :
  0 < cellfact -> wf_dataset ds ->
  0 <= i -> 0 <= j -> 0 <= numRows -> 0 <= numCols ->
  i + numRows <= RasterYSize ds -> j + numCols <= RasterXSize ds ->
  exists data,
    normalize expand cellfact numRows numCols
      (where_eq_nan (window ds j i numCols numRows) ND) = retE data /\
    shape data = (edge_extent expand cellfact numRows,
                  edge_extent expand cellfact numCols) /\
    wf_array data.
Proof.
  intros Hf Hds Hi Hj Hr Hc Hib Hjb.
  assert (Hwf : wf_array (where_eq_nan (window ds j i numCols numRows) ND))
    by (apply where_eq_nan_wf, window_wf; assumption).
  destruct (expand_or_remove_rows_rule expand cellfact numRows numCols _ Hf Hwf eq_refl)
    as (d1 & E1 & _ & S1 & W1).
  destruct (expand_or_remove_cols_rule expand cellfact _ numCols d1 Hf W1 S1)
    as (d2 & E2 & _ & S2 & W2).
  exists d2. unfold normalize. rewrite E1. simpl. rewrite E2. auto.
Qed.

(* ================================================================== *)
(** * Tiles without a complete sub-block (lines 100-110) *)
(* ================================================================== *)

Lemma range_run (start stop step : Z) :
  step <> 0 ->
  range start stop step
  = retE (map (fun k => start + Z.of_nat k * step)
              (seq 0 (Z.to_nat (range_len start stop step)))).
Proof.
  intros Hs. unfold range.
  now replace (step =? 0) with false by (symmetry; apply Z.eqb_neq; lia).
Qed.

Lemma range_empty (stop step : Z) :
  0 < step -> stop <= 0 -> range 0 stop step = retE [].
Proof.
  intros Hs Hstop. rewrite range_run by lia. unfold range_len.
  replace (0 <? step) with true by (symmetry; apply Z.ltb_lt; lia).
  now replace (0 <? stop) with false by (symmetry; apply Z.ltb_ge; lia).
Qed.

Lemma foldE_skip {A S} (body : S -> A -> E S) (xs : list A) (s : S) :
  (forall s x, body s x = retE s) -> foldE body xs s = retE s.
Proof.
  intros Hb. induction xs as [| x xs IH]; simpl.
  - reflexivity.
  - now rewrite Hb.
Qed.

Lemma floordiv_run (a b : Z) : b <> 0 -> floordiv a b = retE (a / b).
Proof.
  intros Hb. unfold floordiv.
  now replace (b =? 0) with false by (symmetry; apply Z.eqb_neq; lia).
Qed.

(** When one extent of the normalized buffer is 0, no sub-block is
    reduced and the aggregated array has no cell. *)
Lemma aggregation_no_cells (cellfact : Z) (ign aggr_type : string)
                           (data : ndarray) (nrows ncols : Z) :
  0 < cellfact -> shape data = (nrows, ncols) ->
  0 <= nrows -> 0 <= ncols -> nrows = 0 \/ ncols = 0 ->
  exists array,
    aggregation cellfact ign aggr_type data = retE array /\
    shape array = (nrows / cellfact, ncols / cellfact) /\
    Forall (fun row => row = []) (items array).
Proof.
  intros Hf Hs Hr Hc Hz. unfold aggregation. rewrite Hs.
  assert (Hfold : exists xs,
            range 0 nrows cellfact = retE xs /\
            foldE (fun aggr_array x =>
                     ys <-? range 0 ncols cellfact ;;
                     foldE (fun aggr_array y =>
                              func <-? exec_cmd ign aggr_type
                                (getitem x (cellfact + x) y (cellfact + y) data) ;;
                              retE (aggr_array ++ [func])) ys aggr_array)
                  xs [] = retE []).
  { destruct Hz as [-> | ->].
    - exists []. split; [apply range_empty; lia | reflexivity].
    - eexists. split; [apply range_run; lia |].
      apply foldE_skip. intros s x. rewrite range_empty by lia. reflexivity. }
  destruct Hfold as (xs & -> & Hfold). simpl. rewrite Hfold. simpl.
  rewrite !floordiv_run by lia. simpl.
  unfold reshape.
  assert (H0 : nrows / cellfact * (ncols / cellfact) = 0).
  { destruct Hz as [-> | ->]; rewrite Z.div_0_l by lia; lia. }
  pose proof (Z.div_pos nrows cellfact Hr Hf).
  pose proof (Z.div_pos ncols cellfact Hc Hf).
  replace ((Z.of_nat (length (@nil float64)) =? nrows / cellfact * (ncols / cellfact))
           && (0 <=? nrows / cellfact) && (0 <=? ncols / cellfact)) with true.
  2:{ symmetry. rewrite H0. simpl.
      apply andb_true_iff; split; apply Z.leb_le; assumption. }
  eexists. split; [reflexivity |]. split; [reflexivity |]. simpl.
  apply Forall_map, Forall_forall. intros k _.
  now rewrite skipn_nil, firstn_nil.
Qed.

Lemma write_rows_no_cells (xoff : nat) (new old : list (list float64)) :
  Forall (fun row => row = []) new -> write_rows xoff new old = old.
Proof.
  intros H. revert old. induction H as [| n new Hn Hnew IH]; intros old.
  - now destruct old.
  - destruct old as [| o old]; [reflexivity |]. simpl.
    rewrite IH. subst n. unfold overwrite. simpl.
    now rewrite Nat.add_0_r, firstn_skipn.
Qed.

Lemma write_window_no_cells (xoff yoff : Z) (new old : list (list float64)) :
  Forall (fun row => row = []) new -> write_window xoff yoff new old = old.
Proof.
  intros H. unfold write_window.
  rewrite write_rows_no_cells by assumption. apply firstn_skipn.
Qed.

Lemma edge_extent_shrink_small (cellfact size : Z) :
  0 <= size -> size < cellfact -> edge_extent false cellfact size = 0.
Proof.
  intros H0 Hlt. unfold edge_extent. rewrite Z.mod_small by lia.
  destruct (size =? 0) eqn:E; [now apply Z.eqb_eq | lia].
Qed.

(** A whole run whose second tile is a single row: both tiles are handed
    to [WriteArray], the second as an array without rows, and the output
    is what the first tile wrote. *)
Lemma run_401x2 :
  let r := ras_aggregation grid_401x2 2 (Some "SUM") (Some false) (Some false) world0 in
  snd r = inr tt /\
  map shape (written (fst r)) = [(200, 1); (0, 1)] /\
  out_pixels r = Some (repeat [of_int 6] 200).
Proof.
  vm_compute. repeat split; reflexivity.
Qed.

(* ================================================================== *)
(** * binary64 rounding: exponents and signed zeros *)
(* ================================================================== *)

Lemma fexp_ge_emin (z : Z) : emin64 <= fexp prec emax z.
Proof. unfold fexp, emin64. apply Z.le_max_r. Qed.

Lemma shr_1_m (mrs : shr_record) :
  0 <= shr_m mrs -> shr_m (shr_1 mrs) = shr_m mrs / 2.
Proof.
  destruct mrs as [m r s]. cbn [shr_m]. intros Hm.
  destruct m as [| q | q]; [reflexivity | | lia].
  destruct q as [q | q |]; cbn [shr_1 shr_m].
  - rewrite Pos2Z.inj_xI. Z.div_mod_to_equations. lia.
  - rewrite Pos2Z.inj_xO. Z.div_mod_to_equations. lia.
  - reflexivity.
Qed.

Lemma iter_shr_1_m (p : positive) :
  forall mrs, 0 <= shr_m mrs ->
  shr_m (iter_pos shr_1 p mrs) = shr_m mrs / 2 ^ Zpos p.
Proof.
  induction p as [p IH | p IH |]; intros mrs Hm; simpl iter_pos.
  - assert (H1 : 0 <= shr_m (shr_1 mrs)) by (rewrite shr_1_m by lia; apply Z.div_pos; lia).
    assert (H2 : 0 <= shr_m (iter_pos shr_1 p (shr_1 mrs)))
      by (rewrite IH by lia; apply Z.div_pos; [lia | apply Z.pow_pos_nonneg; lia]).
    rewrite IH, IH, shr_1_m by lia.
    rewrite !Z.div_div by (try lia; apply Z.pow_pos_nonneg; lia).
    f_equal.
    replace (Z.pos p~1) with (1 + Z.pos p + Z.pos p) by lia.
    rewrite !Z.pow_add_r by lia. lia.
  - assert (H2 : 0 <= shr_m (iter_pos shr_1 p mrs))
      by (rewrite IH by lia; apply Z.div_pos; [lia | apply Z.pow_pos_nonneg; lia]).
    rewrite IH, IH by lia.
    rewrite !Z.div_div by (try lia; apply Z.pow_pos_nonneg; lia).
    f_equal.
    replace (Z.pos p~0) with (Z.pos p + Z.pos p) by lia.
    rewrite !Z.pow_add_r by lia. lia.
  - rewrite shr_1_m by lia. reflexivity.
Qed.

Lemma digits2_pos_lower (q : positive) :
  2 ^ (Zpos (digits2_pos q) - 1) <= Zpos q.
Proof.
  induction q as [q IH | q IH |]; simpl digits2_pos.
  - replace (Z.pos (Pos.succ (digits2_pos q)) - 1)
      with (Z.succ (Z.pos (digits2_pos q) - 1)) by lia.
    rewrite Z.pow_succ_r by lia. lia.
  - replace (Z.pos (Pos.succ (digits2_pos q)) - 1)
      with (Z.succ (Z.pos (digits2_pos q) - 1)) by lia.
    rewrite Z.pow_succ_r by lia. lia.
  - simpl. lia.
Qed.

Lemma shr_record_of_loc_m (m : Z) (l : location) :
  shr_m (shr_record_of_loc m l) = m.
Proof. destruct l as [| []]; reflexivity. Qed.

(** Rounding to the format never leaves an exponent below the least one. *)
Lemma shr_fexp_exp (m e : Z) (l : location) (mrs : shr_record) (e' : Z) :
  shr_fexp prec emax m e l = (mrs, e') -> emin64 <= e'.
Proof.
  unfold shr_fexp, shr. intros H.
  pose proof (fexp_ge_emin (Zdigits2 m + e)) as Hf.
  destruct (fexp prec emax (Zdigits2 m + e) - e) eqn:Hn;
    injection H as _ <-; lia.
Qed.

(** A positive mantissa whose exponent is not below the least one keeps a
    positive mantissa through the shift. *)
Lemma shr_fexp_pos (m e : Z) (l : location) (mrs : shr_record) (e' : Z) :
  0 < m -> emin64 <= e ->
  shr_fexp prec emax m e l = (mrs, e') -> 0 < shr_m mrs.
Proof.
  unfold shr_fexp, shr. intros Hm He H.
  destruct (fexp prec emax (Zdigits2 m + e) - e) as [| p | p] eqn:Hn;
    injection H as <- _; try (rewrite shr_record_of_loc_m; assumption).
  rewrite iter_shr_1_m by (rewrite shr_record_of_loc_m; lia).
  rewrite shr_record_of_loc_m.
  destruct m as [| q | q]; try lia.
  pose proof (digits2_pos_lower q) as Hd.
  simpl Zdigits2 in Hn. unfold fexp in Hn. fold emin64 in Hn.
  apply Z.div_str_pos. split; [apply Z.pow_pos_nonneg; lia |].
  etransitivity; [| exact Hd].
  apply Z.pow_le_mono_r; [lia |]. unfold prec in Hn. lia.
Qed.

Lemma round_nearest_even_pos (m : Z) (l : location) :
  0 < m -> 0 < round_nearest_even m l.
Proof.
  intros Hm. destruct l as [| []]; simpl; try destruct (Z.even m); lia.
Qed.

Lemma binary_round_aux_exp (s : bool) (m e : Z) (l : location) :
  exp_bounded (binary_round_aux prec emax s m e l).
Proof.
  unfold binary_round_aux.
  destruct (shr_fexp prec emax m e l) as [mrs' e'] eqn:E1.
  destruct (shr_fexp prec emax _ e' loc_Exact) as [mrs'' e''] eqn:E2.
  apply shr_fexp_exp in E2.
  destruct (shr_m mrs''); try exact I.
  destruct (e'' <=? emax - prec); [exact E2 | exact I].
Qed.

Lemma binary_round_aux_nonzero (s : bool) (m e : Z) (l : location) (s' : bool) :
  0 < m -> emin64 <= e ->
  binary_round_aux prec emax s m e l <> S754_zero s'.
Proof.
  intros Hm He. unfold binary_round_aux.
  destruct (shr_fexp prec emax m e l) as [mrs' e'] eqn:E1.
  pose proof (shr_fexp_pos _ _ _ _ _ Hm He E1) as H1.
  pose proof (shr_fexp_exp _ _ _ _ _ E1) as He'.
  destruct (shr_fexp prec emax _ e' loc_Exact) as [mrs'' e''] eqn:E2.
  apply shr_fexp_pos in E2; [| now apply round_nearest_even_pos | assumption].
  destruct (shr_m mrs''); try lia.
  destruct (e'' <=? emax - prec); discriminate.
Qed.

Lemma binary_normalize_exp (z e : Z) :
  exp_bounded (binary_normalize prec emax z e false).
Proof.
  destruct z; simpl; auto; unfold binary_round;
    destruct (shl_align _ _ _); apply binary_round_aux_exp.
Qed.

Lemma shl_align_exp (m : positive) (e e' : Z) :
  emin64 <= e -> emin64 <= e' -> emin64 <= snd (shl_align m e e').
Proof.
  intros He He'. unfold shl_align. destruct (e' - e); simpl; assumption.
Qed.

Lemma binary_round_nonzero (s : bool) (m : positive) (e : Z) (s' : bool) :
  emin64 <= e -> binary_round prec emax s m e <> S754_zero s'.
Proof.
  intros He. unfold binary_round.
  pose proof (shl_align_exp m e (fexp prec emax (Z.pos (digits2_pos m) + e)) He
                (fexp_ge_emin _)) as H.
  destruct (shl_align _ _ _) as [mz ez]. simpl in H.
  apply binary_round_aux_nonzero; [lia | assumption].
Qed.

Lemma binary_normalize_not_neg_zero (z e : Z) :
  emin64 <= e -> binary_normalize prec emax z e false <> S754_zero true.
Proof.
  intros He. destruct z; simpl.
  - discriminate.
  - now apply binary_round_nonzero.
  - now apply binary_round_nonzero.
Qed.

(** Adding to an accumulator that is not -0.0 never gives -0.0. *)
Lemma add_not_neg_zero (a b : float64) :
  exp_bounded a -> exp_bounded b -> a <> S754_zero true ->
  add a b <> S754_zero true /\ exp_bounded (add a b).
Proof.
  intros Ha Hb Hz.
  destruct a as [sa | sa | | sa ma ea], b as [sb | sb | | sb mb eb];
    try (split; [discriminate | exact I]);
    try (split; [discriminate | assumption]);
    try (destruct sa, sb; simpl; split; (discriminate || exact I)).
  - destruct sa; [congruence |]. destruct sb; simpl; split; (discriminate || exact I).
  - unfold add, SFadd. split.
    + apply binary_normalize_not_neg_zero. simpl in Ha, Hb. lia.
    + apply binary_normalize_exp.
Qed.

Lemma add_zero_r (a : float64) :
  a <> S754_zero true -> add a (S754_zero false) = a.
Proof.
  intros Hz. destruct a as [[] | | |]; try reflexivity. congruence.
Qed.

Lemma multiply_exp (x y : float64) : exp_bounded (multiply x y).
Proof.
  destruct x, y; simpl; auto. apply binary_round_aux_exp.
Qed.

Lemma valid_exp_bounded (x : float64) :
  valid_binary prec emax x = true -> exp_bounded x.
Proof.
  destruct x as [| | | s m e]; simpl; auto.
  unfold bounded, canonical_mantissa. intros H.
  apply andb_prop in H. destruct H as [H _]. apply Z.eqb_eq in H.
  rewrite <- H. apply fexp_ge_emin.
Qed.

(* ================================================================== *)
(** * Reductions and not-a-number *)
(* ================================================================== *)

Lemma isnan_true (v : float64) : isnan v = true -> v = nan.
Proof. destruct v; simpl; intros H; (reflexivity || discriminate). Qed.

Lemma add_nan_l (y : float64) : add nan y = nan.
Proof. reflexivity. Qed.

Lemma add_nan_r (x : float64) : add x nan = nan.
Proof. destruct x; reflexivity. Qed.

Lemma subtract_nan_r (x : float64) : subtract x nan = nan.
Proof. destruct x; reflexivity. Qed.

Lemma true_divide_nan_l (y : float64) : true_divide nan y = nan.
Proof. reflexivity. Qed.

Lemma fold_add_nan (l : list float64) : fold_left add l nan = nan.
Proof. induction l as [| x l IH]; simpl; [reflexivity | exact IH]. Qed.

(** A sum over values one of which is not-a-number is not-a-number. *)
Lemma fold_add_has_nan (l : list float64) (acc : float64) :
  existsb isnan l = true -> fold_left add l acc = nan.
Proof.
  revert acc. induction l as [| x l IH]; intros acc H; simpl in *.
  - discriminate.
  - destruct (isnan x) eqn:Hx.
    + apply isnan_true in Hx. subst x. rewrite add_nan_r. apply fold_add_nan.
    + apply IH. exact H.
Qed.

Lemma maximum_nan_r (acc : float64) : maximum acc nan = nan.
Proof. destruct acc; reflexivity. Qed.

Lemma minimum_nan_r (acc : float64) : minimum acc nan = nan.
Proof. destruct acc; reflexivity. Qed.

Lemma maximum_nan_l (x : float64) : maximum nan x = nan.
Proof. destruct x; reflexivity. Qed.

Lemma minimum_nan_l (x : float64) : minimum nan x = nan.
Proof. destruct x; reflexivity. Qed.

Lemma fold_maximum_nan (l : list float64) : fold_left maximum l nan = nan.
Proof.
  induction l as [| x l IH]; simpl; [reflexivity |].
  now rewrite maximum_nan_l.
Qed.

Lemma fold_minimum_nan (l : list float64) : fold_left minimum l nan = nan.
Proof.
  induction l as [| x l IH]; simpl; [reflexivity |].
  now rewrite minimum_nan_l.
Qed.

Lemma fold_maximum_has_nan (l : list float64) (acc : float64) :
  existsb isnan (acc :: l) = true -> fold_left maximum l acc = nan.
Proof.
  revert acc. induction l as [| x l IH]; intros acc H.
  - simpl in H. rewrite orb_false_r in H. now apply isnan_true.
  - simpl. apply IH. simpl in H |- *.
    destruct (isnan acc) eqn:Ha.
    + apply isnan_true in Ha. subst acc. now rewrite maximum_nan_l.
    + destruct (isnan x) eqn:Hx.
      * apply isnan_true in Hx. subst x. now rewrite maximum_nan_r.
      * simpl in H. rewrite H. apply orb_true_r.
Qed.

Lemma fold_minimum_has_nan (l : list float64) (acc : float64) :
  existsb isnan (acc :: l) = true -> fold_left minimum l acc = nan.
Proof.
  revert acc. induction l as [| x l IH]; intros acc H.
  - simpl in H. rewrite orb_false_r in H. now apply isnan_true.
  - simpl. apply IH. simpl in H |- *.
    destruct (isnan acc) eqn:Ha.
    + apply isnan_true in Ha. subst acc. now rewrite minimum_nan_l.
    + destruct (isnan x) eqn:Hx.
      * apply isnan_true in Hx. subst x. now rewrite minimum_nan_r.
      * simpl in H. rewrite H. apply orb_true_r.
Qed.

(** ** The ordinary reductions propagate not-a-number *)

Lemma amax_has_nan (a : list float64) :
  existsb isnan a = true -> amax a = retE nan.
Proof.
  destruct a as [| x rest]; [discriminate |]. intros H.
  unfold amax, reduce, retE. f_equal. now apply fold_maximum_has_nan.
Qed.

Lemma amin_has_nan (a : list float64) :
  existsb isnan a = true -> amin a = retE nan.
Proof.
  destruct a as [| x rest]; [discriminate |]. intros H.
  unfold amin, reduce, retE. f_equal. now apply fold_minimum_has_nan.
Qed.

Lemma sum_has_nan (a : list float64) :
  existsb isnan a = true -> sum a = retE nan.
Proof.
  intros H. unfold sum, umr_sum. now rewrite fold_add_has_nan.
Qed.

Lemma mean_has_nan (a : list float64) :
  existsb isnan a = true -> mean a = retE nan.
Proof.
  intros H. unfold mean, umr_sum. now rewrite fold_add_has_nan.
Qed.

Lemma existsb_isnan_map_nan {A} (f : A -> float64) (a : list A) :
  a <> [] -> (forall v, f v = nan) -> existsb isnan (map f a) = true.
Proof.
  intros Ha Hf. destruct a as [| x a]; [congruence |]. simpl. now rewrite Hf.
Qed.

Lemma std_has_nan (a : list float64) :
  existsb isnan a = true -> std a = retE nan.
Proof.
  intros H. unfold std, std_ddof, var, umr_sum.
  rewrite (fold_add_has_nan a) by assumption.
  rewrite true_divide_nan_l. rewrite map_map.
  rewrite fold_add_has_nan; [reflexivity |].
  apply existsb_isnan_map_nan.
  - intros ->. discriminate.
  - intros v. now rewrite subtract_nan_r.
Qed.

(** ** The variants on values that are all not-a-number *)

Lemma all_nan_repeat (a : list float64) :
  forallb isnan a = true -> a = repeat nan (length a).
Proof.
  induction a as [| x a IH]; simpl; intros H; [reflexivity |].
  apply andb_prop in H. destruct H as [Hx Ha].
  apply isnan_true in Hx. subst x. f_equal. now apply IH.
Qed.

Lemma fold_fmax_all_nan (n : nat) : fold_left fmax (repeat nan n) nan = nan.
Proof. induction n as [| n IH]; simpl; [reflexivity | exact IH]. Qed.

Lemma fold_fmin_all_nan (n : nat) : fold_left fmin (repeat nan n) nan = nan.
Proof. induction n as [| n IH]; simpl; [reflexivity | exact IH]. Qed.

Lemma fold_add_zeros (n : nat) : fold_left add (repeat zero n) zero = zero.
Proof. induction n as [| n IH]; simpl; [reflexivity | exact IH]. Qed.

Lemma replace_all_nan (n : nat) :
  replace_nan (repeat nan n) = (repeat zero n, repeat true n).
Proof.
  unfold replace_nan. f_equal; induction n as [| n IH]; simpl; congruence.
Qed.

Lemma count_valid_all_masked (n : nat) : count_valid (repeat true n) = 0.
Proof.
  unfold count_valid. induction n as [| n IH]; simpl; [reflexivity | exact IH].
Qed.

Lemma forallb_id_repeat_true (n : nat) : forallb (fun m : bool => m) (repeat true n) = true.
Proof. induction n as [| n IH]; simpl; [reflexivity | exact IH]. Qed.

Lemma nanmax_all_nan (a : list float64) :
  a <> [] -> forallb isnan a = true -> nanmax a = retE nan.
Proof.
  intros Ha H. rewrite (all_nan_repeat a H).
  destruct (length a) eqn:Hl; [destruct a; [congruence | discriminate] |].
  simpl. unfold nanmax, reduce, retE. now rewrite fold_fmax_all_nan.
Qed.

Lemma nanmin_all_nan (a : list float64) :
  a <> [] -> forallb isnan a = true -> nanmin a = retE nan.
Proof.
  intros Ha H. rewrite (all_nan_repeat a H).
  destruct (length a) eqn:Hl; [destruct a; [congruence | discriminate] |].
  simpl. unfold nanmin, reduce, retE. now rewrite fold_fmin_all_nan.
Qed.

Lemma nansum_all_nan (a : list float64) :
  forallb isnan a = true -> nansum a = retE nan.
Proof.
  intros H. rewrite (all_nan_repeat a H).
  unfold nansum. rewrite replace_all_nan.
  now rewrite forallb_id_repeat_true.
Qed.

Lemma nanmean_all_nan (a : list float64) :
  forallb isnan a = true -> nanmean a = retE nan.
Proof.
  intros H. rewrite (all_nan_repeat a H).
  unfold nanmean. rewrite replace_all_nan.
  unfold umr_sum. now rewrite fold_add_zeros, count_valid_all_masked.
Qed.

Lemma nanstd_all_nan (a : list float64) :
  forallb isnan a = true -> nanstd a = retE nan.
Proof.
  intros H. rewrite (all_nan_repeat a H).
  unfold nanstd, nanstd_ddof, nanvar. rewrite replace_all_nan.
  now rewrite count_valid_all_masked.
Qed.

(** ** The variants leave the not-a-number values out *)

Lemma filter_notnan_all (a : list float64) :
  forallb notnan a = true -> filter notnan a = a.
Proof.
  induction a as [| x a IH]; simpl; intros H; [reflexivity |].
  apply andb_prop in H. destruct H as [Hx Ha]. rewrite Hx. f_equal. now apply IH.
Qed.

Lemma filter_notnan_all_nan (a : list float64) :
  forallb isnan a = true -> filter notnan a = [].
Proof.
  induction a as [| x a IH]; simpl; intros H; [reflexivity |].
  apply andb_prop in H. destruct H as [Hx Ha].
  unfold notnan at 1. rewrite Hx. simpl. now apply IH.
Qed.

Lemma notnan_false (v : float64) : notnan v = false -> v = nan.
Proof.
  unfold notnan. intros H. apply isnan_true. now destruct (isnan v).
Qed.

Lemma notnan_true (v : float64) : notnan v = true -> isnan v = false.
Proof. unfold notnan. now destruct (isnan v). Qed.

(** With an accumulator that is a number, [fmax] runs as [maximum] does on
    the values that are numbers, and the accumulator stays a number. *)
Lemma fold_fmax_filter (l : list float64) (acc : float64) :
  isnan acc = false ->
  fold_left fmax l acc = fold_left maximum (filter notnan l) acc.
Proof.
  revert acc. induction l as [| x l IH]; intros acc Ha; simpl; [reflexivity |].
  destruct (notnan x) eqn:Hx.
  - simpl. apply notnan_true in Hx.
    assert (E : fmax acc x = maximum acc x)
      by (unfold fmax, maximum; now rewrite Ha, Hx).
    rewrite E. apply IH.
    unfold maximum. now destruct (greater_equal acc x || isnan acc).
  - apply notnan_false in Hx. subst x.
    assert (E : fmax acc nan = acc) by (destruct acc; reflexivity).
    rewrite E. now apply IH.
Qed.

Lemma fold_fmin_filter (l : list float64) (acc : float64) :
  isnan acc = false ->
  fold_left fmin l acc = fold_left minimum (filter notnan l) acc.
Proof.
  revert acc. induction l as [| x l IH]; intros acc Ha; simpl; [reflexivity |].
  destruct (notnan x) eqn:Hx.
  - simpl. apply notnan_true in Hx.
    assert (E : fmin acc x = minimum acc x)
      by (unfold fmin, minimum; now rewrite Ha, Hx).
    rewrite E. apply IH.
    unfold minimum. now destruct (less_equal acc x || isnan acc).
  - apply notnan_false in Hx. subst x.
    assert (E : fmin acc nan = acc) by (destruct acc; reflexivity).
    rewrite E. now apply IH.
Qed.

Lemma fmax_nan_l (x : float64) : isnan x = false -> fmax nan x = x.
Proof. destruct x; simpl; intros H; (reflexivity || discriminate). Qed.

Lemma fmin_nan_l (x : float64) : isnan x = false -> fmin nan x = x.
Proof. destruct x; simpl; intros H; (reflexivity || discriminate). Qed.

(** Leading not-a-number values are dropped by [fmax]. *)
Lemma fold_fmax_from_nan (l : list float64) :
  retE (fold_left fmax l nan)
  = match filter notnan l with
    | [] => retE nan
    | _ => reduce maximum (filter notnan l)
    end.
Proof.
  induction l as [| x l IH]; simpl; [reflexivity |].
  destruct (notnan x) eqn:Hx.
  - apply notnan_true in Hx. rewrite fmax_nan_l by assumption.
    simpl. now rewrite fold_fmax_filter.
  - apply notnan_false in Hx. subst x. exact IH.
Qed.

Lemma fold_fmin_from_nan (l : list float64) :
  retE (fold_left fmin l nan)
  = match filter notnan l with
    | [] => retE nan
    | _ => reduce minimum (filter notnan l)
    end.
Proof.
  induction l as [| x l IH]; simpl; [reflexivity |].
  destruct (notnan x) eqn:Hx.
  - apply notnan_true in Hx. rewrite fmin_nan_l by assumption.
    simpl. now rewrite fold_fmin_filter.
  - apply notnan_false in Hx. subst x. exact IH.
Qed.

Lemma filter_notnan_nonempty (a : list float64) :
  forallb isnan a = false -> filter notnan a <> [].
Proof.
  induction a as [| x a IH]; simpl; intros H; [discriminate |].
  unfold notnan at 1. destruct (isnan x); simpl in *; [now apply IH | discriminate].
Qed.

Lemma nanmax_filter (a : list float64) :
  forallb isnan a = false -> nanmax a = amax (filter notnan a).
Proof.
  intros H. pose proof (filter_notnan_nonempty a H) as Hne.
  destruct a as [| x rest]; [discriminate |].
  unfold nanmax, amax. simpl reduce at 1. simpl filter in *.
  destruct (notnan x) eqn:Hx.
  - simpl. now rewrite fold_fmax_filter by now apply notnan_true.
  - apply notnan_false in Hx. subst x. rewrite fold_fmax_from_nan.
    destruct (filter notnan rest); [congruence | reflexivity].
Qed.

Lemma nanmin_filter (a : list float64) :
  forallb isnan a = false -> nanmin a = amin (filter notnan a).
Proof.
  intros H. pose proof (filter_notnan_nonempty a H) as Hne.
  destruct a as [| x rest]; [discriminate |].
  unfold nanmin, amin. simpl reduce at 1. simpl filter in *.
  destruct (notnan x) eqn:Hx.
  - simpl. now rewrite fold_fmin_filter by now apply notnan_true.
  - apply notnan_false in Hx. subst x. rewrite fold_fmin_from_nan.
    destruct (filter notnan rest); [congruence | reflexivity].
Qed.

(** Zeros put in place of the not-a-number values do not change a sum
    whose accumulator starts at 0.0: the accumulator is never -0.0. *)
Lemma fold_add_skip_zeros (g : float64 -> float64) (a : list float64)
                          (acc : float64) :
  Forall (fun v => exp_bounded (g v)) a ->
  exp_bounded acc -> acc <> S754_zero true ->
  fold_left add (map (fun v => if isnan v then zero else g v) a) acc
  = fold_left add (map g (filter notnan a)) acc.
Proof.
  intros Hg. revert acc.
  induction Hg as [| x a Hx Ha IH]; intros acc Hacc Hz; simpl; [reflexivity |].
  unfold notnan at 1. destruct (isnan x); simpl.
  - rewrite add_zero_r by assumption. now apply IH.
  - destruct (add_not_neg_zero acc (g x) Hacc Hx Hz) as [Hz' Hacc'].
    now apply IH.
Qed.

Lemma count_valid_filter (a : list float64) :
  count_valid (map isnan a) = count (filter notnan a).
Proof.
  unfold count_valid, count. f_equal.
  induction a as [| x a IH]; simpl; [reflexivity |].
  unfold notnan at 1. destruct (isnan x); simpl; congruence.
Qed.

Lemma forallb_id_map_isnan (a : list float64) :
  forallb (fun m : bool => m) (map isnan a) = forallb isnan a.
Proof.
  induction a as [| x a IH]; simpl; [reflexivity | now rewrite IH].
Qed.

Lemma umr_sum_replace_nan (a : list float64) :
  Forall valid_cell a ->
  umr_sum (fst (replace_nan a)) = umr_sum (filter notnan a).
Proof.
  intros Hv. unfold umr_sum, replace_nan. simpl.
  rewrite (fold_add_skip_zeros (fun v => v)).
  - now rewrite map_id.
  - eapply Forall_impl; [| exact Hv]. intros v. apply valid_exp_bounded.
  - exact I.
  - discriminate.
Qed.

(** The same holds, for a simpler reason, when no value is replaced. *)
Lemma map_skip_no_nan (h : float64 -> float64) (a : list float64) :
  forallb notnan a = true ->
  map (fun v => if isnan v then zero else h v) a = map h a.
Proof.
  induction a as [| x a IH]; simpl; intros H; [reflexivity |].
  apply andb_prop in H. destruct H as [Hx Ha].
  apply notnan_true in Hx. rewrite Hx. f_equal. now apply IH.
Qed.

Lemma umr_sum_replace_no_nan (a : list float64) :
  forallb notnan a = true ->
  umr_sum (fst (replace_nan a)) = umr_sum (filter notnan a).
Proof.
  intros H. unfold replace_nan. simpl.
  rewrite (map_skip_no_nan (fun v => v)) by assumption.
  now rewrite map_id, filter_notnan_all.
Qed.

Lemma nansum_filter (a : list float64) :
  umr_sum (fst (replace_nan a)) = umr_sum (filter notnan a) ->
  forallb isnan a = false ->
  nansum a = sum (filter notnan a).
Proof.
  intros Hs H. unfold nansum, sum.
  unfold replace_nan in *. simpl in Hs.
  now rewrite forallb_id_map_isnan, H, Hs.
Qed.

Lemma nanmean_filter (a : list float64) :
  umr_sum (fst (replace_nan a)) = umr_sum (filter notnan a) ->
  nanmean a = mean (filter notnan a).
Proof.
  intros Hs. unfold nanmean, mean.
  unfold replace_nan in *. simpl in Hs.
  now rewrite count_valid_filter, Hs.
Qed.

(** Lines [arr -= avg] and [_copyto(arr, 0, mask)] of [nanvar]. *)
Lemma copyto_zero_deviations (h : float64 -> float64) (a : list float64) :
  copyto_zero (map h (map (fun v => if isnan v then zero else v) a)) (map isnan a)
  = map (fun v => if isnan v then zero else h v) a.
Proof.
  induction a as [| x a IH]; simpl; [reflexivity |].
  rewrite IH. now destruct (isnan x).
Qed.

Lemma nanvar_filter (a : list float64) :
  umr_sum (fst (replace_nan a)) = umr_sum (filter notnan a) ->
  nanvar a 0 = var (filter notnan a) 0.
Proof.
  intros Hs. unfold nanvar, var.
  unfold replace_nan in *. simpl in Hs.
  rewrite count_valid_filter, Hs.
  set (n := count (filter notnan a)).
  set (mu := true_divide (umr_sum (filter notnan a)) (of_int n)).
  rewrite copyto_zero_deviations, !map_map.
  assert (Hsq : umr_sum (map (fun v => multiply (if isnan v then zero else subtract v mu)
                                               (if isnan v then zero else subtract v mu)) a)
                = umr_sum (map (fun v => multiply (subtract v mu) (subtract v mu))
                               (filter notnan a))).
  { unfold umr_sum.
    rewrite <- (fold_add_skip_zeros
                  (fun v => multiply (subtract v mu) (subtract v mu)) a zero).
    - f_equal. apply map_ext. intros v. now destruct (isnan v).
    - apply Forall_forall. intros v _. apply multiply_exp.
    - exact I.
    - discriminate. }
  rewrite Hsq.
  assert (Hn : 0 <= n) by (unfold n, count; lia).
  replace (n - 0) with n by lia. rewrite Z.max_l by lia.
  destruct (n <=? 0) eqn:Hn0; [| reflexivity].
  apply Z.leb_le in Hn0. assert (n = 0) as Hz by lia.
  unfold n, count in Hz.
  destruct (filter notnan a); [reflexivity | simpl in Hz; lia].
Qed.

Lemma nanstd_filter (a : list float64) :
  umr_sum (fst (replace_nan a)) = umr_sum (filter notnan a) ->
  nanstd a = std (filter notnan a).
Proof.
  intros Hs. unfold nanstd, nanstd_ddof, std, std_ddof.
  now rewrite nanvar_filter.
Qed.

(* ================================================================== *)
(** * The statistic of a sub-block (lines 26-30 and 102-106) *)
(* ================================================================== *)

(** The function that the built statement calls, for each key. *)
Lemma exec_cmd_key (aggr_type : string) (block : ndarray) :
  In aggr_type choices ->
  exists f f',
    exec_cmd (ign_of true) aggr_type block = f (ravel block) /\
    exec_cmd (ign_of false) aggr_type block = f' (ravel block) /\
    (forall cells, statistic_over aggr_type cells = f cells) /\
    ((f = amax /\ f' = nanmax) \/ (f = amin /\ f' = nanmin) \/
     (f = mean /\ f' = nanmean) \/ (f = sum /\ f' = nansum) \/
     (f = std /\ f' = nanstd)).
Proof.
  intros Hin. simpl in Hin.
  destruct Hin as [<- | [<- | [<- | [<- | [<- | []]]]]].
  - exists amax, nanmax. repeat split; auto.
  - exists amin, nanmin. repeat split; auto.
  - exists mean, nanmean. repeat split; auto 6.
  - exists sum, nansum. repeat split; auto 6.
  - exists std, nanstd. repeat split; auto 7.
Qed.

Lemma not_all_nan (a : list float64) :
  a <> [] -> forallb notnan a = true -> forallb isnan a = false.
Proof.
  destruct a as [| x a]; [congruence |]. simpl. intros _ H.
  apply andb_prop in H. destruct H as [Hx _].
  apply notnan_true in Hx. now rewrite Hx.
Qed.

Lemma reduction_value (f f' : list float64 -> E float64) (a : list float64) :
  a <> [] ->
  (f = amax /\ f' = nanmax) \/ (f = amin /\ f' = nanmin) \/
  (f = mean /\ f' = nanmean) \/ (f = sum /\ f' = nansum) \/
  (f = std /\ f' = nanstd) ->
  exists v, f a = retE v.
Proof.
  intros Ha H. destruct a as [| x a]; [congruence |].
  destruct H as [[-> _] | [[-> _] | [[-> _] | [[-> _] | [-> _]]]]];
    eexists; reflexivity.
Qed.

(** On values without not-a-number, a variant and its ordinary reduction
    are the same computation. *)
Lemma variant_no_nan (f f' : list float64 -> E float64) (a : list float64) :
  a <> [] -> forallb notnan a = true ->
  (f = amax /\ f' = nanmax) \/ (f = amin /\ f' = nanmin) \/
  (f = mean /\ f' = nanmean) \/ (f = sum /\ f' = nansum) \/
  (f = std /\ f' = nanstd) ->
  f' a = f a.
Proof.
  intros Ha Hnn H.
  pose proof (not_all_nan a Ha Hnn) as Hnot.
  pose proof (umr_sum_replace_no_nan a Hnn) as Hs.
  pose proof (filter_notnan_all a Hnn) as Hf.
  destruct H as [[-> ->] | [[-> ->] | [[-> ->] | [[-> ->] | [-> ->]]]]].
  - rewrite nanmax_filter by assumption. now rewrite Hf.
  - rewrite nanmin_filter by assumption. now rewrite Hf.
  - rewrite nanmean_filter by assumption. now rewrite Hf.
  - rewrite nansum_filter by assumption. now rewrite Hf.
  - rewrite nanstd_filter by assumption. now rewrite Hf.
Qed.

(** C10. On a sub-block without not-a-number, the statement built for
    [prop_nodata = True] and the one built for [prop_nodata = False] give
    the same scalar, for each of the five statistics. *)
Theorem nan_free_block_same_scalar (aggr_type : string) (block : ndarray) :
  In aggr_type choices ->
  ravel block <> [] ->
  forallb notnan (ravel block) = true ->
  exists v,
    exec_cmd (ign_of true) aggr_type block = retE v /\
    exec_cmd (ign_of false) aggr_type block = retE v.
Proof.
  intros Hin Hne Hnn.
  destruct (exec_cmd_key aggr_type block Hin) as (f & f' & E1 & E2 & _ & Hk).
  destruct (reduction_value f f' (ravel block) Hne Hk) as (v & Hv).
  exists v. rewrite E1, E2.
  rewrite (variant_no_nan f f' (ravel block) Hne Hnn Hk). auto.
Qed.

Lemma nan_free_block_same_scalar_witness :
  exists v,
    exec_cmd (ign_of true) "STD" block_1_3 = retE v /\
    exec_cmd (ign_of false) "STD" block_1_3 = retE v.
Proof.
  apply (nan_free_block_same_scalar "STD" block_1_3).
  - simpl. auto 6.
  - discriminate.
  - reflexivity.
Defined.

Lemma ordinary_has_nan (f f' : list float64 -> E float64) (a : list float64) :
  existsb isnan a = true ->
  (f = amax /\ f' = nanmax) \/ (f = amin /\ f' = nanmin) \/
  (f = mean /\ f' = nanmean) \/ (f = sum /\ f' = nansum) \/
  (f = std /\ f' = nanstd) ->
  f a = retE nan.
Proof.
  intros Hn H.
  destruct H as [[-> _] | [[-> _] | [[-> _] | [[-> _] | [-> _]]]]].
  - now apply amax_has_nan.
  - now apply amin_has_nan.
  - now apply mean_has_nan.
  - now apply sum_has_nan.
  - now apply std_has_nan.
Qed.

Lemma variant_all_nan (f f' : list float64 -> E float64) (a : list float64) :
  a <> [] -> forallb isnan a = true ->
  (f = amax /\ f' = nanmax) \/ (f = amin /\ f' = nanmin) \/
  (f = mean /\ f' = nanmean) \/ (f = sum /\ f' = nansum) \/
  (f = std /\ f' = nanstd) ->
  f' a = retE nan.
Proof.
  intros Ha Hn H.
  destruct H as [[_ ->] | [[_ ->] | [[_ ->] | [[_ ->] | [_ ->]]]]].
  - now apply nanmax_all_nan.
  - now apply nanmin_all_nan.
  - now apply nanmean_all_nan.
  - now apply nansum_all_nan.
  - now apply nanstd_all_nan.
Qed.

Lemma variant_filter (f f' : list float64 -> E float64) (a : list float64) :
  Forall valid_cell a -> forallb isnan a = false ->
  (f = amax /\ f' = nanmax) \/ (f = amin /\ f' = nanmin) \/
  (f = mean /\ f' = nanmean) \/ (f = sum /\ f' = nansum) \/
  (f = std /\ f' = nanstd) ->
  f' a = f (filter notnan a).
Proof.
  intros Hv Hn H.
  pose proof (umr_sum_replace_nan a Hv) as Hs.
  destruct H as [[-> ->] | [[-> ->] | [[-> ->] | [[-> ->] | [-> ->]]]]].
  - now apply nanmax_filter.
  - now apply nanmin_filter.
  - now apply nanmean_filter.
  - now apply nansum_filter.
  - now apply nanstd_filter.
Qed.

Lemma all_nan_has_nan (a : list float64) :
  a <> [] -> forallb isnan a = true -> existsb isnan a = true.
Proof.
  destruct a as [| x a]; [congruence |]. simpl. intros _ H.
  apply andb_prop in H. destruct H as [-> _]. reflexivity.
Qed.

Lemma no_nan_all_notnan (a : list float64) :
  existsb isnan a = false -> forallb notnan a = true.
Proof.
  induction a as [| x a IH]; simpl; intros H; [reflexivity |].
  apply orb_false_iff in H. destruct H as [Hx Ha].
  unfold notnan at 1. rewrite Hx. simpl. now apply IH.
Qed.

(** On the working buffer, where a not-a-number stands for NoData, the
    scalar computed for a sub-block is not-a-number when every cell is
    one, not-a-number when some cell is one and NoData is propagated, and
    otherwise the ordinary statistic over the cells that are numbers. *)
Lemma exec_cmd_nan_law (prop_nodata : bool) (aggr_type : string)
                               (block : ndarray) :
  In aggr_type choices ->
  ravel block <> [] ->
  Forall valid_cell (ravel block) ->
  exec_cmd (ign_of prop_nodata) aggr_type block
  = nodata_law prop_nodata aggr_type (ravel block).
Proof.
  intros Hin Hne Hv.
  destruct (exec_cmd_key aggr_type block Hin) as (f & f' & E1 & E2 & Es & Hk).
  unfold nodata_law.
  destruct (forallb isnan (ravel block)) eqn:Hall.
  - destruct prop_nodata.
    + rewrite E1. apply (ordinary_has_nan f f'); [| assumption].
      now apply all_nan_has_nan.
    + rewrite E2. now apply (variant_all_nan f f').
  - rewrite Es. destruct prop_nodata.
    + rewrite E1, andb_true_r.
      destruct (existsb isnan (ravel block)) eqn:Hsome.
      * now apply (ordinary_has_nan f f').
      * now rewrite filter_notnan_all by now apply no_nan_all_notnan.
    + rewrite E2, andb_false_r. now apply variant_filter.
Qed.

Lemma block_one_nan_valid : Forall valid_cell (ravel block_one_nan).
Proof. repeat constructor. Qed.

(** On that sub-block the three cells that are numbers are averaged when
    NoData is ignored, and the result is not-a-number when it is
    propagated. *)
Lemma block_one_nan_avg :
  exec_cmd (ign_of false) "AVG" block_one_nan
  = retE (true_divide (of_int 8) (of_int 3)) /\
  exec_cmd (ign_of true) "AVG" block_one_nan = retE nan.
Proof. split; reflexivity. Qed.

(* ================================================================== *)
(** * The standard deviation *)
(* ================================================================== *)

Lemma std_population (a : list float64) : std a = retE (population_std a).
Proof.
  unfold std, std_ddof, var, population_std, std_with_divisor, count.
  rewrite map_map. rewrite Z.max_l by lia. reflexivity.
Qed.

(** C7. For STD the scalar of a sub-block is the population standard
    deviation of the values that enter the statistic (all the cells when
    NoData is propagated, the cells that are numbers otherwise): the sum of
    the squared deviations is divided by their count [N].  On the sub-block
    [[1, 3], [1, 3]] this is 1, which the divisor [N - 1] does not give. *)
Theorem std_is_population_std (prop_nodata : bool) (block : ndarray) :
  Forall valid_cell (ravel block) ->
  exec_cmd (ign_of prop_nodata) "STD" block
  = retE (population_std (entering prop_nodata (ravel block))) /\
  exec_cmd (ign_of prop_nodata) "STD" block_1_3 = retE (of_int 1) /\
  sample_std (entering prop_nodata (ravel block_1_3)) <> of_int 1.
Proof.
  intros Hv. split; [| split].
  - destruct prop_nodata; simpl entering.
    + change (exec_cmd (ign_of true) "STD" block) with (std (ravel block)).
      apply std_population.
    + change (exec_cmd (ign_of false) "STD" block) with (nanstd (ravel block)).
      rewrite nanstd_filter by now apply umr_sum_replace_nan.
      apply std_population.
  - destruct prop_nodata; reflexivity.
  - destruct prop_nodata; vm_compute; discriminate.
Qed.

Lemma std_is_population_std_witness :
  exec_cmd (ign_of false) "STD" block_one_nan
  = retE (population_std (entering false (ravel block_one_nan))) /\
  exec_cmd (ign_of false) "STD" block_1_3 = retE (of_int 1) /\
  sample_std (entering false (ravel block_1_3)) <> of_int 1.
Proof.
  apply (std_is_population_std false block_one_nan).
  exact block_one_nan_valid.
Defined.

(* ================================================================== *)
(** * What happens to a bad factor or statistic *)
(* ================================================================== *)

Lemma forM__cons {A} (x : A) (xs : list A) (body : A -> M unit) :
  forM_ (x :: xs) body = (body x ;;; forM_ xs body).
Proof. reflexivity. Qed.

Lemma range_cons (stop step : Z) :
  0 < step -> 0 < stop -> exists rest, range 0 stop step = retE (0 :: rest).
Proof.
  intros Hs Hstop. rewrite range_run by lia. unfold range_len.
  replace (0 <? step) with true by (symmetry; apply Z.ltb_lt; lia).
  replace (0 <? stop) with true by (symmetry; apply Z.ltb_lt; lia).
  assert (Hq : 0 <= (stop - 0 - 1) / step) by (apply Z.div_pos; lia).
  destruct (Z.to_nat ((stop - 0 - 1) / step + 1)) as [| n] eqn:Hn; [lia |].
  simpl. eexists. reflexivity.
Qed.

Lemma dict_get_unknown (aggr_type : string) :
  ~ In aggr_type choices ->
  dict_get functions aggr_type = raiseE (KeyError aggr_type).
Proof.
  intros Hnot. unfold functions, dict_get.
  repeat match goal with
  | |- context [String.eqb ?k aggr_type] =>
      let E := fresh "E" in
      destruct (String.eqb k aggr_type) eqn:E;
      [apply String.eqb_eq in E; exfalso; apply Hnot; rewrite <- E; simpl; auto 6 |]
  end.
  reflexivity.
Qed.

(** With an unknown key, the first sub-block already raises [KeyError]. *)
Lemma aggregation_key_error (cellfact : Z) (ign aggr_type : string)
                            (data : ndarray) (nrows ncols : Z) :
  0 < cellfact -> shape data = (nrows, ncols) -> 0 < nrows -> 0 < ncols ->
  ~ In aggr_type choices ->
  aggregation cellfact ign aggr_type data = raiseE (KeyError aggr_type).
Proof.
  intros Hf Hs Hr Hc Hnot. unfold aggregation. rewrite Hs.
  destruct (range_cons nrows cellfact Hf Hr) as (xs & ->).
  destruct (range_cons ncols cellfact Hf Hc) as (ys & Hys).
  simpl. rewrite Hys. simpl.
  unfold exec_cmd. rewrite dict_get_unknown by assumption. reflexivity.
Qed.

Lemma edge_extent_pos (expand : bool) (factor size : Z) :
  0 < factor -> factor <= size -> 0 < edge_extent expand factor size.
Proof.
  intros Hf Hs. unfold edge_extent.
  pose proof (Z.mod_pos_bound size factor Hf) as Hb.
  pose proof (Z.div_mod size factor ltac:(lia)) as Hd.
  assert (Hq : 1 <= size / factor)
    by (apply Z.div_le_lower_bound; lia).
  destruct (size mod factor =? 0); [lia |].
  destruct expand; [lia |].
  replace (size - size mod factor) with (factor * (size / factor)) by lia.
  nia.
Qed.

Lemma tile_extent_bounds (blockSize size cellfact : Z) :
  0 < cellfact -> cellfact <= size -> cellfact <= blockSize ->
  cellfact <= tile_extent 0 blockSize size /\ tile_extent 0 blockSize size <= size.
Proof.
  intros Hf Hs Hb. unfold tile_extent.
  destruct (0 + blockSize <? size) eqn:E.
  - apply Z.ltb_lt in E. lia.
  - lia.
Qed.

Lemma out_extent_run (expand : bool) (size cellfact : Z) :
  0 < cellfact -> exists n, out_extent expand size cellfact = retE n.
Proof.
  intros Hf. destruct expand.
  - eexists. now apply out_extent_expand.
  - eexists. now apply out_extent_shrink.
Qed.

(** C3, as the script has it.  Neither argument is checked before the run
    starts.  With a key outside the five statistics (and a factor of at
    least 1 on a raster of at least factor x factor cells) the run fails with
    [KeyError] when the first sub-block is reduced: the source has been
    opened, the output created and the first tile read, and nothing has
    been written.  With factor 0 the run fails with [ZeroDivisionError]
    once the source is opened, before the output is created or a tile is
    read.  A factor of 1 is not refused: on the raster of 1..16 the run
    completes. *)
Theorem bad_arguments_are_not_checked_first
    (inras : Dataset) (cellfact : Z) (aggr_type : string)
    (expand prop_nodata : bool) :
  wf_dataset inras ->
  0 < cellfact ->
  cellfact <= RasterYSize inras -> cellfact <= RasterXSize inras ->
  ~ In aggr_type choices ->
  (exists outCols outRows numCols numRows out,
     ras_aggregation_body inras cellfact aggr_type expand prop_nodata world0
     = ({| log := [EvOpen; EvCreate outCols outRows;
                   EvReadAsArray 0 0 numCols numRows];
           outDataset := Some out |},
        inl (KeyError aggr_type))) /\
  (forall (source : Dataset) (statistic : string) (e p : bool),
     ras_aggregation_body source 0 statistic e p world0
     = ({| log := [EvOpen]; outDataset := None |}, inl ZeroDivisionError)) /\
  (forall e p : bool,
     snd (ras_aggregation_body grid_1_16 1 "SUM" e p world0) = inr tt).
Proof.
  intros Hwf Hf Hrows Hcols Hnot. split; [| split].
  - destruct (out_extent_run expand (RasterYSize inras) cellfact Hf) as (outRows & ER).
    destruct (out_extent_run expand (RasterXSize inras) cellfact Hf) as (outCols & EC).
    destruct (range_cons (RasterYSize inras) (200 * cellfact)) as (is_ & EI); try lia.
    destruct (range_cons (RasterXSize inras) (200 * cellfact)) as (js & EJ); try lia.
    destruct (tile_extent_bounds (200 * cellfact) (RasterYSize inras) cellfact)
      as [HR1 HR2]; try lia.
    destruct (tile_extent_bounds (200 * cellfact) (RasterXSize inras) cellfact)
      as [HC1 HC2]; try lia.
    set (numRows := tile_extent 0 (200 * cellfact) (RasterYSize inras)) in *.
    set (numCols := tile_extent 0 (200 * cellfact) (RasterXSize inras)) in *.
    set (ND := match NoDataValue inras with None => default_ND | Some v => v end).
    destruct (normalize_window inras ND expand cellfact 0 numRows 0 numCols)
      as (data & En & Sn & Wn); try lia; try assumption.
    assert (Ea : aggregation cellfact (ign_of prop_nodata) aggr_type data
                 = raiseE (KeyError aggr_type)).
    { eapply aggregation_key_error; try eassumption;
        apply edge_extent_pos; lia. }
    exists outCols, outRows, numCols, numRows. eexists.
    unfold ras_aggregation_body, Open, Create, liftE, emit, ret, bind.
    cbv beta iota zeta. unfold world0. cbn [log outDataset app].
    rewrite ER. unfold retE at 1. cbv beta iota.
    rewrite EC. unfold retE at 1. cbv beta iota.
    rewrite EI. unfold retE at 1. cbv beta iota.
    rewrite forM__cons. unfold bind at 1. cbv beta iota.
    rewrite EJ. unfold retE at 1. cbv beta iota.
    rewrite forM__cons. unfold bind at 1.
    fold numRows. fold numCols. fold ND.
    unfold tile, bind. rewrite ReadAsArray_run.
    unfold liftE. rewrite En. unfold retE at 1. cbv beta iota.
    rewrite Ea. unfold raiseE. reflexivity.
  - intros source statistic e p.
    unfold ras_aggregation_body, bind, Open, emit, liftE, out_extent, mod_.
    reflexivity.
  - intros e p. destruct e, p; vm_compute; reflexivity.
Qed.

Lemma grid_1_16_wf : wf_dataset grid_1_16.
Proof.
  unfold wf_dataset, grid_1_16; simpl.
  repeat split; try lia. repeat constructor.
Qed.

Lemma median_is_no_choice : ~ In "MEDIAN" choices.
Proof. simpl. intuition discriminate. Qed.

Lemma bad_arguments_are_not_checked_first_witness :
  (exists outCols outRows numCols numRows out,
     ras_aggregation_body grid_1_16 2 "MEDIAN" false false world0
     = ({| log := [EvOpen; EvCreate outCols outRows;
                   EvReadAsArray 0 0 numCols numRows];
           outDataset := Some out |},
        inl (KeyError "MEDIAN"))) /\
  (forall (source : Dataset) (statistic : string) (e p : bool),
     ras_aggregation_body source 0 statistic e p world0
     = ({| log := [EvOpen]; outDataset := None |}, inl ZeroDivisionError)) /\
  (forall e p : bool,
     snd (ras_aggregation_body grid_1_16 1 "SUM" e p world0) = inr tt).
Proof.
  apply (bad_arguments_are_not_checked_first grid_1_16 2 "MEDIAN" false false).
  - exact grid_1_16_wf.
  - lia.
  - simpl. lia.
  - simpl. lia.
  - exact median_is_no_choice.
Defined.

(** A factor of 1, which is not greater than 1, makes no run fail: the
    tile is read and written.  An unknown statistic makes the run fail
    with [KeyError], and only after the source has been read. *)
Lemma no_early_invalid_argument :
  (let r := ras_aggregation grid_1_16 1 (Some "SUM") (Some false) (Some false) world0 in
   snd r = inr tt /\
   map shape (written (fst r)) = [(4, 4)]) /\
  (let r := ras_aggregation grid_1_16 2 (Some "MEDIAN") (Some false) (Some false) world0 in
   snd r = inl (KeyError "MEDIAN") /\
   log (fst r) = [EvOpen; EvCreate 2 2; EvReadAsArray 0 0 4 4]).
Proof.
  vm_compute. repeat split; reflexivity.
Qed.

(* ================================================================== *)
(** * The statistic keys, and a NoData value that is not a number *)
(* ================================================================== *)

(** X1. [functions[aggr_type]] succeeds exactly for the five statistics the
    command line admits, and then the statement built for either NoData
    policy names one of the modelled numpy reductions; for any other key it
    raises [KeyError] with that key. *)
Theorem statistic_key_resolves (aggr_type : string) :
  match dict_get functions aggr_type with
  | inr fname =>
      In aggr_type choices /\
      forall prop_nodata : bool,
        exists func, getattr (ign_of prop_nodata ++ fname)%string = retE func
  | inl e => ~ In aggr_type choices /\ e = KeyError aggr_type
  end.
Proof.
  destruct (in_dec string_dec aggr_type choices) as [Hin | Hnot].
  - assert (H := Hin). simpl in H.
    destruct H as [<- | [<- | [<- | [<- | [<- | []]]]]]; simpl;
      (split; [exact Hin |]); intros []; eexists; reflexivity.
  - rewrite dict_get_unknown by assumption. simpl. auto.
Qed.

Lemma equal_nan_r (v : float64) : equal v nan = false.
Proof. destruct v; reflexivity. Qed.

(** X2. When the NoData value is itself not-a-number, no cell compares
    equal to it and line 75 returns the tile as it was read. *)
Theorem nan_nodata_marks_nothing (array : ndarray) :
  where_eq_nan array nan = array.
Proof.
  destruct array as [sh rows]. unfold where_eq_nan. simpl. f_equal.
  rewrite <- (map_id rows) at 2. apply map_ext. intros row.
  rewrite <- (map_id row) at 2. apply map_ext. intros v.
  now rewrite equal_nan_r.
Qed.

(* ================================================================== *)
(** * Shrink mode does not look at the trailing cells *)
(* ================================================================== *)

Lemma edge_rules_shrink (cellfact numRows numCols : Z) (rows : list (list float64)) :
  0 < cellfact -> 0 <= numRows -> 0 <= numCols ->
  Z.of_nat (length rows) = numRows ->
  Forall (fun row => Z.of_nat (length row) = numCols) rows ->
  edge_cols_rule false cellfact numCols
    (edge_rows_rule false cellfact numRows numCols rows)
  = map (firstn (Z.to_nat (numCols - numCols mod cellfact)))
        (firstn (Z.to_nat (numRows - numRows mod cellfact)) rows).
Proof.
  intros Hf Hr Hc Hlen Hrows.
  pose proof (Z.mod_pos_bound numRows cellfact Hf) as Hbr.
  pose proof (Z.mod_pos_bound numCols cellfact Hf) as Hbc.
  assert (E1 : edge_rows_rule false cellfact numRows numCols rows
               = firstn (Z.to_nat (numRows - numRows mod cellfact)) rows).
  { unfold edge_rows_rule. destruct (numRows mod cellfact =? 0) eqn:Hm.
    - apply Z.eqb_eq in Hm. rewrite Hm, Z.sub_0_r.
      symmetry. apply firstn_all2. lia.
    - rewrite drop_last_firstn. f_equal. lia. }
  rewrite E1. unfold edge_cols_rule.
  assert (Hrows' : Forall (fun row => Z.of_nat (length row) = numCols)
                     (firstn (Z.to_nat (numRows - numRows mod cellfact)) rows))
    by now apply Forall_firstn.
  destruct (numCols mod cellfact =? 0) eqn:Hm.
  - apply Z.eqb_eq in Hm. rewrite Hm, Z.sub_0_r.
    rewrite <- (map_id (firstn _ rows)) at 1.
    apply map_ext_Forall. eapply Forall_impl; [| exact Hrows'].
    intros row Hrow. simpl in *. symmetry. apply firstn_all2. lia.
  - apply map_ext_Forall. eapply Forall_impl; [| exact Hrows'].
    intros row Hrow. simpl in *. rewrite drop_last_firstn. f_equal. lia.
Qed.

(** X3. In shrink mode the normalized buffer is made of the first
    [numRows - numRows mod cellfact] rows and
    [numCols - numCols mod cellfact] columns of the tile: two tiles of the
    same shape that agree there are normalized to the same buffer, whatever
    their trailing rows and columns hold. *)
Theorem shrink_ignores_trailing_cells (cellfact numRows numCols : Z)
                                      (d1 d2 : ndarray) :
  0 < cellfact ->
  wf_array d1 -> wf_array d2 ->
  shape d1 = (numRows, numCols) -> shape d2 = (numRows, numCols) ->
  map (firstn (Z.to_nat (numCols - numCols mod cellfact)))
      (firstn (Z.to_nat (numRows - numRows mod cellfact)) (items d1))
  = map (firstn (Z.to_nat (numCols - numCols mod cellfact)))
        (firstn (Z.to_nat (numRows - numRows mod cellfact)) (items d2)) ->
  exists out,
    normalize false cellfact numRows numCols d1 = retE out /\
    normalize false cellfact numRows numCols d2 = retE out.
Proof.
  intros Hf W1 W2 S1 S2 Hagree.
  destruct (expand_or_remove_rows_rule false cellfact numRows numCols d1 Hf W1 S1)
    as (a1 & Ea1 & Ia1 & Sa1 & Wa1).
  destruct (expand_or_remove_cols_rule false cellfact _ numCols a1 Hf Wa1 Sa1)
    as (b1 & Eb1 & Ib1 & Sb1 & Wb1).
  destruct (expand_or_remove_rows_rule false cellfact numRows numCols d2 Hf W2 S2)
    as (a2 & Ea2 & Ia2 & Sa2 & Wa2).
  destruct (expand_or_remove_cols_rule false cellfact _ numCols a2 Hf Wa2 Sa2)
    as (b2 & Eb2 & Ib2 & Sb2 & Wb2).
  assert (Hb : b1 = b2).
  { destruct b1 as [sh1 it1], b2 as [sh2 it2]. simpl in *.
    rewrite Sb1, Sb2. f_equal.
    rewrite Ib1, Ia1, Ib2, Ia2.
    destruct W1 as (H1 & H2 & H3 & H4), W2 as (H5 & H6 & H7 & H8).
    rewrite S1 in *. rewrite S2 in *. simpl in *.
    rewrite !edge_rules_shrink by assumption. exact Hagree. }
  exists b1. unfold normalize. rewrite Ea1, Ea2. simpl.
  rewrite Eb1, Eb2, Hb. auto.
Qed.

(* ================================================================== *)
(** * The tiles of an axis (lines 60-71) and where they are written *)
(* ================================================================== *)

Lemma axis_tiles_empty (size cellfact : Z) :
  0 < cellfact -> size <= 0 -> axis_tiles size cellfact = [].
Proof.
  intros Hf Hs. unfold axis_tiles. now rewrite range_empty by lia.
Qed.

(** All the tiles but the last are full; the last one takes what is left. *)
Lemma axis_tiles_shape (size cellfact : Z) :
  0 < cellfact -> 0 < size ->
  axis_tiles size cellfact
  = map (fun k => (Z.of_nat k * (200 * cellfact), 200 * cellfact))
        (seq 0 (Z.to_nat ((size - 1) / (200 * cellfact))))
    ++ [((size - 1) / (200 * cellfact) * (200 * cellfact),
         size - (size - 1) / (200 * cellfact) * (200 * cellfact))].
Proof.
  intros Hf Hs. unfold axis_tiles.
  set (B := 200 * cellfact). assert (HB : 0 < B) by (unfold B; lia).
  rewrite range_run by lia. unfold range_len.
  replace (0 <? B) with true by (symmetry; apply Z.ltb_lt; lia).
  replace (0 <? size) with true by (symmetry; apply Z.ltb_lt; lia).
  replace (size - 0 - 1) with (size - 1) by lia.
  pose proof (Z.div_mod (size - 1) B ltac:(lia)) as Hd.
  pose proof (Z.mod_pos_bound (size - 1) B HB) as Hb.
  assert (Hq : 0 <= (size - 1) / B) by (apply Z.div_pos; lia).
  remember ((size - 1) / B) as q eqn:Eq.
  remember ((size - 1) mod B) as r eqn:Er.
  replace (Z.to_nat (q + 1)) with (S (Z.to_nat q)) by lia.
  rewrite seq_S. unfold retE. cbv iota.
  rewrite !map_app, map_map. simpl. f_equal.
  - apply map_ext_in. intros k Hk. apply in_seq in Hk.
    f_equal. unfold tile_extent.
    replace (Z.of_nat k * B + B <? size) with true; [reflexivity |].
    symmetry. apply Z.ltb_lt. nia.
  - rewrite Z2Nat.id by lia. f_equal. f_equal. unfold tile_extent.
    replace (q * B + B <? size) with false; [reflexivity |].
    symmetry. apply Z.ltb_ge. nia.
Qed.

Lemma partitions_app (a b c : Z) (l1 l2 : list (Z * Z)) :
  partitions a l1 b -> partitions b l2 c -> partitions a (l1 ++ l2) c.
Proof.
  revert a. induction l1 as [| [s n] l1 IH]; intros a H1 H2; simpl in *.
  - now subst.
  - destruct H1 as (-> & Hn & H1). repeat split; auto.
Qed.

(** Consecutive pieces of the same extent. *)
Lemma partitions_regular (off ext : Z) (f : nat -> Z * Z) (s m : nat) :
  0 <= ext ->
  (forall k, (s <= k < s + m)%nat -> f k = (Z.of_nat k * off, ext)) ->
  off = ext ->
  partitions (Z.of_nat s * off) (map f (seq s m)) (Z.of_nat (s + m) * off).
Proof.
  intros He Hf Hoe. revert s Hf. induction m as [| m IH]; intros s Hf; simpl.
  - f_equal. f_equal. lia.
  - rewrite Hf by lia. repeat split; [assumption |].
    replace (Z.of_nat s * off + ext) with (Z.of_nat (S s) * off) by (subst; lia).
    replace (s + S m)%nat with (S s + m)%nat by lia.
    apply IH. intros k Hk. apply Hf. lia.
Qed.

Lemma removelast_app_one {A} (l : list A) (x : A) : removelast (l ++ [x]) = l.
Proof.
  rewrite removelast_app by discriminate. simpl. apply app_nil_r.
Qed.

Lemma edge_extent_of_multiple (expand : bool) (cellfact size : Z) :
  size mod cellfact = 0 -> edge_extent expand cellfact size = size.
Proof.
  intros H. unfold edge_extent. now rewrite H.
Qed.

(** What the loop bounds give for every tile of an axis. *)
Lemma axis_tiles_facts (expand : bool) (size cellfact : Z) :
  0 < cellfact -> 0 <= size ->
  partitions 0 (axis_tiles size cellfact) size /\
  Forall (fun t => fst t mod (200 * cellfact) = 0 /\
                   0 < snd t <= 200 * cellfact)
         (axis_tiles size cellfact) /\
  Forall (fun t => snd t = 200 * cellfact /\
                   edge_extent expand cellfact (snd t) = snd t)
         (removelast (axis_tiles size cellfact)).
Proof.
  intros Hf Hs.
  destruct (Z.eq_dec size 0) as [-> | Hnz].
  { rewrite axis_tiles_empty by lia. simpl. auto. }
  rewrite axis_tiles_shape by lia.
  set (B := 200 * cellfact). assert (HB : 0 < B) by (unfold B; lia).
  pose proof (Z.div_mod (size - 1) B ltac:(lia)) as Hd.
  pose proof (Z.mod_pos_bound (size - 1) B HB) as Hb.
  assert (Hq : 0 <= (size - 1) / B) by (apply Z.div_pos; lia).
  remember ((size - 1) / B) as q eqn:Eq.
  remember ((size - 1) mod B) as r eqn:Er.
  split; [| split].
  - eapply partitions_app.
    + apply (partitions_regular B B _ 0 (Z.to_nat q)); [lia | | reflexivity].
      intros k _. reflexivity.
    + simpl. rewrite Z2Nat.id by lia. repeat split; lia.
  - apply Forall_app. split.
    + apply Forall_map, Forall_forall. intros k _. simpl.
      split; [apply Z.mod_mul; lia | lia].
    + constructor; [| constructor]. simpl.
      split; [apply Z.mod_mul; lia | nia].
  - rewrite removelast_app_one.
    apply Forall_map, Forall_forall. intros k _. simpl.
    split; [reflexivity |].
    apply edge_extent_of_multiple. unfold B.
    apply Z.mod_mul. lia.
Qed.

(** X4. The tiles of an axis leave no gap and do not overlap: they follow
    one another from 0 to the size of the axis.  Each starts at a multiple
    of [200 * cellfact] and has between 1 and [200 * cellfact] cells; every
    tile but the last has exactly [200 * cellfact] cells, so that the edge
    rule leaves it as it is in both modes. *)
Theorem axis_tiles_partition (expand : bool) (size cellfact : Z) :
  0 < cellfact -> 0 <= size ->
  partitions 0 (axis_tiles size cellfact) size /\
  Forall (fun t => fst t mod (200 * cellfact) = 0 /\
                   0 < snd t <= 200 * cellfact)
         (axis_tiles size cellfact) /\
  Forall (fun t => snd t = 200 * cellfact /\
                   edge_extent expand cellfact (snd t) = snd t)
         (removelast (axis_tiles size cellfact)).
Proof.
  intros Hf Hs.
  destruct (axis_tiles_facts expand size cellfact Hf Hs) as (Hp & Hb & Hfull).
  split; [exact Hp |]. split; [exact Hb | exact Hfull].
Qed.

Lemma axis_tiles_partition_witness :
  partitions 0 (axis_tiles 401 2) 401 /\
  Forall (fun t => fst t mod (200 * 2) = 0 /\ 0 < snd t <= 200 * 2)
         (axis_tiles 401 2) /\
  Forall (fun t => snd t = 200 * 2 /\ edge_extent true 2 (snd t) = snd t)
         (removelast (axis_tiles 401 2)).
Proof.
  apply (axis_tiles_partition true 401 2); lia.
Defined.

Lemma ceil_div_inexact (a b : Z) :
  0 < b -> a mod b <> 0 -> ceil_div a b = a / b + 1.
Proof.
  intros Hb Hm. unfold ceil_div.
  pose proof (Z.mod_pos_bound a b Hb) as Hr.
  pose proof (Z.div_mod a b ltac:(lia)) as Hd.
  remember (a / b) as q eqn:Hq. remember (a mod b) as r eqn:Er.
  assert (H : - a = (- q - 1) * b + (b - r)) by (rewrite Hd; ring).
  rewrite H, Z.div_add_l by lia. rewrite Z.div_small by lia. lia.
Qed.

Lemma ceil_div_add (k n b : Z) :
  0 < b -> ceil_div (k * b + n) b = k + ceil_div n b.
Proof.
  intros Hb. unfold ceil_div.
  replace (- (k * b + n)) with ((- k) * b + (- n)) by ring.
  rewrite Z.div_add_l by lia. lia.
Qed.

(** The extent of a tile in the output. *)
Lemma edge_extent_div (expand : bool) (cellfact n : Z) :
  0 < cellfact ->
  edge_extent expand cellfact n / cellfact
  = if expand then ceil_div n cellfact else n / cellfact.
Proof.
  intros Hf. unfold edge_extent.
  pose proof (Z.mod_pos_bound n cellfact Hf) as Hr.
  pose proof (Z.div_mod n cellfact ltac:(lia)) as Hd.
  destruct (n mod cellfact =? 0) eqn:Hm.
  - apply Z.eqb_eq in Hm. destruct expand; [| reflexivity].
    symmetry. now apply ceil_div_exact.
  - apply Z.eqb_neq in Hm. destruct expand.
    + rewrite ceil_div_inexact by assumption.
      remember (n / cellfact) as q eqn:Hq. remember (n mod cellfact) as r eqn:Er.
      replace (n + (cellfact - r)) with ((q + 1) * cellfact) by (rewrite Hd; ring).
      apply Z.div_mul. lia.
    + remember (n / cellfact) as q eqn:Hq. remember (n mod cellfact) as r eqn:Er.
      replace (n - r) with (q * cellfact) by (rewrite Hd; ring).
      apply Z.div_mul. lia.
Qed.

Lemma ceil_div_nonneg (n b : Z) : 0 < b -> 0 <= n -> 0 <= ceil_div n b.
Proof.
  intros Hb Hn. destruct (Z.eq_dec (n mod b) 0) as [H | H].
  - rewrite ceil_div_exact by assumption. apply Z.div_pos; lia.
  - rewrite ceil_div_inexact by assumption.
    pose proof (Z.div_pos n b Hn Hb). lia.
Qed.

(** Where the tiles of an axis land in the output. *)
Lemma out_tiles_partition (expand : bool) (size cellfact : Z) :
  0 < cellfact -> 0 <= size ->
  partitions 0 (map (out_tile expand cellfact) (axis_tiles size cellfact))
             (if expand then ceil_div size cellfact else size / cellfact).
Proof.
  intros Hf Hs.
  destruct (Z.eq_dec size 0) as [-> | Hnz].
  { rewrite axis_tiles_empty by lia. simpl. now destruct expand. }
  rewrite axis_tiles_shape by lia.
  set (B := 200 * cellfact). assert (HB : 0 < B) by (unfold B; lia).
  pose proof (Z.div_mod (size - 1) B ltac:(lia)) as Hd.
  pose proof (Z.mod_pos_bound (size - 1) B HB) as Hb.
  assert (Hq : 0 <= (size - 1) / B) by (apply Z.div_pos; lia).
  remember ((size - 1) / B) as q eqn:Eq.
  remember ((size - 1) mod B) as r eqn:Er.
  rewrite map_app, map_map.
  eapply partitions_app.
  - apply (partitions_regular 200 200 _ 0 (Z.to_nat q)); [lia | | reflexivity].
    intros k _. unfold out_tile. simpl. f_equal.
    + unfold B. replace (Z.of_nat k * (200 * cellfact))
        with (Z.of_nat k * 200 * cellfact) by ring.
      apply Z.div_mul. lia.
    + rewrite edge_extent_of_multiple by (unfold B; apply Z.mod_mul; lia).
      unfold B. apply Z.div_mul. lia.
  - simpl. unfold out_tile. simpl.
    rewrite Z2Nat.id by lia.
    set (n := size - q * B). assert (Hn : 0 < n <= B) by (unfold n; nia).
    assert (Hsize : size = (q * 200) * cellfact + n) by (unfold n, B; ring).
    split; [| split].
    + unfold B. replace (q * (200 * cellfact)) with (q * 200 * cellfact) by ring.
      apply Z.div_mul. lia.
    + rewrite edge_extent_div by assumption.
      destruct expand; [apply ceil_div_nonneg; lia | apply Z.div_pos; lia].
    + rewrite edge_extent_div by assumption.
      replace (q * B / cellfact) with (q * 200)
        by (unfold B; replace (q * (200 * cellfact)) with (q * 200 * cellfact) by ring;
            symmetry; apply Z.div_mul; lia).
      clearbody n.
      destruct expand; rewrite Hsize.
      * now rewrite ceil_div_add.
      * now rewrite Z.div_add_l by lia.
Qed.

Lemma ceil_div_le_out_size (expand : bool) (size cellfact : Z) :
  0 < cellfact ->
  (if expand then ceil_div size cellfact else size / cellfact)
  <= out_size expand size cellfact.
Proof.
  intros Hf. unfold out_size. destruct expand; [| lia].
  destruct (Z.eq_dec (size mod cellfact) 0) as [H | H].
  - rewrite ceil_div_exact by assumption. lia.
  - rewrite ceil_div_inexact by assumption. lia.
Qed.

Lemma out_extent_size (expand : bool) (size cellfact : Z) :
  0 < cellfact ->
  out_extent expand size cellfact = retE (out_size expand size cellfact).
Proof.
  intros Hf. unfold out_size. destruct expand.
  - now apply out_extent_expand.
  - now apply out_extent_shrink.
Qed.

(** X5. In the output, the tiles of an axis are written one after the
    other from row (column) 0, without gap or overlap, up to
    [floor(size / cellfact)] in shrink mode and to [ceil(size / cellfact)]
    in expand mode; this end is within the extent lines 44-49 give to the
    output, so that no tile is written outside of it. *)
Theorem written_tiles_partition_output (expand : bool) (size cellfact : Z) :
  0 < cellfact -> 0 <= size ->
  let written_to := if expand then ceil_div size cellfact else size / cellfact in
  partitions 0 (map (out_tile expand cellfact) (axis_tiles size cellfact)) written_to /\
  exists outSize,
    out_extent expand size cellfact = retE outSize /\ written_to <= outSize.
Proof.
  intros Hf Hs. cbv zeta. split.
  - now apply out_tiles_partition.
  - exists (out_size expand size cellfact). split.
    + now apply out_extent_size.
    + now apply ceil_div_le_out_size.
Qed.

Lemma written_tiles_partition_output_witness :
  let written_to := if true then ceil_div 401 2 else 401 / 2 in
  partitions 0 (map (out_tile true 2) (axis_tiles 401 2)) written_to /\
  exists outSize,
    out_extent true 401 2 = retE outSize /\ written_to <= outSize.
Proof.
  apply (written_tiles_partition_output true 401 2); lia.
Defined.

(* ================================================================== *)
(** * The aggregated tile, cell by cell (lines 100-107) *)
(* ================================================================== *)

Lemma range_multiple (n step : Z) :
  0 < step -> 0 <= n -> n mod step = 0 ->
  range 0 n step
  = retE (map (fun k => Z.of_nat k * step) (seq 0 (Z.to_nat (n / step)))).
Proof.
  intros Hs Hn Hm. rewrite range_run by lia. f_equal.
  assert (Hl : range_len 0 n step = n / step).
  { unfold range_len.
    replace (0 <? step) with true by (symmetry; apply Z.ltb_lt; lia).
    apply Z.div_exact in Hm; [| lia].
    remember (n / step) as q eqn:Hq.
    destruct (0 <? n) eqn:Hpos.
    - apply Z.ltb_lt in Hpos.
      assert (1 <= q) by nia.
      replace (n - 0 - 1) with ((q - 1) * step + (step - 1)) by (rewrite Hm; ring).
      rewrite Z.div_add_l by lia. rewrite Z.div_small by lia. lia.
    - apply Z.ltb_ge in Hpos. nia. }
  rewrite Hl. apply map_ext. intros k. lia.
Qed.

Lemma foldE_append {A} (f : A -> E float64) (g : A -> float64)
                   (xs : list A) (acc : list float64) :
  (forall x, In x xs -> f x = retE (g x)) ->
  foldE (fun acc x => v <-? f x ;; retE (acc ++ [v])) xs acc
  = retE (acc ++ map g xs).
Proof.
  revert acc. induction xs as [| x xs IH]; intros acc H; simpl.
  - now rewrite app_nil_r.
  - rewrite (H x) by now left. simpl.
    rewrite IH by (intros; apply H; now right).
    now rewrite <- app_assoc.
Qed.

Lemma foldE_concat {A B} (body : list B -> A -> E (list B)) (h : A -> list B)
                   (xs : list A) (acc : list B) :
  (forall acc x, In x xs -> body acc x = retE (acc ++ h x)) ->
  foldE body xs acc = retE (acc ++ concat (map h xs)).
Proof.
  revert acc. induction xs as [| x xs IH]; intros acc H; simpl.
  - now rewrite app_nil_r.
  - rewrite (H acc x) by now left. simpl.
    rewrite IH by (intros; apply H; now right).
    now rewrite <- app_assoc.
Qed.

Lemma length_concat_regular {A} (rows : list (list A)) (c : nat) :
  Forall (fun row => length row = c) rows ->
  length (concat rows) = (length rows * c)%nat.
Proof.
  induction 1 as [| row rows Hrow Hrows IH]; simpl; [reflexivity |].
  rewrite length_app, IH, Hrow. reflexivity.
Qed.

(** Cutting a concatenation of rows of the same length gives the rows
    back. *)
Lemma chunks_concat {A} (rows : list (list A)) (c : nat) :
  Forall (fun row => length row = c) rows ->
  map (fun k => firstn c (skipn (k * c) (concat rows))) (seq 0 (length rows))
  = rows.
Proof.
  induction 1 as [| row rows Hrow Hrows IH]; simpl; [reflexivity |].
  f_equal.
  - rewrite firstn_app, Hrow, Nat.sub_diag. simpl.
    rewrite app_nil_r. apply firstn_all2. lia.
  - rewrite <- seq_shift, map_map. rewrite <- IH at 2.
    apply map_ext. intros k. f_equal.
    replace (S k * c)%nat with (k * c + c)%nat by lia.
    rewrite <- skipn_skipn. f_equal.
    rewrite skipn_app, Hrow, Nat.sub_diag. simpl.
    rewrite skipn_all2 by lia. reflexivity.
Qed.

Lemma variant_value (f f' : list float64 -> E float64) (a : list float64) :
  a <> [] ->
  (f = amax /\ f' = nanmax) \/ (f = amin /\ f' = nanmin) \/
  (f = mean /\ f' = nanmean) \/ (f = sum /\ f' = nansum) \/
  (f = std /\ f' = nanstd) ->
  exists v, f' a = retE v.
Proof.
  intros Ha H. destruct a as [| x a]; [congruence |].
  destruct H as [[_ ->] | [[_ ->] | [[_ ->] | [[_ ->] | [_ ->]]]]];
    eexists; reflexivity.
Qed.

(** A sub-block that lies inside the buffer has a cell. *)
Lemma block_nonempty (cellfact x y : Z) (data : ndarray) :
  0 < cellfact -> wf_array data ->
  0 <= x -> cellfact + x <= fst (shape data) ->
  0 <= y -> cellfact + y <= snd (shape data) ->
  ravel (getitem x (cellfact + x) y (cellfact + y) data) <> [].
Proof.
  intros Hf (Hr & Hc & Hlen & Hrows) Hx Hxb Hy Hyb.
  unfold ravel, getitem, getcols, getrows. simpl.
  assert (Hl : Z.of_nat (length (slice x (cellfact + x) (items data))) = cellfact)
    by (rewrite length_slice by lia; lia).
  assert (Hsub : Forall (fun row => Z.of_nat (length row) = snd (shape data))
                   (slice x (cellfact + x) (items data)))
    by (unfold slice; now apply Forall_firstn, Forall_skipn).
  destruct (slice x (cellfact + x) (items data)) as [| row rows];
    [simpl in Hl; lia |].
  apply Forall_inv in Hsub. simpl in Hsub. simpl.
  assert (Hl2 : Z.of_nat (length (slice y (cellfact + y) row)) = cellfact)
    by (rewrite length_slice by lia; lia).
  destruct (slice y (cellfact + y) row); [simpl in Hl2; lia | discriminate].
Qed.

(** The statement built for a known key returns a scalar on a sub-block
    that has a cell. *)
Lemma exec_cmd_value (prop_nodata : bool) (aggr_type : string) (block : ndarray) :
  In aggr_type choices -> ravel block <> [] ->
  exists v, exec_cmd (ign_of prop_nodata) aggr_type block = retE v.
Proof.
  intros Hin Hne.
  destruct (exec_cmd_key aggr_type block Hin) as (f & f' & E1 & E2 & _ & Hk).
  destruct prop_nodata.
  - rewrite E1. now apply (reduction_value f f').
  - rewrite E2. now apply (variant_value f f').
Qed.

Lemma block_value_run (prop_nodata : bool) (aggr_type : string)
                      (cellfact x y : Z) (data : ndarray) :
  In aggr_type choices ->
  0 < cellfact -> wf_array data ->
  0 <= x -> cellfact + x <= fst (shape data) ->
  0 <= y -> cellfact + y <= snd (shape data) ->
  exec_cmd (ign_of prop_nodata) aggr_type
    (getitem x (cellfact + x) y (cellfact + y) data)
  = retE (block_value cellfact (ign_of prop_nodata) aggr_type data x y).
Proof.
  intros Hin Hf Hwf Hx Hxb Hy Hyb.
  destruct (exec_cmd_value prop_nodata aggr_type
              (getitem x (cellfact + x) y (cellfact + y) data) Hin) as (v & Hv).
  - now apply block_nonempty.
  - unfold block_value. now rewrite Hv.
Qed.

Lemma multiple_index_bound (k : nat) (n step : Z) :
  0 < step -> 0 <= n -> n mod step = 0 ->
  (k < Z.to_nat (n / step))%nat ->
  0 <= Z.of_nat k * step /\ step + Z.of_nat k * step <= n.
Proof.
  intros Hs Hn Hm Hk.
  apply Z.div_exact in Hm; [| lia].
  remember (n / step) as q eqn:Hq. nia.
Qed.

(** The aggregation of a normalized buffer succeeds and is the buffer's
    sub-block scalars, laid out row by row. *)
Lemma aggregation_run (prop_nodata : bool) (aggr_type : string)
                      (cellfact : Z) (data : ndarray) :
  In aggr_type choices ->
  0 < cellfact -> wf_array data ->
  fst (shape data) mod cellfact = 0 -> snd (shape data) mod cellfact = 0 ->
  aggregation cellfact (ign_of prop_nodata) aggr_type data
  = retE (aggregated cellfact (ign_of prop_nodata) aggr_type data).
Proof.
  intros Hin Hf Hwf Hmr Hmc.
  pose proof Hwf as (Hr & Hc & Hlen & Hrows).
  unfold aggregation, aggregated.
  destruct (shape data) as [nrows ncols] eqn:Hs. simpl in *.
  rewrite (range_multiple nrows cellfact) by assumption. simpl.
  set (R := Z.to_nat (nrows / cellfact)).
  set (C := Z.to_nat (ncols / cellfact)).
  set (g := block_value cellfact (ign_of prop_nodata) aggr_type data).
  rewrite (foldE_concat _
             (fun x => map (fun c => g x (Z.of_nat c * cellfact)) (seq 0 C))).
  2:{ intros acc x Hx. apply in_map_iff in Hx. destruct Hx as (k & <- & Hk).
      apply in_seq in Hk.
      rewrite (range_multiple ncols cellfact) by assumption. simpl.
      rewrite (foldE_append _ (g (Z.of_nat k * cellfact))).
      - now rewrite map_map.
      - intros y Hy. apply in_map_iff in Hy. destruct Hy as (j & <- & Hj).
        apply in_seq in Hj.
        destruct (multiple_index_bound k nrows cellfact) as [Hx1 Hx2];
          try assumption; [fold R; lia |].
        destruct (multiple_index_bound j ncols cellfact) as [Hy1 Hy2];
          try assumption; [fold C; lia |].
        apply block_value_run; try assumption; rewrite Hs; simpl; assumption. }
  simpl. rewrite !floordiv_run by lia. simpl.
  rewrite map_map.
  set (rows := map (fun k => map (fun c => g (Z.of_nat k * cellfact)
                                              (Z.of_nat c * cellfact)) (seq 0 C))
                   (seq 0 R)).
  assert (Hreg : Forall (fun row => length row = C) rows).
  { apply Forall_map, Forall_forall. intros k _.
    now rewrite length_map, length_seq. }
  assert (HR : length rows = R) by (unfold rows; now rewrite length_map, length_seq).
  pose proof (Z.div_pos nrows cellfact Hr Hf) as HRp.
  pose proof (Z.div_pos ncols cellfact Hc Hf) as HCp.
  unfold reshape.
  rewrite (length_concat_regular rows C Hreg), HR.
  replace ((Z.of_nat (R * C) =? nrows / cellfact * (ncols / cellfact))
           && (0 <=? nrows / cellfact) && (0 <=? ncols / cellfact)) with true.
  2:{ symmetry. repeat (apply andb_true_iff; split);
        [apply Z.eqb_eq; unfold R, C; lia | now apply Z.leb_le | now apply Z.leb_le]. }
  unfold retE. f_equal. f_equal.
  fold R. fold C. rewrite <- HR at 1. now apply chunks_concat.
Qed.

(* ================================================================== *)
(** * Whole runs *)
(* ================================================================== *)

Lemma replay_app (e1 e2 : list event) (cells : list (list float64)) :
  replay (e1 ++ e2) cells = replay e2 (replay e1 cells).
Proof. unfold replay. apply fold_left_app. Qed.

Lemma apply_events_nil (w : world) : apply_events [] w = w.
Proof.
  destruct w as [l [[x y nd px] |]]; unfold apply_events; simpl;
    now rewrite app_nil_r.
Qed.

Lemma apply_events_app (e1 e2 : list event) (w : world) :
  apply_events e2 (apply_events e1 w) = apply_events (e1 ++ e2) w.
Proof.
  destruct w as [l [[x y nd px] |]]; unfold apply_events; simpl;
    rewrite <- app_assoc; [now rewrite replay_app | reflexivity].
Qed.

Lemma forM__map {A B} (f : A -> B) (xs : list A) (body : B -> M unit) :
  forM_ (map f xs) body = forM_ xs (fun x => body (f x)).
Proof.
  induction xs as [| x xs IH]; simpl; [reflexivity | now rewrite IH].
Qed.

(** A loop whose every pass is accepted makes the calls of its passes, in
    order. *)
Lemma forM__events {A} (Inv : world -> Prop) (R : A -> Prop)
                   (ev : A -> list event) (body : A -> M unit) (xs : list A) :
  (forall x w, R x -> Inv w -> body x w = (apply_events (ev x) w, inr tt)) ->
  (forall evs w, Inv w -> Inv (apply_events evs w)) ->
  Forall R xs ->
  forall w, Inv w ->
  forM_ xs body w = (apply_events (flat_map ev xs) w, inr tt).
Proof.
  intros Hbody Hinv HR. induction HR as [| x xs Hx Hxs IH]; intros w Hw; simpl.
  - unfold ret. now rewrite apply_events_nil.
  - unfold bind. rewrite Hbody by assumption.
    rewrite IH by now apply Hinv. now rewrite apply_events_app.
Qed.

Lemma WriteArray_run (array : ndarray) (xoff yoff : Z) (w : world) (out : Dataset) :
  outDataset w = Some out ->
  snd (shape array) + xoff <= RasterXSize out ->
  fst (shape array) + yoff <= RasterYSize out ->
  WriteArray array xoff yoff w
  = (apply_events [EvWriteArray array xoff yoff] w, inr tt).
Proof.
  intros Hout Hx Hy. unfold WriteArray, bind, emit, apply_events. simpl.
  rewrite Hout. destruct (shape array) as [ysize xsize]. simpl in *.
  replace ((RasterXSize out <? xsize + xoff) || (RasterYSize out <? ysize + yoff))
    with false; [reflexivity |].
  symmetry. apply orb_false_iff. split; apply Z.ltb_ge; lia.
Qed.

(** One tile of a run: its read and its write are both accepted. *)
Lemma tile_run (dataset : Dataset) (cellfact : Z) (aggr_type : string)
               (expand prop_nodata : bool) (ti tj : Z * Z)
               (w : world) (out : Dataset) :
  In aggr_type choices -> 0 < cellfact -> wf_dataset dataset ->
  0 <= fst ti -> 0 <= snd ti -> fst ti + snd ti <= RasterYSize dataset ->
  0 <= fst tj -> 0 <= snd tj -> fst tj + snd tj <= RasterXSize dataset ->
  outDataset w = Some out ->
  fst tj / cellfact + edge_extent expand cellfact (snd tj) / cellfact
    <= RasterXSize out ->
  fst ti / cellfact + edge_extent expand cellfact (snd ti) / cellfact
    <= RasterYSize out ->
  tile dataset (nodata_of dataset) cellfact aggr_type expand (ign_of prop_nodata)
       (fst ti) (snd ti) (fst tj) (snd tj) w
  = (apply_events
       (tile_events dataset cellfact aggr_type expand (ign_of prop_nodata) ti tj) w,
     inr tt).
Proof.
  intros Hin Hf Hds Hi Hni Hib Hj Hnj Hjb Hout Hxb Hyb.
  destruct (normalize_window dataset (nodata_of dataset) expand cellfact
              (fst ti) (snd ti) (fst tj) (snd tj))
    as (data & En & Sn & Wn); try assumption.
  assert (Hnt : normalized_tile dataset expand cellfact ti tj = data)
    by (unfold normalized_tile; now rewrite En).
  assert (Ea : aggregation cellfact (ign_of prop_nodata) aggr_type data
               = retE (aggregated cellfact (ign_of prop_nodata) aggr_type data)).
  { apply aggregation_run; try assumption; rewrite Sn; simpl;
      now apply edge_extent_multiple. }
  unfold tile, bind. rewrite ReadAsArray_run.
  unfold liftE. rewrite En. unfold retE at 1. cbv beta iota.
  rewrite Ea. unfold retE at 1. cbv beta iota.
  rewrite !floordiv_run by lia. unfold retE. cbv beta iota.
  rewrite (WriteArray_run _ _ _ _ out); try assumption.
  - f_equal. unfold tile_events. rewrite Hnt.
    unfold apply_events. simpl. rewrite Hout. now rewrite <- app_assoc.
  - simpl. rewrite Sn. simpl. lia.
  - simpl. rewrite Sn. simpl. lia.
Qed.

Lemma partitions_bounds (a b : Z) (l : list (Z * Z)) :
  partitions a l b ->
  a <= b /\ Forall (fun t => a <= fst t /\ fst t + snd t <= b) l.
Proof.
  revert a. induction l as [| [s n] l IH]; intros a H; simpl in H.
  - subst. split; [lia | constructor].
  - destruct H as (-> & Hn & H). destruct (IH _ H) as [Hle Hall].
    split; [lia |]. constructor; [simpl; lia |].
    eapply Forall_impl; [| exact Hall]. intros t Ht. simpl in *. lia.
Qed.

Lemma range_axis_tiles (size cellfact : Z) :
  0 < cellfact ->
  range 0 size (200 * cellfact) = retE (map fst (axis_tiles size cellfact)).
Proof.
  intros Hf. unfold axis_tiles. rewrite range_run by lia. simpl.
  rewrite map_map. simpl. now rewrite map_id.
Qed.

Lemma axis_tiles_fit (expand : bool) (size cellfact : Z) :
  0 < cellfact -> 0 <= size ->
  Forall (tile_fits expand size cellfact) (axis_tiles size cellfact).
Proof.
  intros Hf Hs.
  destruct (axis_tiles_facts expand size cellfact Hf Hs) as (Hp & Hb & _).
  destruct (partitions_bounds _ _ _ Hp) as [_ Hin].
  pose proof (out_tiles_partition expand size cellfact Hf Hs) as Hop.
  destruct (partitions_bounds _ _ _ Hop) as [_ Hout].
  rewrite Forall_map in Hout.
  pose proof (ceil_div_le_out_size expand size cellfact Hf) as Hle.
  rewrite Forall_forall in *. intros t Ht.
  specialize (Hb t Ht). specialize (Hin t Ht). specialize (Hout t Ht).
  unfold out_tile in Hout. simpl in Hout.
  unfold tile_fits. repeat split; try lia.
  unfold axis_tiles in Ht. rewrite range_run in Ht by lia. simpl in Ht.
  apply in_map_iff in Ht. destruct Ht as (i & <- & _). reflexivity.
Qed.

Lemma output_created_kept (dataset : Dataset) (expand : bool) (cellfact : Z)
                          (evs : list event) (w : world) :
  output_created dataset expand cellfact w ->
  output_created dataset expand cellfact (apply_events evs w).
Proof.
  intros (out & Ho & Hx & Hy). unfold output_created, apply_events. simpl.
  rewrite Ho. eexists. split; [reflexivity |]. simpl. auto.
Qed.

(** One row of tiles (lines 67-110). *)
Lemma tile_row_run (dataset : Dataset) (cellfact : Z) (aggr_type : string)
                   (expand prop_nodata : bool) (ti : Z * Z) (w : world) :
  In aggr_type choices -> 0 < cellfact -> wf_dataset dataset ->
  tile_fits expand (RasterYSize dataset) cellfact ti ->
  output_created dataset expand cellfact w ->
  forM_ (map fst (axis_tiles (RasterXSize dataset) cellfact))
        (fun j =>
           tile dataset (nodata_of dataset) cellfact aggr_type expand
                (ign_of prop_nodata)
                (fst ti) (tile_extent (fst ti) (200 * cellfact) (RasterYSize dataset))
                j (tile_extent j (200 * cellfact) (RasterXSize dataset))) w
  = (apply_events
       (flat_map (tile_events dataset cellfact aggr_type expand
                              (ign_of prop_nodata) ti)
                 (axis_tiles (RasterXSize dataset) cellfact)) w,
     inr tt).
Proof.
  intros Hin Hf Hds (Hi & Hni & Hib & Hei & Hoi) Hw.
  pose proof Hds as (Hx & Hy & _).
  rewrite forM__map.
  apply (forM__events (output_created dataset expand cellfact)
                      (tile_fits expand (RasterXSize dataset) cellfact)).
  - intros tj w' (Hj & Hnj & Hjb & Hej & Hoj) (out & Ho & Hox & Hoy).
    rewrite Hei, Hej.
    apply (tile_run dataset cellfact aggr_type expand prop_nodata ti tj w' out);
      try assumption; lia.
  - intros evs w' Hw'. now apply output_created_kept.
  - now apply axis_tiles_fit.
  - assumption.
Qed.

(** A run on a well-formed raster, with a positive factor and one of the
    five statistics: every call is accepted. *)
Lemma run_completes (inras : Dataset) (cellfact : Z) (aggr_type : string)
                    (expand prop_nodata : bool) :
  wf_dataset inras -> 0 < cellfact -> In aggr_type choices ->
  ras_aggregation_body inras cellfact aggr_type expand prop_nodata world0
  = (apply_events
       (all_tile_events inras cellfact aggr_type expand (ign_of prop_nodata))
       (world_created inras expand cellfact),
     inr tt).
Proof.
  intros Hds Hf Hin. pose proof Hds as (Hx & Hy & _).
  unfold ras_aggregation_body, Open, Create, liftE, emit, ret, bind.
  cbv beta iota zeta. unfold world0. cbn [log outDataset app].
  rewrite !out_extent_size by assumption. unfold retE at 1 2. cbv beta iota.
  rewrite (range_axis_tiles (RasterYSize inras)) by assumption.
  unfold retE at 1. cbv beta iota.
  rewrite forM__map.
  apply (forM__events (output_created inras expand cellfact)
                      (tile_fits expand (RasterYSize inras) cellfact)).
  - intros ti w Hti Hw.
    rewrite (range_axis_tiles (RasterXSize inras)) by assumption.
    unfold retE. cbv beta iota.
    now apply tile_row_run.
  - intros evs w Hw. now apply output_created_kept.
  - now apply axis_tiles_fit.
  - eexists. split; [reflexivity |]. simpl. auto.
Qed.

Lemma nth_map_seq {A} (f : nat -> A) (n k : nat) (d : A) :
  (k < n)%nat -> nth k (map f (seq 0 n)) d = f k.
Proof.
  intros Hk.
  rewrite (nth_indep _ d (f 0%nat)) by now rewrite length_map, length_seq.
  rewrite map_nth. now rewrite seq_nth.
Qed.

(** X6. On a normalized buffer (a well-formed array whose extents are
    multiples of the factor) and for one of the five statistics, lines
    100-107 succeed; the aggregated array has [nrows / cellfact] rows and
    [ncols / cellfact] columns, and its cell at row [r] and column [c] is
    the scalar the built statement returns on the sub-block that starts at
    row [r * cellfact] and column [c * cellfact]. *)
Theorem aggregation_cell_by_cell (prop_nodata : bool) (aggr_type : string)
                                 (cellfact : Z) (data : ndarray) :
  In aggr_type choices ->
  0 < cellfact -> wf_array data ->
  fst (shape data) mod cellfact = 0 -> snd (shape data) mod cellfact = 0 ->
  exists array,
    aggregation cellfact (ign_of prop_nodata) aggr_type data = retE array /\
    shape array = (fst (shape data) / cellfact, snd (shape data) / cellfact) /\
    wf_array array /\
    forall r c : nat,
      Z.of_nat r < fst (shape data) / cellfact ->
      Z.of_nat c < snd (shape data) / cellfact ->
      exec_cmd (ign_of prop_nodata) aggr_type
        (getitem (Z.of_nat r * cellfact) (cellfact + Z.of_nat r * cellfact)
                 (Z.of_nat c * cellfact) (cellfact + Z.of_nat c * cellfact) data)
      = retE (nth c (nth r (items array) []) nan).
Proof.
  intros Hin Hf Hwf Hmr Hmc.
  pose proof Hwf as (Hr & Hc & _).
  pose proof (Z.div_pos _ _ Hr Hf) as HR.
  pose proof (Z.div_pos _ _ Hc Hf) as HC.
  exists (aggregated cellfact (ign_of prop_nodata) aggr_type data).
  split; [now apply aggregation_run |]. split; [reflexivity |]. split.
  - unfold wf_array, aggregated. simpl.
    repeat split; try assumption.
    + rewrite length_map, length_seq. lia.
    + apply Forall_map, Forall_forall. intros k _.
      rewrite length_map, length_seq. lia.
  - intros r c Hrr Hcc. unfold aggregated. simpl.
    rewrite (nth_map_seq _ _ r) by lia.
    rewrite (nth_map_seq _ _ c) by lia.
    destruct (multiple_index_bound r (fst (shape data)) cellfact) as [Hx1 Hx2];
      try assumption; [lia |].
    destruct (multiple_index_bound c (snd (shape data)) cellfact) as [Hy1 Hy2];
      try assumption; [lia |].
    now apply block_value_run.
Qed.

Lemma aggregation_cell_by_cell_witness :
  exists array,
    aggregation 3 (ign_of true) "SUM" tile_3x3 = retE array /\
    shape array = (fst (shape tile_3x3) / 3, snd (shape tile_3x3) / 3) /\
    wf_array array /\
    forall r c : nat,
      Z.of_nat r < fst (shape tile_3x3) / 3 ->
      Z.of_nat c < snd (shape tile_3x3) / 3 ->
      exec_cmd (ign_of true) "SUM"
        (getitem (Z.of_nat r * 3) (3 + Z.of_nat r * 3)
                 (Z.of_nat c * 3) (3 + Z.of_nat c * 3) tile_3x3)
      = retE (nth c (nth r (items array) []) nan).
Proof.
  apply (aggregation_cell_by_cell true "SUM" 3 tile_3x3).
  - simpl. auto 6.
  - lia.
  - exact tile_3x3_wf.
  - reflexivity.
  - reflexivity.
Defined.

(** X7. On a well-formed raster of at least [cellfact] rows and columns,
    with [cellfact >= 1] and one of the five statistics, the run raises
    nothing.  Its I/O calls are: the opening of the source, the creation of
    the output with the extents of lines 44-49, then for each tile, rows of
    tiles first, one read and one write of the tile's aggregated array at
    the tile's offset divided by the factor.  The output raster declares
    the NoData value of the input (or the default one) and holds the cells
    these writes leave on a raster of zeros. *)
Theorem run_accepts_every_call (inras : Dataset) (cellfact : Z)
                               (aggr_type : string) (expand prop_nodata : bool) :
  wf_dataset inras -> 0 < cellfact ->
  cellfact <= RasterYSize inras -> cellfact <= RasterXSize inras ->
  In aggr_type choices ->
  let r := ras_aggregation_body inras cellfact aggr_type expand prop_nodata world0 in
  let events := all_tile_events inras cellfact aggr_type expand (ign_of prop_nodata) in
  let outCols := out_size expand (RasterXSize inras) cellfact in
  let outRows := out_size expand (RasterYSize inras) cellfact in
  snd r = inr tt /\
  log (fst r) = [EvOpen; EvCreate outCols outRows] ++ events /\
  outDataset (fst r)
  = Some {| RasterXSize := outCols;
            RasterYSize := outRows;
            NoDataValue := Some (nodata_of inras);
            pixels := replay events
                        (repeat (repeat zero (Z.to_nat outCols)) (Z.to_nat outRows)) |}.
Proof.
  intros Hds Hf _ _ Hin. cbv zeta.
  rewrite run_completes by assumption.
  unfold apply_events, world_created. simpl. auto.
Qed.

Lemma run_accepts_every_call_witness :
  let r := ras_aggregation_body grid_1_16 3 "STD" true false world0 in
  let events := all_tile_events grid_1_16 3 "STD" true (ign_of false) in
  let outCols := out_size true (RasterXSize grid_1_16) 3 in
  let outRows := out_size true (RasterYSize grid_1_16) 3 in
  snd r = inr tt /\
  log (fst r) = [EvOpen; EvCreate outCols outRows] ++ events /\
  outDataset (fst r)
  = Some {| RasterXSize := outCols;
            RasterYSize := outRows;
            NoDataValue := Some (nodata_of grid_1_16);
            pixels := replay events
                        (repeat (repeat zero (Z.to_nat outCols)) (Z.to_nat outRows)) |}.
Proof.
  apply (run_accepts_every_call grid_1_16 3 "STD" true false).
  - exact grid_1_16_wf.
  - lia.
  - simpl. lia.
  - simpl. lia.
  - simpl. auto 6.
Defined.

(* ================================================================== *)
(** * Runs started from the command line *)
(* ================================================================== *)

Lemma choice_in_choices (c : string) :
  existsb (String.eqb c) choices = true -> In c choices.
Proof.
  intros H. apply existsb_exists in H. destruct H as (k & Hk & He).
  apply String.eqb_eq in He. now subst.
Qed.

(** The statistic of a parsed command line is one of the five. *)
Lemma parse_args_aggreg (found : list optional) (ns args : Namespace) :
  parse_args found ns = Some args ->
  In (aggreg ns) choices -> In (aggreg args) choices.
Proof.
  revert ns. induction found as [| o rest IH]; intros ns H Hns.
  - simpl in H. now injection H as <-.
  - destruct o as [c | | |]; cbn [parse_args] in H.
    + destruct (existsb (String.eqb c) choices) eqn:Hc; [| discriminate].
      apply IH in H; [assumption |]. simpl. now apply choice_in_choices.
    + now apply IH in H.
    + now apply IH in H.
    + discriminate.
Qed.

(** X8. A run started from an accepted command line, on a well-formed
    raster of at least [cellfactor] rows and columns with [cellfactor >= 1],
    raises nothing: the statistic it passes is always a key of
    [functions]. *)
Theorem command_line_run_completes (inraster : Dataset) (cellfactor : Z)
                                   (found : list optional) (run : M unit) :
  main inraster cellfactor found = Some run ->
  wf_dataset inraster -> 0 < cellfactor ->
  cellfactor <= RasterYSize inraster -> cellfactor <= RasterXSize inraster ->
  snd (run world0) = inr tt.
Proof.
  intros Hmain Hds Hf _ _. unfold main in Hmain.
  destruct (parse_args found defaults) as [args |] eqn:Hp; [| discriminate].
  injection Hmain as <-.
  assert (Hin : In (aggreg args) choices).
  { apply (parse_args_aggreg found defaults args Hp). simpl. auto. }
  unfold ras_aggregation. now rewrite run_completes.
Qed.

Lemma command_line_run_completes_witness :
  snd (ras_aggregation grid_1_16 2 (Some "MAX") (Some true) (Some false) world0)
  = inr tt.
Proof.
  apply (command_line_run_completes grid_1_16 2 [opt_at "MAX"; opt_e]).
  - reflexivity.
  - exact grid_1_16_wf.
  - lia.
  - simpl. lia.
  - simpl. lia.
Defined.

(* ================================================================== *)
(** * The output of a raster that fits in one tile, in shrink mode *)
(* ================================================================== *)

Lemma slice_inside {A} (a b : Z) (l : list A) :
  0 <= a -> a <= b -> b <= Z.of_nat (length l) ->
  slice a b l = firstn (Z.to_nat (b - a)) (skipn (Z.to_nat a) l).
Proof.
  intros Ha Hab Hb. unfold slice, slice_len, clip.
  replace (a <? 0) with false by (symmetry; apply Z.ltb_ge; lia).
  replace (b <? 0) with false by (symmetry; apply Z.ltb_ge; lia).
  f_equal; [| f_equal]; lia.
Qed.

Lemma slice_whole {A} (n : Z) (l : list A) :
  Z.of_nat (length l) = n -> slice 0 (0 + n) l = l.
Proof.
  intros Hn. rewrite slice_inside by lia. simpl.
  apply firstn_all2. lia.
Qed.

Lemma slice_map {A B} (f : A -> B) (a b : Z) (l : list A) :
  slice a b (map f l) = map f (slice a b l).
Proof.
  unfold slice. now rewrite length_map, skipn_map, firstn_map.
Qed.

Lemma slice_firstn {A} (a b : Z) (m : nat) (l : list A) :
  0 <= a -> a <= b -> b <= Z.of_nat m -> (m <= length l)%nat ->
  slice a b (firstn m l) = slice a b l.
Proof.
  intros Ha Hab Hb Hm.
  rewrite !slice_inside by (try rewrite length_firstn; lia).
  rewrite skipn_firstn_comm, firstn_firstn. f_equal. lia.
Qed.

Lemma window_whole (ds : Dataset) :
  wf_dataset ds ->
  window ds 0 0 (RasterXSize ds) (RasterYSize ds)
  = {| shape := (RasterYSize ds, RasterXSize ds); items := pixels ds |}.
Proof.
  intros (Hx & Hy & Hlen & Hrows). unfold window. f_equal.
  rewrite slice_whole by assumption.
  rewrite <- (map_id (pixels ds)) at 2.
  apply map_ext_Forall. eapply Forall_impl; [| exact Hrows].
  intros row Hrow. now apply slice_whole.
Qed.

Lemma axis_tiles_single (size cellfact : Z) :
  0 < cellfact -> 0 < size -> size <= 200 * cellfact ->
  axis_tiles size cellfact = [(0, size)].
Proof.
  intros Hf Hs Hle. rewrite axis_tiles_shape by assumption.
  rewrite Z.div_small by lia. simpl. f_equal. f_equal. lia.
Qed.

Lemma write_rows_all (new old : list (list float64)) (c : nat) :
  length new = length old ->
  Forall (fun row => length row = c) new ->
  Forall (fun row => length row = c) old ->
  write_rows 0 new old = new.
Proof.
  intros Hl Hn. revert old Hl.
  induction Hn as [| n new Hrow Hnew IH]; intros old Hl Ho.
  - destruct old; [reflexivity | discriminate].
  - destruct old as [| o old]; [discriminate |].
    inversion Ho as [| ? ? Hlo Ho']; subst. simpl.
    f_equal; [| apply IH; [now injection Hl | assumption]].
    unfold overwrite. simpl. rewrite skipn_all2 by lia. apply app_nil_r.
Qed.

(** The sub-blocks of the buffer shrink mode keeps are those of the
    band. *)
Lemma block_of_trimmed (cellfact x y : Z) (band data : ndarray) (r' c' : nat) :
  0 < cellfact -> wf_array band ->
  items data = map (firstn c') (firstn r' (items band)) ->
  0 <= x -> cellfact + x <= Z.of_nat r' -> Z.of_nat r' <= fst (shape band) ->
  0 <= y -> cellfact + y <= Z.of_nat c' -> Z.of_nat c' <= snd (shape band) ->
  ravel (getitem x (cellfact + x) y (cellfact + y) data)
  = ravel (getitem x (cellfact + x) y (cellfact + y) band).
Proof.
  intros Hf (Hr & Hc & Hlen & Hrows) Hd Hx Hxb Hrb Hy Hyb Hcb.
  unfold ravel, getitem, getcols, getrows. simpl. f_equal.
  rewrite Hd, slice_map, slice_firstn by lia.
  rewrite map_map. apply map_ext_Forall.
  assert (Hsub : Forall (fun row => Z.of_nat (length row) = snd (shape band))
                   (slice x (cellfact + x) (items band)))
    by (unfold slice; now apply Forall_firstn, Forall_skipn).
  eapply Forall_impl; [| exact Hsub].
  intros row Hrow. simpl in *. apply slice_firstn; lia.
Qed.

Lemma exec_cmd_ravel (ign aggr_type : string) (b1 b2 : ndarray) :
  ravel b1 = ravel b2 -> exec_cmd ign aggr_type b1 = exec_cmd ign aggr_type b2.
Proof. intros H. unfold exec_cmd. now rewrite H. Qed.

Lemma marked_wf (ds : Dataset) : wf_dataset ds -> wf_array (marked ds).
Proof.
  intros (Hx & Hy & Hlen & Hrows). apply where_eq_nan_wf.
  unfold wf_array. simpl. auto.
Qed.

(** The single tile of a small raster in shrink mode, aggregated. *)
Lemma single_tile_aggregated (inras : Dataset) (cellfact : Z)
                             (ign aggr_type : string) :
  wf_dataset inras -> 0 < cellfact ->
  aggregated cellfact ign aggr_type
    (normalized_tile inras false cellfact
       (0, RasterYSize inras) (0, RasterXSize inras))
  = aggregated cellfact ign aggr_type (marked inras).
Proof.
  intros Hds Hf. pose proof Hds as (Hx & Hy & Hlen & Hrows).
  pose proof (marked_wf inras Hds) as Hmw.
  unfold normalized_tile. simpl fst. simpl snd.
  rewrite window_whole by assumption. fold (marked inras).
  pose proof Hmw as (M1 & M2 & M3 & M4).
  assert (Hsm : shape (marked inras) = (RasterYSize inras, RasterXSize inras))
    by reflexivity.
  destruct (expand_or_remove_rows_rule false cellfact _ _ (marked inras) Hf Hmw Hsm)
    as (d1 & E1 & I1 & S1 & W1).
  destruct (expand_or_remove_cols_rule false cellfact _ _ d1 Hf W1 S1)
    as (d2 & E2 & I2 & S2 & W2).
  unfold normalize. rewrite E1. simpl. rewrite E2. unfold retE. cbv beta iota.
  assert (Hit : items d2
                = map (firstn (Z.to_nat (RasterXSize inras - RasterXSize inras mod cellfact)))
                      (firstn (Z.to_nat (RasterYSize inras - RasterYSize inras mod cellfact))
                              (items (marked inras)))).
  { rewrite I2, I1. rewrite Hsm in *. simpl in *.
    now apply edge_rules_shrink. }
  pose proof (Z.mod_pos_bound (RasterYSize inras) cellfact Hf) as Hbr.
  pose proof (Z.mod_pos_bound (RasterXSize inras) cellfact Hf) as Hbc.
  pose proof (Z.mod_le (RasterYSize inras) cellfact Hy Hf) as Hlr.
  pose proof (Z.mod_le (RasterXSize inras) cellfact Hx Hf) as Hlc.
  pose proof (Z.div_mod (RasterYSize inras) cellfact ltac:(lia)) as Hdr.
  pose proof (Z.div_mod (RasterXSize inras) cellfact ltac:(lia)) as Hdc.
  unfold aggregated. rewrite S2, Hsm. simpl fst. simpl snd.
  rewrite !(edge_extent_div false) by assumption.
  f_equal.
  apply map_ext_in. intros r Hr. apply in_seq in Hr.
  apply map_ext_in. intros c Hc. apply in_seq in Hc.
  unfold block_value.
  rewrite (exec_cmd_ravel ign aggr_type _
             (getitem (Z.of_nat r * cellfact) (cellfact + Z.of_nat r * cellfact)
                      (Z.of_nat c * cellfact) (cellfact + Z.of_nat c * cellfact)
                      (marked inras))); [reflexivity |].
  assert (Hrq : Z.of_nat r + 1 <= RasterYSize inras / cellfact) by lia.
  assert (Hcq : Z.of_nat c + 1 <= RasterXSize inras / cellfact) by lia.
  eapply block_of_trimmed; try eassumption; rewrite ?Hsm; simpl; try nia.
Qed.

(** The output of a run on a raster that fits in one tile, in shrink mode. *)
Lemma single_tile_shrink_run (inras : Dataset) (cellfact : Z)
                                   (aggr_type : string) (prop_nodata : bool) :
  wf_dataset inras -> 0 < cellfact ->
  cellfact <= RasterYSize inras <= 200 * cellfact ->
  cellfact <= RasterXSize inras <= 200 * cellfact ->
  In aggr_type choices ->
  out_pixels (ras_aggregation_body inras cellfact aggr_type false prop_nodata world0)
  = Some (items (aggregated cellfact (ign_of prop_nodata) aggr_type (marked inras))).
Proof.
  intros Hds Hf Hr Hc Hin. pose proof Hds as (Hx & Hy & _).
  rewrite run_completes by assumption.
  unfold all_tile_events.
  rewrite !axis_tiles_single by lia.
  cbn [flat_map app]. unfold tile_events. cbn [fst snd].
  rewrite single_tile_aggregated by assumption.
  rewrite !Z.div_0_l by lia.
  unfold out_pixels, apply_events, world_created.
  cbn [fst outDataset pixels]. unfold replay. cbn [fold_left]. f_equal.
  unfold write_window.
  change (write_rows 0 (items (aggregated cellfact (ign_of prop_nodata) aggr_type
                                 (marked inras)))
            (repeat (repeat zero
                       (Z.to_nat (out_size false (RasterXSize inras) cellfact)))
                    (Z.to_nat (out_size false (RasterYSize inras) cellfact)))
          = items (aggregated cellfact (ign_of prop_nodata) aggr_type (marked inras))).
  unfold out_size.
  pose proof (Z.div_pos _ _ Hy Hf). pose proof (Z.div_pos _ _ Hx Hf).
  apply (write_rows_all _ _ (Z.to_nat (RasterXSize inras / cellfact))).
  - unfold aggregated. simpl.
    now rewrite length_map, length_seq, repeat_length.
  - unfold aggregated. simpl. apply Forall_map, Forall_forall. intros k _.
    now rewrite length_map, length_seq.
  - apply Forall_forall. intros row Hrow. apply repeat_spec in Hrow. subst.
    apply repeat_length.
Qed.

(** X9. For a raster that fits in one tile (between [cellfact] and
    [200 * cellfact] rows and columns), in shrink mode, the output raster
    holds, at row [r] and column [c], the scalar of the sub-block of the
    band (NoData cells as not-a-number) that starts at row [r * cellfact]
    and column [c * cellfact]; the rows and columns beyond the last
    complete sub-block have no part in it. *)
Theorem small_raster_shrink_output (inras : Dataset) (cellfact : Z)
                                   (aggr_type : string) (prop_nodata : bool) :
  wf_dataset inras -> 0 < cellfact ->
  cellfact <= RasterYSize inras <= 200 * cellfact ->
  cellfact <= RasterXSize inras <= 200 * cellfact ->
  In aggr_type choices ->
  out_pixels (ras_aggregation_body inras cellfact aggr_type false prop_nodata world0)
  = Some (items (aggregated cellfact (ign_of prop_nodata) aggr_type (marked inras))).
Proof.
  intros Hds Hf Hr Hc Hin.
  now apply single_tile_shrink_run.
Qed.

Lemma small_raster_shrink_output_witness :
  out_pixels (ras_aggregation_body grid_1_16 3 "MIN" false true world0)
  = Some (items (aggregated 3 (ign_of true) "MIN" (marked grid_1_16))).
Proof.
  apply (small_raster_shrink_output grid_1_16 3 "MIN" true).
  - exact grid_1_16_wf.
  - lia.
  - simpl. lia.
  - simpl. lia.
  - simpl. auto.
Defined.

Lemma tile_3x3_other_wf : wf_array tile_3x3_other.
Proof.
  unfold wf_array, tile_3x3_other; simpl.
  repeat split; try lia. repeat constructor.
Qed.

Lemma shrink_ignores_trailing_cells_witness :
  exists out,
    normalize false 2 3 3 tile_3x3 = retE out /\
    normalize false 2 3 3 tile_3x3_other = retE out.
Proof.
  apply (shrink_ignores_trailing_cells 2 3 3 tile_3x3 tile_3x3_other).
  - lia.
  - exact tile_3x3_wf.
  - exact tile_3x3_other_wf.
  - reflexivity.
  - reflexivity.
  - reflexivity.
Defined.

(* ================================================================== *)
(** * Rasters without NoData cells, in shrink mode *)
(* ================================================================== *)

Lemma Forall_slice {A} (P : A -> Prop) (a b : Z) (l : list A) :
  Forall P l -> Forall P (slice a b l).
Proof. intros H. unfold slice. now apply Forall_firstn, Forall_skipn. Qed.

Lemma Forall_concat {A} (P : A -> Prop) (rows : list (list A)) :
  Forall (Forall P) rows -> Forall P (concat rows).
Proof.
  induction 1 as [| row rows Hrow Hrows IH]; simpl; [constructor |].
  apply Forall_app. auto.
Qed.

Lemma plain_cell_kept (ND v : float64) :
  plain_cell ND v -> notnan (if equal v ND then nan else v) = true.
Proof.
  intros [Hn He]. rewrite He. unfold notnan. now rewrite Hn.
Qed.

(** The working buffer of a tile, in shrink mode: a part of the band's
    cells, marked. *)
Lemma normalized_tile_shrink (dataset : Dataset) (cellfact : Z) (ti tj : Z * Z) :
  0 < cellfact -> wf_dataset dataset ->
  0 <= fst ti -> 0 <= snd ti -> fst ti + snd ti <= RasterYSize dataset ->
  0 <= fst tj -> 0 <= snd tj -> fst tj + snd tj <= RasterXSize dataset ->
  let data := normalized_tile dataset false cellfact ti tj in
  wf_array data /\
  shape data = (edge_extent false cellfact (snd ti),
                edge_extent false cellfact (snd tj)) /\
  items data
  = map (firstn (Z.to_nat (snd tj - snd tj mod cellfact)))
        (firstn (Z.to_nat (snd ti - snd ti mod cellfact))
           (items (where_eq_nan
                     (window dataset (fst tj) (fst ti) (snd tj) (snd ti))
                     (nodata_of dataset)))).
Proof.
  intros Hf Hds Hi Hni Hib Hj Hnj Hjb. cbv zeta.
  set (W := where_eq_nan (window dataset (fst tj) (fst ti) (snd tj) (snd ti))
                         (nodata_of dataset)).
  assert (Hwf : wf_array W) by (apply where_eq_nan_wf, window_wf; assumption).
  assert (Hs : shape W = (snd ti, snd tj)) by reflexivity.
  destruct (expand_or_remove_rows_rule false cellfact _ _ W Hf Hwf Hs)
    as (d1 & E1 & I1 & S1 & W1).
  destruct (expand_or_remove_cols_rule false cellfact _ _ d1 Hf W1 S1)
    as (d2 & E2 & I2 & S2 & W2).
  unfold normalized_tile. fold W. unfold normalize.
  rewrite E1. simpl. rewrite E2. unfold retE. cbv beta iota.
  split; [assumption |]. split; [assumption |].
  rewrite I2, I1. destruct Hwf as (H1 & H2 & H3 & H4).
  rewrite Hs in *. simpl in *. now apply edge_rules_shrink.
Qed.

(** Its cells are numbers when the band has plain cells only. *)
Lemma normalized_tile_plain (dataset : Dataset) (cellfact : Z) (ti tj : Z * Z) :
  0 < cellfact -> wf_dataset dataset ->
  0 <= fst ti -> 0 <= snd ti -> fst ti + snd ti <= RasterYSize dataset ->
  0 <= fst tj -> 0 <= snd tj -> fst tj + snd tj <= RasterXSize dataset ->
  Forall (Forall (plain_cell (nodata_of dataset))) (pixels dataset) ->
  Forall (Forall (fun v => notnan v = true))
         (items (normalized_tile dataset false cellfact ti tj)).
Proof.
  intros Hf Hds Hi Hni Hib Hj Hnj Hjb Hplain.
  destruct (normalized_tile_shrink dataset cellfact ti tj) as (_ & _ & ->);
    try assumption.
  apply Forall_map, Forall_firstn. simpl.
  apply Forall_map, Forall_map, Forall_slice.
  eapply Forall_impl; [| exact Hplain].
  intros row Hrow. simpl. apply Forall_firstn, Forall_map, Forall_slice.
  eapply Forall_impl; [| exact Hrow].
  intros v Hv. now apply plain_cell_kept.
Qed.

Lemma block_plain (x0 x1 y0 y1 : Z) (data : ndarray) :
  Forall (Forall (fun v => notnan v = true)) (items data) ->
  forallb notnan (ravel (getitem x0 x1 y0 y1 data)) = true.
Proof.
  intros H. apply forallb_forall. apply Forall_forall.
  unfold ravel, getitem, getcols, getrows. simpl.
  apply Forall_concat, Forall_map, Forall_slice.
  eapply Forall_impl; [| exact H].
  intros row Hrow. now apply Forall_slice.
Qed.

(** On a buffer of numbers, the aggregated tile does not depend on the
    NoData policy. *)
Lemma aggregated_plain (cellfact : Z) (aggr_type : string) (data : ndarray) :
  In aggr_type choices -> 0 < cellfact -> wf_array data ->
  fst (shape data) mod cellfact = 0 -> snd (shape data) mod cellfact = 0 ->
  Forall (Forall (fun v => notnan v = true)) (items data) ->
  aggregated cellfact (ign_of true) aggr_type data
  = aggregated cellfact (ign_of false) aggr_type data.
Proof.
  intros Hin Hf Hwf Hmr Hmc Hplain.
  pose proof Hwf as (Hr & Hc & _).
  pose proof (Z.div_pos _ _ Hr Hf) as HR.
  pose proof (Z.div_pos _ _ Hc Hf) as HC.
  unfold aggregated. f_equal.
  apply map_ext_in. intros r Hrr. apply in_seq in Hrr.
  apply map_ext_in. intros c Hcc. apply in_seq in Hcc.
  destruct (multiple_index_bound r (fst (shape data)) cellfact) as [Hx1 Hx2];
    try assumption; [lia |].
  destruct (multiple_index_bound c (snd (shape data)) cellfact) as [Hy1 Hy2];
    try assumption; [lia |].
  set (block := getitem (Z.of_nat r * cellfact) (cellfact + Z.of_nat r * cellfact)
                        (Z.of_nat c * cellfact) (cellfact + Z.of_nat c * cellfact) data).
  assert (Hne : ravel block <> []) by now apply block_nonempty.
  assert (Hnn : forallb notnan (ravel block) = true) by now apply block_plain.
  destruct (exec_cmd_key aggr_type block Hin) as (f & f' & E1 & E2 & _ & Hk).
  unfold block_value. fold block.
  rewrite E1, E2. now rewrite (variant_no_nan f f' (ravel block) Hne Hnn Hk).
Qed.

Lemma flat_map_ext_in {A B} (f g : A -> list B) (l : list A) :
  (forall a, In a l -> f a = g a) -> flat_map f l = flat_map g l.
Proof.
  induction l as [| a l IH]; intros H; simpl; [reflexivity |].
  rewrite (H a) by now left. f_equal. apply IH. intros b Hb. apply H. now right.
Qed.

(** X10. On a raster whose cells are all numbers other than the NoData
    value, a run in shrink mode makes the same calls and leaves the same
    output whether NoData is propagated or ignored. *)
Theorem nodata_policy_is_moot_without_nodata
    (inras : Dataset) (cellfact : Z) (aggr_type : string) :
  wf_dataset inras -> 0 < cellfact ->
  cellfact <= RasterYSize inras -> cellfact <= RasterXSize inras ->
  In aggr_type choices ->
  Forall (Forall (plain_cell (nodata_of inras))) (pixels inras) ->
  ras_aggregation_body inras cellfact aggr_type false true world0
  = ras_aggregation_body inras cellfact aggr_type false false world0.
Proof.
  intros Hds Hf _ _ Hin Hplain. pose proof Hds as (Hx & Hy & _).
  rewrite !run_completes by assumption.
  f_equal. f_equal. unfold all_tile_events.
  pose proof (axis_tiles_fit false (RasterYSize inras) cellfact Hf Hy) as Hrows.
  pose proof (axis_tiles_fit false (RasterXSize inras) cellfact Hf Hx) as Hcols.
  rewrite Forall_forall in Hrows, Hcols.
  apply flat_map_ext_in. intros ti Hti.
  apply flat_map_ext_in. intros tj Htj.
  destruct (Hrows ti Hti) as (Hi & Hni & Hib & _).
  destruct (Hcols tj Htj) as (Hj & Hnj & Hjb & _).
  unfold tile_events. f_equal. f_equal. f_equal.
  destruct (normalized_tile_shrink inras cellfact ti tj) as (Hwf & Hs & _);
    try assumption.
  apply aggregated_plain; try assumption.
  - rewrite Hs. simpl. now apply edge_extent_multiple.
  - rewrite Hs. simpl. now apply edge_extent_multiple.
  - now apply normalized_tile_plain.
Qed.

Lemma grid_1_16_plain :
  Forall (Forall (plain_cell (nodata_of grid_1_16))) (pixels grid_1_16).
Proof.
  unfold grid_1_16, raster_of, plain_cell. simpl. repeat constructor.
Qed.

Lemma nodata_policy_is_moot_without_nodata_witness :
  ras_aggregation_body grid_1_16 2 "AVG" false true world0
  = ras_aggregation_body grid_1_16 2 "AVG" false false world0.
Proof.
  apply (nodata_policy_is_moot_without_nodata grid_1_16 2 "AVG").
  - exact grid_1_16_wf.
  - lia.
  - simpl. lia.
  - simpl. lia.
  - simpl. auto.
  - exact grid_1_16_plain.
Defined.

(* ================================================================== *)
(** * Expand mode with NoData propagated: the padded edge *)
(* ================================================================== *)

Lemma repeat_snoc {A} (v : A) (n : nat) : repeat v (S n) = repeat v n ++ [v].
Proof. simpl. apply repeat_cons. Qed.

Lemma map_const_repeat {A B} (v : B) (l : list A) :
  map (fun _ => v) l = repeat v (length l).
Proof. induction l as [| x l IH]; simpl; [reflexivity | now rewrite IH]. Qed.

Lemma Forall_isnan_repeat (n : nat) : Forall (fun v => isnan v = true) (repeat nan n).
Proof. apply Forall_forall. intros v Hv. apply repeat_spec in Hv. now subst. Qed.

(** After the padding of the rows, the last row of the buffer is made of
    not-a-number only. *)
Lemma padded_buffer_last_row (cellfact numRows numCols : Z) (data : ndarray) :
  0 < cellfact -> wf_array data -> shape data = (numRows, numCols) ->
  numRows mod cellfact <> 0 ->
  exists out upper bottom,
    normalize true cellfact numRows numCols data = retE out /\
    wf_array out /\
    shape out = (edge_extent true cellfact numRows,
                 edge_extent true cellfact numCols) /\
    items out = upper ++ [bottom] /\
    Forall (fun v => isnan v = true) bottom.
Proof.
  intros Hf Hwf Hs Hm.
  destruct (expand_or_remove_rows_rule true cellfact numRows numCols data Hf Hwf Hs)
    as (d1 & E1 & I1 & S1 & W1).
  destruct (expand_or_remove_cols_rule true cellfact _ numCols d1 Hf W1 S1)
    as (d2 & E2 & I2 & S2 & W2).
  pose proof (Z.mod_pos_bound numRows cellfact Hf) as Hb.
  assert (Hk : exists k, Z.to_nat (cellfact - numRows mod cellfact) = S k)
    by (exists (Nat.pred (Z.to_nat (cellfact - numRows mod cellfact))); lia).
  destruct Hk as (k & Hk).
  assert (I1' : items d1
                = (items data ++ repeat (repeat nan (Z.to_nat numCols)) k)
                  ++ [repeat nan (Z.to_nat numCols)]).
  { rewrite I1. unfold edge_rows_rule.
    replace (numRows mod cellfact =? 0) with false
      by (symmetry; now apply Z.eqb_neq).
    now rewrite Hk, repeat_snoc, app_assoc. }
  unfold normalize. rewrite E1. simpl. rewrite E2.
  unfold edge_cols_rule in I2. rewrite I1' in I2.
  destruct (numCols mod cellfact =? 0).
  - exists d2, (items data ++ repeat (repeat nan (Z.to_nat numCols)) k),
           (repeat nan (Z.to_nat numCols)).
    repeat split; try assumption; try apply W2. apply Forall_isnan_repeat.
  - rewrite map_app in I2. simpl in I2.
    eexists d2, _, _. split; [reflexivity |].
    split; [assumption |]. split; [assumption |]. split; [exact I2 |].
    apply Forall_app. split; apply Forall_isnan_repeat.
Qed.

Lemma existsb_isnan_all (l : list float64) :
  l <> [] -> Forall (fun v => isnan v = true) l -> existsb isnan l = true.
Proof.
  intros Hne H. destruct l as [| v l]; [congruence |].
  simpl. now rewrite (Forall_inv H).
Qed.

(** A sub-block of the last row of sub-blocks holds a not-a-number. *)
Lemma bottom_block_has_nan (cellfact y : Z) (out : ndarray)
                           (upper : list (list float64)) (bottom : list float64) :
  0 < cellfact -> wf_array out ->
  fst (shape out) mod cellfact = 0 ->
  items out = upper ++ [bottom] ->
  Forall (fun v => isnan v = true) bottom ->
  0 <= y -> cellfact + y <= snd (shape out) ->
  existsb isnan
    (ravel (getitem (fst (shape out) - cellfact) (cellfact + (fst (shape out) - cellfact))
                    y (cellfact + y) out)) = true.
Proof.
  intros Hf (Hr & Hc & Hlen & Hrows) Hm Hit Hnan Hy Hyb.
  assert (Hn : cellfact <= fst (shape out)).
  { apply Z.div_exact in Hm; [| lia].
    assert (0 < fst (shape out)) by (rewrite <- Hlen, Hit, length_app; simpl; lia).
    remember (fst (shape out) / cellfact) as q eqn:Hq. clear Hq.
    assert (0 < q) by (apply (Z.mul_pos_cancel_l cellfact); lia). nia. }
  unfold ravel, getitem, getcols, getrows. simpl.
  rewrite slice_inside by lia.
  replace (cellfact + (fst (shape out) - cellfact) - (fst (shape out) - cellfact))
    with cellfact by lia.
  rewrite firstn_all2 by (rewrite length_skipn; lia).
  rewrite Hit in *. rewrite length_app in Hlen. simpl in Hlen.
  rewrite skipn_app.
  replace (Z.to_nat (fst (shape out) - cellfact) - length upper)%nat with 0%nat by lia.
  simpl skipn. rewrite map_app, concat_app. simpl.
  rewrite existsb_app. apply orb_true_iff. right. rewrite app_nil_r.
  apply Forall_app in Hrows. destruct Hrows as [_ Hbot].
  apply Forall_inv in Hbot.
  apply existsb_isnan_all.
  - intros Hnil.
    assert (Hl : Z.of_nat (length (slice y (cellfact + y) bottom)) = cellfact + y - y)
      by (apply length_slice; lia).
    rewrite Hnil in Hl. simpl in Hl. lia.
  - now apply Forall_slice.
Qed.

Lemma last_map_seq {A} (f : nat -> A) (n : nat) (d : A) :
  last (map f (seq 0 (S n))) d = f n.
Proof. rewrite seq_S, map_app. simpl. apply last_last. Qed.

(** X11. In expand mode with NoData propagated, a tile whose row count is
    not a multiple of the factor gets a last row of not-a-number in its
    aggregated array: the padded rows count as NoData for every sub-block
    they take part in, for each of the five statistics. *)
Theorem expand_propagate_last_row (aggr_type : string)
                                  (cellfact numRows numCols : Z) (data : ndarray) :
  In aggr_type choices ->
  0 < cellfact -> wf_array data -> shape data = (numRows, numCols) ->
  numRows mod cellfact <> 0 ->
  exists out array,
    normalize true cellfact numRows numCols data = retE out /\
    aggregation cellfact (ign_of true) aggr_type out = retE array /\
    last (items array) [] = repeat nan (Z.to_nat (snd (shape array))).
Proof.
  intros Hin Hf Hwf Hs Hm.
  destruct (padded_buffer_last_row cellfact numRows numCols data Hf Hwf Hs Hm)
    as (out & upper & bottom & En & Wo & So & Io & Hnan).
  assert (Hmr : fst (shape out) mod cellfact = 0)
    by (rewrite So; simpl; now apply edge_extent_multiple).
  assert (Hmc : snd (shape out) mod cellfact = 0)
    by (rewrite So; simpl; now apply edge_extent_multiple).
  exists out, (aggregated cellfact (ign_of true) aggr_type out).
  split; [assumption |]. split; [now apply aggregation_run |].
  pose proof Wo as (Hr & Hc & Hlen & Hrows).
  assert (Hpos : 0 < fst (shape out))
    by (rewrite <- Hlen, Io, length_app; simpl; lia).
  pose proof Hmr as Hex. apply Z.div_exact in Hex; [| lia].
  remember (fst (shape out) / cellfact) as q eqn:Hq.
  assert (Hq1 : 1 <= q)
    by (assert (0 < q) by (apply (Z.mul_pos_cancel_l cellfact); lia); lia).
  unfold aggregated. cbn [items shape fst snd]. rewrite <- Hq.
  replace (Z.to_nat q) with (S (Z.to_nat (q - 1))) by lia.
  rewrite last_map_seq.
  replace (repeat nan (Z.to_nat (snd (shape out) / cellfact)))
    with (map (fun _ : nat => nan) (seq 0 (Z.to_nat (snd (shape out) / cellfact))))
    by (now rewrite map_const_repeat, length_seq).
  apply map_ext_in. intros c Hc'. apply in_seq in Hc'.
  destruct (multiple_index_bound c (snd (shape out)) cellfact) as [Hy1 Hy2];
    try assumption; [lia |].
  unfold block_value.
  replace (Z.of_nat (Z.to_nat (q - 1)) * cellfact)
    with (fst (shape out) - cellfact) by nia.
  set (block := getitem (fst (shape out) - cellfact)
                        (cellfact + (fst (shape out) - cellfact))
                        (Z.of_nat c * cellfact) (cellfact + Z.of_nat c * cellfact) out).
  assert (Hhas : existsb isnan (ravel block) = true)
    by (eapply bottom_block_has_nan; eassumption).
  destruct (exec_cmd_key aggr_type block Hin) as (f & f' & E1 & _ & _ & Hk).
  rewrite E1. now rewrite (ordinary_has_nan f f' (ravel block) Hhas Hk).
Qed.

Lemma expand_propagate_last_row_witness :
  exists out array,
    normalize true 2 3 3 tile_3x3 = retE out /\
    aggregation 2 (ign_of true) "MAX" out = retE array /\
    last (items array) [] = repeat nan (Z.to_nat (snd (shape array))).
Proof.
  apply (expand_propagate_last_row "MAX" 2 3 3 tile_3x3).
  - simpl. auto.
  - lia.
  - exact tile_3x3_wf.
  - reflexivity.
  - discriminate.
Defined.

(* ================================================================== *)
(** * Factor 1 *)
(* ================================================================== *)

Lemma firstn_1_skipn {A} (k : nat) (l : list A) (d : A) :
  (k < length l)%nat -> firstn 1 (skipn k l) = [nth k l d].
Proof.
  revert l. induction k as [| k IH]; intros [| x l] Hk; simpl in *; try lia.
  - reflexivity.
  - apply IH. lia.
Qed.

Lemma slice_one {A} (k : nat) (l : list A) (d : A) :
  (k < length l)%nat -> slice (Z.of_nat k) (1 + Z.of_nat k) l = [nth k l d].
Proof.
  intros Hk. rewrite slice_inside by lia.
  replace (Z.to_nat (1 + Z.of_nat k - Z.of_nat k)) with 1%nat by lia.
  rewrite Nat2Z.id. now apply firstn_1_skipn.
Qed.

Lemma list_by_index {A} (l : list A) (d : A) :
  map (fun k => nth k l d) (seq 0 (length l)) = l.
Proof.
  apply (nth_ext _ _ d d).
  - now rewrite length_map, length_seq.
  - intros n Hn. rewrite length_map, length_seq in Hn.
    exact (nth_map_seq (fun k => nth k l d) (length l) n d Hn).
Qed.

Lemma Forall_nth {A} (P : A -> Prop) (l : list A) (k : nat) (d : A) :
  Forall P l -> (k < length l)%nat -> P (nth k l d).
Proof.
  intros H Hk. rewrite Forall_forall in H. apply H. now apply nth_In.
Qed.

(** A sub-block of one cell. *)
Lemma unit_block (band : ndarray) (r c : nat) :
  wf_array band ->
  Z.of_nat r < fst (shape band) -> Z.of_nat c < snd (shape band) ->
  ravel (getitem (Z.of_nat r) (1 + Z.of_nat r) (Z.of_nat c) (1 + Z.of_nat c) band)
  = [nth c (nth r (items band) []) nan].
Proof.
  intros (Hr & Hc & Hlen & Hrows) Hrr Hcc.
  unfold ravel, getitem, getcols, getrows. simpl.
  rewrite (slice_one r _ []) by lia. simpl.
  rewrite (slice_one c _ nan); [reflexivity |].
  assert (Hl : Z.of_nat (length (nth r (items band) [])) = snd (shape band))
    by (apply (Forall_nth (fun row => Z.of_nat (length row) = snd (shape band))
                          (items band) r []); [assumption | lia]).
  lia.
Qed.

(** With factor 1, MAX and MIN give each cell back. *)
Lemma aggregated_factor_one (prop_nodata : bool) (aggr_type : string)
                            (band : ndarray) :
  aggr_type = "MAX" \/ aggr_type = "MIN" -> wf_array band ->
  items (aggregated 1 (ign_of prop_nodata) aggr_type band) = items band.
Proof.
  intros Hk Hwf. pose proof Hwf as (Hr & Hc & Hlen & Hrows).
  unfold aggregated. cbn [items]. rewrite !Z.div_1_r.
  etransitivity; [| apply (list_by_index (items band) [])].
  replace (length (items band)) with (Z.to_nat (fst (shape band))) by lia.
  apply map_ext_in. intros r Hrr. apply in_seq in Hrr.
  assert (Hl : Z.of_nat (length (nth r (items band) [])) = snd (shape band))
    by (apply (Forall_nth (fun row => Z.of_nat (length row) = snd (shape band))
                          (items band) r []); [assumption | lia]).
  etransitivity; [| apply (list_by_index (nth r (items band) []) nan)].
  replace (length (nth r (items band) [])) with (Z.to_nat (snd (shape band))) by lia.
  apply map_ext_in. intros c Hcc. apply in_seq in Hcc.
  unfold block_value. rewrite !Z.mul_1_r.
  rewrite (exec_cmd_ravel _ _ _
             {| shape := (1, 1); items := [[nth c (nth r (items band) []) nan]] |})
    by (rewrite unit_block by (assumption || lia); reflexivity).
  destruct prop_nodata, Hk as [-> | ->]; reflexivity.
Qed.

(** X12. With factor 1 and MAX or MIN, in shrink mode, the output of a
    raster of at most 200 rows and columns is the band itself, except that
    the cells equal to the NoData value are not-a-number. *)
Theorem factor_one_copies_band (inras : Dataset) (aggr_type : string)
                               (prop_nodata : bool) :
  wf_dataset inras ->
  1 <= RasterYSize inras <= 200 -> 1 <= RasterXSize inras <= 200 ->
  aggr_type = "MAX" \/ aggr_type = "MIN" ->
  out_pixels (ras_aggregation_body inras 1 aggr_type false prop_nodata world0)
  = Some (items (marked inras)).
Proof.
  intros Hds Hr Hc Hk.
  rewrite single_tile_shrink_run; try assumption; try lia.
  - f_equal. apply aggregated_factor_one; [assumption |].
    now apply marked_wf.
  - destruct Hk as [-> | ->]; simpl; auto.
Qed.

Lemma factor_one_copies_band_witness :
  out_pixels (ras_aggregation_body grid_all_nodata 1 "MAX" false false world0)
  = Some (items (marked grid_all_nodata)).
Proof.
  apply (factor_one_copies_band grid_all_nodata "MAX" false).
  - unfold wf_dataset, grid_all_nodata; simpl.
    repeat split; try lia. repeat constructor.
  - simpl. lia.
  - simpl. lia.
  - now left.
Defined.

(* ================================================================== *)
(** * MAX and MIN select a cell *)
(* ================================================================== *)

Lemma fold_left_selects (op : float64 -> float64 -> float64)
                        (l : list float64) (acc : float64) :
  (forall a b, op a b = a \/ op a b = b) ->
  In (fold_left op l acc) (acc :: l).
Proof.
  intros Hop. revert acc. induction l as [| x l IH]; intros acc; simpl.
  - now left.
  - destruct (IH (op acc x)) as [H | H].
    + destruct (Hop acc x) as [E | E].
      * left. congruence.
      * right. left. congruence.
    + right. right. exact H.
Qed.

Lemma reduce_selects (op : float64 -> float64 -> float64)
                     (a : list float64) (v : float64) :
  (forall a b, op a b = a \/ op a b = b) ->
  reduce op a = retE v -> In v a.
Proof.
  intros Hop H. destruct a as [| x rest]; [discriminate |].
  injection H as <-. now apply fold_left_selects.
Qed.

Lemma comparison_ufunc_selects (op : float64 -> float64 -> float64) :
  op = maximum \/ op = minimum \/ op = fmax \/ op = fmin ->
  forall a b, op a b = a \/ op a b = b.
Proof.
  intros [-> | [-> | [-> | ->]]] a b.
  - unfold maximum. destruct (greater_equal a b || isnan a); auto.
  - unfold minimum. destruct (less_equal a b || isnan a); auto.
  - unfold fmax. destruct (greater_equal a b || isnan b); auto.
  - unfold fmin. destruct (less_equal a b || isnan b); auto.
Qed.

(** X13. For MAX and MIN, under either NoData policy, the scalar computed
    for a sub-block is one of the cells of the sub-block, and a sub-block
    without cell raises [ValueError]. *)
Theorem max_min_select_a_cell (prop_nodata : bool) (aggr_type : string)
                              (block : ndarray) :
  aggr_type = "MAX" \/ aggr_type = "MIN" ->
  match exec_cmd (ign_of prop_nodata) aggr_type block with
  | inr v => In v (ravel block)
  | inl e => ravel block = [] /\ exists msg, e = ValueError msg
  end.
Proof.
  intros Hk.
  assert (Hred : exists op,
             (op = maximum \/ op = minimum \/ op = fmax \/ op = fmin) /\
             exec_cmd (ign_of prop_nodata) aggr_type block = reduce op (ravel block)).
  { destruct prop_nodata, Hk as [-> | ->].
    - exists maximum. auto.
    - exists minimum. auto.
    - exists fmax. auto 6.
    - exists fmin. auto 6. }
  destruct Hred as (op & Hop & ->).
  destruct (reduce op (ravel block)) as [e | v] eqn:Hr.
  - destruct (ravel block); [| discriminate].
    injection Hr as <-. split; [reflexivity | eexists; reflexivity].
  - eapply reduce_selects; [| exact Hr]. now apply comparison_ufunc_selects.
Qed.

Lemma max_min_select_a_cell_witness :
  match exec_cmd (ign_of false) "MIN" block_one_nan with
  | inr v => In v (ravel block_one_nan)
  | inl e => ravel block_one_nan = [] /\ exists msg, e = ValueError msg
  end.
Proof.
  apply (max_min_select_a_cell false "MIN" block_one_nan). now right.
Defined.

(* ================================================================== *)
(** * Expand mode with NoData ignored: the padding changes no result *)
(* ================================================================== *)

(** A slice that starts in the first of two appended lists. *)
Lemma slice_app_l {A} (a b : Z) (l1 l2 : list A) :
  0 <= a -> a <= b -> a <= Z.of_nat (length l1) ->
  slice a b (l1 ++ l2)
  = slice a b l1 ++ firstn (Z.to_nat (b - Z.of_nat (length l1))) l2.
Proof.
  intros Ha Hab Hal. unfold slice, slice_len, clip.
  replace (a <? 0) with false by (symmetry; apply Z.ltb_ge; lia).
  replace (b <? 0) with false by (symmetry; apply Z.ltb_ge; lia).
  rewrite length_app, skipn_app.
  replace (Z.to_nat (Z.min a (Z.of_nat (length l1 + length l2))) - length l1)%nat
    with 0%nat by lia.
  replace (Z.to_nat (Z.min a (Z.of_nat (length l1 + length l2))))
    with (Z.to_nat a) by lia.
  replace (Z.to_nat (Z.min a (Z.of_nat (length l1)))) with (Z.to_nat a) by lia.
  simpl skipn. rewrite firstn_app, length_skipn.
  destruct (Z_le_gt_dec b (Z.of_nat (length l1))) as [Hb | Hb].
  - f_equal.
    + f_equal. lia.
    + replace (Z.to_nat (b - Z.of_nat (length l1))) with 0%nat by lia.
      f_equal. lia.
  - f_equal.
    + rewrite !firstn_all2 by (rewrite length_skipn; lia). reflexivity.
    + destruct (Z_le_gt_dec b (Z.of_nat (length l1 + length l2))) as [Hn | Hn].
      * f_equal. lia.
      * rewrite !firstn_all2 by lia. reflexivity.
Qed.

(** The padded buffer: every row of the tile and of the appended rows,
    followed by the appended columns. *)
Lemma padded_form (cellfact numRows numCols : Z) (data : ndarray) :
  0 < cellfact -> wf_array data -> shape data = (numRows, numCols) ->
  exists out (d k : nat),
    normalize true cellfact numRows numCols data = retE out /\
    items out
    = map (fun row => row ++ repeat nan d)
          (items data ++ repeat (repeat nan (Z.to_nat numCols)) k).
Proof.
  intros Hf Hwf Hs.
  destruct (expand_or_remove_rows_rule true cellfact numRows numCols data Hf Hwf Hs)
    as (d1 & E1 & I1 & S1 & W1).
  destruct (expand_or_remove_cols_rule true cellfact _ numCols d1 Hf W1 S1)
    as (d2 & E2 & I2 & S2 & W2).
  assert (Hrows : exists k, items d1
                            = items data ++ repeat (repeat nan (Z.to_nat numCols)) k).
  { rewrite I1. unfold edge_rows_rule. destruct (numRows mod cellfact =? 0).
    - exists 0%nat. simpl. now rewrite app_nil_r.
    - eexists. reflexivity. }
  destruct Hrows as (k & Hk).
  assert (Hcols : exists d, items d2 = map (fun row => row ++ repeat nan d) (items d1)).
  { rewrite I2. unfold edge_cols_rule. destruct (numCols mod cellfact =? 0).
    - exists 0%nat. simpl. rewrite <- (map_id (items d1)) at 1.
      apply map_ext. intros row. now rewrite app_nil_r.
    - eexists. reflexivity. }
  destruct Hcols as (d & Hd).
  exists d2, d, k. unfold normalize. rewrite E1. simpl. rewrite E2.
  split; [reflexivity |]. now rewrite Hd, Hk.
Qed.

Lemma filter_notnan_none (l : list float64) :
  Forall (fun v => isnan v = true) l -> filter notnan l = [].
Proof.
  induction 1 as [| v l Hv Hl IH]; simpl; [reflexivity |].
  unfold notnan at 1. now rewrite Hv.
Qed.

Lemma block_Forall (P : float64 -> Prop) (x0 x1 y0 y1 : Z) (data : ndarray) :
  Forall (Forall P) (items data) ->
  Forall P (ravel (getitem x0 x1 y0 y1 data)).
Proof.
  intros H. unfold ravel, getitem, getcols, getrows. simpl.
  apply Forall_concat, Forall_map, Forall_slice.
  eapply Forall_impl; [| exact H].
  intros row Hrow. now apply Forall_slice.
Qed.

(** The numbers of a sub-block of the padded buffer are those of the
    cells of the tile it covers. *)
Lemma padded_block_numbers (cellfact x y : Z) (data out : ndarray) (d k : nat) :
  0 < cellfact -> wf_array data ->
  items out
  = map (fun row => row ++ repeat nan d)
        (items data ++ repeat (repeat nan (Z.to_nat (snd (shape data)))) k) ->
  0 <= x <= fst (shape data) -> 0 <= y <= snd (shape data) ->
  filter notnan (ravel (getitem x (cellfact + x) y (cellfact + y) out))
  = filter notnan (ravel (getitem x (cellfact + x) y (cellfact + y) data)).
Proof.
  intros Hf (Hr & Hc & Hlen & Hrows) Hout Hx Hy.
  unfold ravel, getitem, getcols, getrows. simpl.
  rewrite Hout, slice_map, slice_app_l by lia.
  rewrite !map_app, concat_app, filter_app.
  set (N := firstn _ (repeat (repeat nan (Z.to_nat (snd (shape data)))) k)).
  assert (HN : filter notnan
                 (concat (map (slice y (cellfact + y))
                              (map (fun row => row ++ repeat nan d) N))) = []).
  { apply filter_notnan_none, Forall_concat, Forall_map, Forall_map.
    apply Forall_firstn. apply Forall_forall. intros row Hrow.
    apply repeat_spec in Hrow. subst row.
    apply Forall_slice, Forall_app. split; apply Forall_isnan_repeat. }
  rewrite HN, app_nil_r.
  rewrite <- !concat_filter_map, !map_map. f_equal.
  apply map_ext_Forall.
  assert (Hsub : Forall (fun row => Z.of_nat (length row) = snd (shape data))
                   (slice x (cellfact + x) (items data)))
    by now apply Forall_slice.
  eapply Forall_impl; [| exact Hsub].
  intros row Hrow. simpl in *.
  rewrite slice_app_l by lia. rewrite filter_app.
  rewrite (filter_notnan_none (firstn _ _)); [apply app_nil_r |].
  apply Forall_firstn, Forall_isnan_repeat.
Qed.

Lemma padded_items_valid (data : ndarray) (d k : nat) (n : nat) :
  Forall (Forall valid_cell) (items data) ->
  Forall (Forall valid_cell)
         (map (fun row => row ++ repeat nan d)
              (items data ++ repeat (repeat nan n) k)).
Proof.
  intros H.
  assert (Hnan : forall m, Forall valid_cell (repeat nan m)).
  { intros m. apply Forall_forall. intros v Hv.
    apply repeat_spec in Hv. now subst. }
  apply Forall_map, Forall_app. split.
  - eapply Forall_impl; [| exact H]. intros row Hrow.
    apply Forall_app. split; [assumption | apply Hnan].
  - apply Forall_forall. intros row Hrow. apply repeat_spec in Hrow. subst.
    apply Forall_app. split; apply Hnan.
Qed.

Lemma not_all_nan_of_filter (a : list float64) :
  filter notnan a <> [] -> forallb isnan a = false.
Proof.
  intros H. destruct (forallb isnan a) eqn:E; [| reflexivity].
  now rewrite filter_notnan_all_nan in H.
Qed.

Lemma exec_cmd_ignoring (aggr_type : string) :
  In aggr_type choices ->
  exists f f',
    (forall block, exec_cmd (ign_of false) aggr_type block = f' (ravel block)) /\
    ((f = amax /\ f' = nanmax) \/ (f = amin /\ f' = nanmin) \/
     (f = mean /\ f' = nanmean) \/ (f = sum /\ f' = nansum) \/
     (f = std /\ f' = nanstd)).
Proof.
  intros Hin. simpl in Hin.
  destruct Hin as [<- | [<- | [<- | [<- | [<- | []]]]]].
  - exists amax, nanmax. split; auto.
  - exists amin, nanmin. split; auto.
  - exists mean, nanmean. split; auto 6.
  - exists sum, nansum. split; auto 6.
  - exists std, nanstd. split; auto 7.
Qed.

(** X14. In expand mode with NoData ignored, the padding changes no
    result: on any sub-block that holds at least one number, the scalar
    computed on the padded buffer is the one computed on the cells of the
    tile that the sub-block covers, for each of the five statistics. *)
Theorem expand_ignore_padding (aggr_type : string)
                              (cellfact numRows numCols : Z) (data : ndarray) :
  In aggr_type choices ->
  0 < cellfact -> wf_array data -> shape data = (numRows, numCols) ->
  Forall (Forall valid_cell) (items data) ->
  exists out,
    normalize true cellfact numRows numCols data = retE out /\
    forall x y,
      0 <= x <= numRows -> 0 <= y <= numCols ->
      forallb isnan (ravel (getitem x (cellfact + x) y (cellfact + y) data)) = false ->
      exec_cmd (ign_of false) aggr_type (getitem x (cellfact + x) y (cellfact + y) out)
      = exec_cmd (ign_of false) aggr_type (getitem x (cellfact + x) y (cellfact + y) data).
Proof.
  intros Hin Hf Hwf Hs Hvalid.
  destruct (padded_form cellfact numRows numCols data Hf Hwf Hs)
    as (out & d & k & En & Io).
  exists out. split; [assumption |].
  intros x y Hx Hy Hsome.
  set (bo := getitem x (cellfact + x) y (cellfact + y) out).
  set (bd := getitem x (cellfact + x) y (cellfact + y) data).
  assert (Hnum : filter notnan (ravel bo) = filter notnan (ravel bd)).
  { apply (padded_block_numbers cellfact x y data out d k); try assumption;
      rewrite Hs; simpl; assumption. }
  assert (Hvo : Forall valid_cell (ravel bo)).
  { apply block_Forall. rewrite Io. now apply padded_items_valid. }
  assert (Hvd : Forall valid_cell (ravel bd)) by now apply block_Forall.
  assert (Hsome' : forallb isnan (ravel bo) = false).
  { apply not_all_nan_of_filter. rewrite Hnum.
    now apply filter_notnan_nonempty. }
  destruct (exec_cmd_ignoring aggr_type Hin) as (f & f' & Ef & Hk).
  rewrite !Ef.
  rewrite (variant_filter f f' (ravel bo) Hvo Hsome' Hk).
  rewrite (variant_filter f f' (ravel bd) Hvd Hsome Hk).
  now rewrite Hnum.
Qed.

Lemma expand_ignore_padding_witness :
  exists out,
    normalize true 2 3 3 tile_3x3 = retE out /\
    forall x y,
      0 <= x <= 3 -> 0 <= y <= 3 ->
      forallb isnan (ravel (getitem x (2 + x) y (2 + y) tile_3x3)) = false ->
      exec_cmd (ign_of false) "SUM" (getitem x (2 + x) y (2 + y) out)
      = exec_cmd (ign_of false) "SUM" (getitem x (2 + x) y (2 + y) tile_3x3).
Proof.
  apply (expand_ignore_padding "SUM" 2 3 3 tile_3x3).
  - simpl. auto 6.
  - lia.
  - exact tile_3x3_wf.
  - reflexivity.
  - repeat constructor.
Defined.

(* ================================================================== *)
(** * A tile shorter than the factor, in shrink mode (lines 77-110) *)
(* ================================================================== *)

(** Writing an array without cells inside the output raster: the call is
    accepted and leaves the raster as it is. *)
Lemma WriteArray_no_cells (array : ndarray) (xoff yoff : Z) (w : world)
                          (out : Dataset) :
  Forall (fun row => row = []) (items array) ->
  outDataset w = Some out ->
  snd (shape array) + xoff <= RasterXSize out ->
  fst (shape array) + yoff <= RasterYSize out ->
  WriteArray array xoff yoff w
  = ({| log := log w ++ [EvWriteArray array xoff yoff];
        outDataset := Some out |}, inr tt).
Proof.
  intros Hempty Hout Hx Hy.
  rewrite (WriteArray_run array xoff yoff w out) by assumption.
  unfold apply_events. rewrite Hout. unfold replay. cbn [fold_left].
  rewrite write_window_no_cells by assumption.
  now destruct out.
Qed.

(** C8. In shrink mode, a tile with fewer rows or fewer columns than the
    factor is normalized to an extent of 0 in that axis and contributes no
    output row or no output column.  [WriteArray] is still called for the
    tile, with an array that has no cell; inside the output raster the call
    is accepted, and the output raster is after the tile what it was
    before it. *)
Theorem short_tile_writes_no_cell
    (dataset : Dataset) (ND : float64) (cellfact : Z) (aggr_type ign : string)
    (i numRows j numCols : Z) (w : world) (out : Dataset) :
  0 < cellfact -> wf_dataset dataset ->
  0 <= i -> 0 <= j -> 0 < numRows -> 0 < numCols ->
  i + numRows <= RasterYSize dataset -> j + numCols <= RasterXSize dataset ->
  numRows < cellfact \/ numCols < cellfact ->
  outDataset w = Some out ->
  j / cellfact + edge_extent false cellfact numCols / cellfact <= RasterXSize out ->
  i / cellfact + edge_extent false cellfact numRows / cellfact <= RasterYSize out ->
  exists array,
    tile dataset ND cellfact aggr_type false ign i numRows j numCols w
    = ({| log := log w ++ [EvReadAsArray j i numCols numRows;
                           EvWriteArray array (j / cellfact) (i / cellfact)];
          outDataset := Some out |}, inr tt) /\
    shape array = (edge_extent false cellfact numRows / cellfact,
                   edge_extent false cellfact numCols / cellfact) /\
    (fst (shape array) = 0 \/ snd (shape array) = 0) /\
    ravel array = [].
Proof.
  intros Hf Hds Hi Hj Hr Hc Hib Hjb Hshort Hout Hxb Hyb.
  destruct (normalize_window dataset ND false cellfact i numRows j numCols)
    as (data & En & Sn & Wn); try lia; try assumption.
  assert (Hext : 0 <= edge_extent false cellfact numRows /\
                 0 <= edge_extent false cellfact numCols /\
                 (edge_extent false cellfact numRows = 0 \/
                  edge_extent false cellfact numCols = 0)).
  { split; [apply edge_extent_nonneg; lia |].
    split; [apply edge_extent_nonneg; lia |].
    destruct Hshort; [left | right]; apply edge_extent_shrink_small; lia. }
  destruct Hext as (Hr0 & Hc0 & Hz).
  destruct (aggregation_no_cells cellfact ign aggr_type data _ _ Hf Sn Hr0 Hc0 Hz)
    as (array & Ea & Sa & Ia).
  exists array. split; [| split; [| split]].
  - unfold tile, bind. rewrite ReadAsArray_run.
    unfold liftE. rewrite En. unfold retE at 1. cbv beta iota.
    rewrite Ea. unfold retE at 1. cbv beta iota.
    rewrite !floordiv_run by lia. unfold retE. cbv beta iota.
    rewrite (WriteArray_no_cells array _ _ _ out); try assumption.
    + cbn [log]. now rewrite <- app_assoc.
    + rewrite Sa. cbn [snd]. lia.
    + rewrite Sa. cbn [fst]. lia.
  - exact Sa.
  - rewrite Sa. cbn [fst snd].
    destruct Hz as [-> | ->]; [left | right]; apply Z.div_0_l; lia.
  - unfold ravel. now apply concat_nil_Forall.
Qed.

Lemma grid_401x2_wf : wf_dataset grid_401x2.
Proof.
  unfold wf_dataset, grid_401x2, raster_of. cbn [RasterXSize RasterYSize pixels].
  rewrite length_map, repeat_length.
  repeat split; try (simpl; lia).
  apply Forall_map, Forall_forall. intros row Hrow.
  apply repeat_spec in Hrow. now subst row.
Qed.

(** The last tile of the raster of 401 rows, with factor 2: a single row,
    met once the output of 200 rows is created. *)
Lemma short_tile_writes_no_cell_witness :
  exists array,
    tile grid_401x2 default_ND 2 "SUM" false "nan" 400 1 0 2
         (world_created grid_401x2 false 2)
    = ({| log := log (world_created grid_401x2 false 2)
                 ++ [EvReadAsArray 0 400 2 1; EvWriteArray array (0 / 2) (400 / 2)];
          outDataset := Some {| RasterXSize := 1; RasterYSize := 200;
                                NoDataValue := Some default_ND;
                                pixels := repeat [zero] 200 |} |}, inr tt) /\
    shape array = (edge_extent false 2 1 / 2, edge_extent false 2 2 / 2) /\
    (fst (shape array) = 0 \/ snd (shape array) = 0) /\
    ravel array = [].
Proof.
  apply (short_tile_writes_no_cell grid_401x2 default_ND 2 "SUM" "nan" 400 1 0 2
           (world_created grid_401x2 false 2)).
  - lia.
  - exact grid_401x2_wf.
  - lia.
  - lia.
  - lia.
  - lia.
  - simpl. lia.
  - simpl. lia.
  - left. lia.
  - reflexivity.
  - vm_compute. discriminate.
  - vm_compute. discriminate.
Defined.

(** On that raster the run calls [WriteArray] for the last tile as for the
    first one: its last two calls are the read of the single row and the
    write of an array without rows at row 200 of the output. *)
Lemma short_tile_is_handed_to_WriteArray :
  let r := ras_aggregation grid_401x2 2 (Some "SUM") (Some false) (Some false) world0 in
  snd r = inr tt /\
  skipn 4 (log (fst r))
  = [EvReadAsArray 0 400 2 1;
     EvWriteArray {| shape := (0, 1); items := [] |} 0 200].
Proof.
  vm_compute. split; reflexivity.
Qed.

(* ================================================================== *)
(** * NoData cells of the band and the output cell (lines 26-30, 75, 102-110) *)
(* ================================================================== *)

(** The cells of a sub-block of the marked tile are the cells of the
    sub-block of the tile, those equal to the NoData value being replaced
    by not-a-number. *)
Lemma ravel_getitem_where (x0 x1 y0 y1 : Z) (array : ndarray) (ND : float64) :
  ravel (getitem x0 x1 y0 y1 (where_eq_nan array ND))
  = map (mark ND) (ravel (getitem x0 x1 y0 y1 array)).
Proof.
  unfold ravel, getitem, getcols, getrows, where_eq_nan. cbn [items shape].
  rewrite slice_map, map_map, concat_map, map_map. f_equal.
  apply map_ext. intros row. apply slice_map.
Qed.

Lemma mark_isnan (ND v : float64) :
  isnan v = false -> isnan (mark ND v) = equal v ND.
Proof.
  intros Hv. unfold mark. destruct (equal v ND); [reflexivity | assumption].
Qed.

Lemma forallb_isnan_marked (ND : float64) (cells : list float64) :
  Forall (fun v => isnan v = false) cells ->
  forallb isnan (map (mark ND) cells) = forallb (fun v => equal v ND) cells.
Proof.
  induction 1 as [| v cells Hv _ IH]; [reflexivity |].
  cbn [map forallb]. now rewrite mark_isnan, IH.
Qed.

Lemma existsb_isnan_marked (ND : float64) (cells : list float64) :
  Forall (fun v => isnan v = false) cells ->
  existsb isnan (map (mark ND) cells) = existsb (fun v => equal v ND) cells.
Proof.
  induction 1 as [| v cells Hv _ IH]; [reflexivity |].
  cbn [map existsb]. now rewrite mark_isnan, IH.
Qed.

Lemma filter_notnan_marked (ND : float64) (cells : list float64) :
  Forall (fun v => isnan v = false) cells ->
  filter notnan (map (mark ND) cells) = filter (fun v => negb (equal v ND)) cells.
Proof.
  induction 1 as [| v cells Hv _ IH]; [reflexivity |].
  cbn [map filter]. unfold notnan at 1. rewrite mark_isnan by assumption.
  rewrite IH. unfold mark at 1.
  destruct (equal v ND); reflexivity.
Qed.

Lemma marked_valid (ND : float64) (cells : list float64) :
  Forall valid_cell cells -> Forall valid_cell (map (mark ND) cells).
Proof.
  intros H. apply Forall_map. eapply Forall_impl; [| exact H].
  intros v Hv. unfold mark. destruct (equal v ND); [reflexivity | assumption].
Qed.

Lemma statistic_over_named (aggr_type : string) (cells : list float64) :
  In aggr_type choices ->
  statistic_over aggr_type cells = named_statistic aggr_type cells.
Proof.
  intros Hin. simpl in Hin.
  destruct Hin as [<- | [<- | [<- | [<- | [<- | []]]]]]; reflexivity.
Qed.

(** The scalar of a sub-block of the marked tile, from the cells of the
    tile: not-a-number where the law says NoData. *)
Lemma exec_cmd_marked (prop_nodata : bool) (aggr_type : string)
                      (x0 x1 y0 y1 : Z) (array : ndarray) (ND : float64) :
  In aggr_type choices ->
  ravel (getitem x0 x1 y0 y1 array) <> [] ->
  Forall valid_cell (ravel (getitem x0 x1 y0 y1 array)) ->
  Forall (fun v => isnan v = false) (ravel (getitem x0 x1 y0 y1 array)) ->
  exec_cmd (ign_of prop_nodata) aggr_type
    (getitem x0 x1 y0 y1 (where_eq_nan array ND))
  = nodata_law_on ND nan prop_nodata aggr_type (ravel (getitem x0 x1 y0 y1 array)).
Proof.
  intros Hin Hne Hv Hnum.
  rewrite exec_cmd_nan_law; try assumption.
  - rewrite ravel_getitem_where. unfold nodata_law, nodata_law_on.
    rewrite forallb_isnan_marked, existsb_isnan_marked, filter_notnan_marked
      by assumption.
    now rewrite statistic_over_named.
  - rewrite ravel_getitem_where.
    destruct (ravel (getitem x0 x1 y0 y1 array)); [congruence | discriminate].
  - rewrite ravel_getitem_where. now apply marked_valid.
Qed.

Lemma nodata_law_on_marker (ND marker : float64) (propagateNoData : bool)
                           (aggr_type : string) (cells : list float64) :
  forallb (fun v => equal v ND) cells
  || existsb (fun v => equal v ND) cells && propagateNoData = true ->
  nodata_law_on ND marker propagateNoData aggr_type cells = retE marker.
Proof.
  unfold nodata_law_on. intros H.
  destruct (forallb (fun v => equal v ND) cells); [reflexivity |].
  simpl in H. now rewrite H.
Qed.

(** C4. On a raster that fits in one tile, in shrink mode, with a NoData
    value that is a number and cells that are numbers: the output cell of
    a sub-block follows the NoData law with not-a-number where the law
    says NoData.  For a sub-block of NoData cells only, and for a sub-block
    with some NoData cell when NoData is propagated, the output cell is
    not-a-number and is not the NoData value that the output declares;
    otherwise it is the statistic over the cells that are not NoData. *)
Theorem nodata_block_gives_nan (inras : Dataset) (cellfact : Z)
                               (aggr_type : string) (prop_nodata : bool)
                               (r c : nat) :
  wf_dataset inras -> 0 < cellfact ->
  cellfact <= RasterYSize inras <= 200 * cellfact ->
  cellfact <= RasterXSize inras <= 200 * cellfact ->
  In aggr_type choices ->
  isnan (nodata_of inras) = false ->
  Forall (Forall (fun v => valid_cell v /\ isnan v = false)) (pixels inras) ->
  Z.of_nat r < RasterYSize inras / cellfact ->
  Z.of_nat c < RasterXSize inras / cellfact ->
  let ND := nodata_of inras in
  let cells :=
    ravel (getitem (Z.of_nat r * cellfact) (cellfact + Z.of_nat r * cellfact)
                   (Z.of_nat c * cellfact) (cellfact + Z.of_nat c * cellfact)
                   (band_array inras)) in
  exists out,
    outDataset (fst (ras_aggregation_body inras cellfact aggr_type false
                       prop_nodata world0)) = Some out /\
    NoDataValue out = Some ND /\
    retE (nth c (nth r (pixels out) []) zero)
    = nodata_law_on ND nan prop_nodata aggr_type cells /\
    (forallb (fun v => equal v ND) cells
     || existsb (fun v => equal v ND) cells && prop_nodata = true ->
     nth c (nth r (pixels out) []) zero = nan /\
     nth c (nth r (pixels out) []) zero <> ND).
Proof.
  intros Hds Hf Hr Hc Hin Hnd Hcells Hrb Hcb ND cells.
  pose proof (single_tile_shrink_run inras cellfact aggr_type prop_nodata
                Hds Hf Hr Hc Hin) as Hout.
  rewrite run_completes in Hout |- * by assumption.
  unfold out_pixels, apply_events, world_created in Hout |- *.
  cbn [fst outDataset pixels] in Hout |- *.
  eexists. split; [reflexivity |]. split; [reflexivity |].
  cbn [pixels].
  apply (f_equal (fun o => match o with Some px => px | None => [] end)) in Hout.
  cbv beta iota in Hout. rewrite Hout. clear Hout.
  pose proof Hds as (Hx & Hy & Hlen & Hrows).
  assert (Hwf : wf_array (band_array inras)).
  { unfold wf_array, band_array. cbn [shape items fst snd]. auto. }
  assert (Hbr : 0 <= Z.of_nat r * cellfact /\
                cellfact + Z.of_nat r * cellfact <= RasterYSize inras).
  { split; [nia |].
    pose proof (Z.mul_div_le (RasterYSize inras) cellfact Hf). nia. }
  assert (Hbc : 0 <= Z.of_nat c * cellfact /\
                cellfact + Z.of_nat c * cellfact <= RasterXSize inras).
  { split; [nia |].
    pose proof (Z.mul_div_le (RasterXSize inras) cellfact Hf). nia. }
  assert (Hcell : nth c (nth r (items (aggregated cellfact (ign_of prop_nodata)
                                         aggr_type (marked inras))) []) zero
                  = block_value cellfact (ign_of prop_nodata) aggr_type
                      (marked inras)
                      (Z.of_nat r * cellfact) (Z.of_nat c * cellfact)).
  { unfold aggregated. cbn [items].
    rewrite (nth_map_seq _ _ r []) by (unfold marked, where_eq_nan; cbn [shape fst]; lia).
    apply (nth_map_seq
             (fun c => block_value cellfact (ign_of prop_nodata) aggr_type
                         (marked inras)
                         (Z.of_nat r * cellfact) (Z.of_nat c * cellfact))).
    unfold marked, where_eq_nan. cbn [shape snd]. lia. }
  assert (Hlaw : retE (block_value cellfact (ign_of prop_nodata) aggr_type
                         (marked inras)
                         (Z.of_nat r * cellfact) (Z.of_nat c * cellfact))
                 = nodata_law_on ND nan prop_nodata aggr_type cells).
  { rewrite <- block_value_run; try assumption.
    - change (marked inras) with (where_eq_nan (band_array inras) ND).
      apply exec_cmd_marked; try assumption.
      + apply block_nonempty; try assumption;
          unfold band_array; cbn [shape fst snd]; lia.
      + apply block_Forall. unfold band_array. cbn [items].
        eapply Forall_impl; [| exact Hcells]. intros row Hrow.
        eapply Forall_impl; [| exact Hrow]. now intros v [Hv _].
      + apply block_Forall. unfold band_array. cbn [items].
        eapply Forall_impl; [| exact Hcells]. intros row Hrow.
        eapply Forall_impl; [| exact Hrow]. now intros v [_ Hv].
    - now apply marked_wf.
    - lia.
    - unfold marked, where_eq_nan. cbn [shape fst]. lia.
    - lia.
    - unfold marked, where_eq_nan. cbn [shape snd]. lia. }
  rewrite Hcell. split; [exact Hlaw |].
  intros Hsays. rewrite (nodata_law_on_marker _ _ _ _ _ Hsays) in Hlaw.
  injection Hlaw as ->. split; [reflexivity |].
  intros Heq. fold ND in Hnd. now rewrite <- Heq in Hnd.
Qed.

Lemma grid_one_nodata_wf : wf_dataset grid_one_nodata.
Proof.
  unfold wf_dataset, grid_one_nodata; simpl.
  repeat split; try lia. repeat constructor.
Qed.

(** The raster with one NoData cell, factor 2, SUM, NoData propagated. *)
Lemma nodata_block_gives_nan_witness :
  let ND := nodata_of grid_one_nodata in
  let cells :=
    ravel (getitem (Z.of_nat 0 * 2) (2 + Z.of_nat 0 * 2)
                   (Z.of_nat 0 * 2) (2 + Z.of_nat 0 * 2)
                   (band_array grid_one_nodata)) in
  exists out,
    outDataset (fst (ras_aggregation_body grid_one_nodata 2 "SUM" false
                       true world0)) = Some out /\
    NoDataValue out = Some ND /\
    retE (nth 0 (nth 0 (pixels out) []) zero)
    = nodata_law_on ND nan true "SUM" cells /\
    (forallb (fun v => equal v ND) cells
     || existsb (fun v => equal v ND) cells && true = true ->
     nth 0 (nth 0 (pixels out) []) zero = nan /\
     nth 0 (nth 0 (pixels out) []) zero <> ND).
Proof.
  apply (nodata_block_gives_nan grid_one_nodata 2 "SUM" true 0 0).
  - exact grid_one_nodata_wf.
  - lia.
  - simpl. lia.
  - simpl. lia.
  - simpl. auto 6.
  - reflexivity.
  - repeat constructor.
  - vm_compute. reflexivity.
  - vm_compute. reflexivity.
Defined.

(** On that raster the output cell is not-a-number when NoData is
    propagated, in an output whose NoData value is 0, and the sum of the
    three other cells when NoData is ignored. *)
Lemma grid_one_nodata_runs :
  (let r := ras_aggregation grid_one_nodata 2 (Some "SUM") (Some false) (Some true) world0 in
   snd r = inr tt /\
   out_pixels r = Some [[nan]] /\
   option_map NoDataValue (outDataset (fst r)) = Some (Some zero)) /\
  (let r := ras_aggregation grid_one_nodata 2 (Some "SUM") (Some false) (Some false) world0 in
   snd r = inr tt /\
   out_pixels r = Some [[of_int 6]]).
Proof.
  vm_compute. repeat split; reflexivity.
Qed.
